(** * Quiz application: scoring engine, taking session and persistence

    A shallow embedding of [Quiz_app/main.py].  Python dictionaries with a
    fixed set of keys become records, the dynamically typed submitted answer
    becomes a small sum type, exceptions become an explicit result type, and
    the MySQL connection becomes a state threaded through a state-and-error
    monad in which every statement may be made to fail. *)

From Stdlib Require Import List String Ascii ZArith Lia Bool Arith.
From Stdlib Require Import Permutation Sorted OrderedTypeEx DecimalString DecimalNat.
From Stdlib Require DecimalFacts FinFun.
Import ListNotations.

Set Implicit Arguments.

(** ** Python values and primitives *)

Module Py.

(** The exceptions the modelled code can meet: the two built-in ones and
    [mysql.connector.Error]. *)
Inductive exn : Type := TypeError | ValueError | IndexError | DbError.

Inductive result (A : Type) : Type :=
| Ok (a : A)
| Raise (e : exn).
Arguments Raise {A} e.

(** What the session stores as a submitted answer: [None], a choice id or a
    free text (both [str]), or a list of choice ids. *)
Inductive value : Type :=
| VNone
| VStr (s : string)
| VList (l : list string).

Fixpoint list_eqb (a b : list string) : bool :=
  match a, b with
  | [], [] => true
  | x :: a', y :: b' => String.eqb x y && list_eqb a' b'
  | _, _ => false
  end.

(** Python's [==] on the values above: values of different types are
    unequal, [None == None]. *)
Definition value_eqb (a b : value) : bool :=
  match a, b with
  | VNone, VNone => true
  | VStr s, VStr t => String.eqb s t
  | VList l, VList m => list_eqb l m
  | _, _ => false
  end.

(** [sorted] on a list of [str].  Strings are compared lexicographically,
    character by character; as equal strings are indistinguishable, every
    sorting algorithm returns the same list, here computed by insertion. *)
Fixpoint insert (x : string) (l : list string) : list string :=
  match l with
  | [] => [x]
  | y :: t => if String.leb x y then x :: l else y :: insert x t
  end.

Fixpoint sorted (l : list string) : list string :=
  match l with
  | [] => []
  | x :: t => insert x (sorted t)
  end.

(** Iterating over a [str] yields its characters as one-character strings. *)
Fixpoint chars (s : string) : list string :=
  match s with
  | EmptyString => []
  | String c t => String c EmptyString :: chars t
  end.

(** [sorted(v)] for a dynamically typed [v]: [None] is not iterable. *)
Definition sorted_value (v : value) : result (list string) :=
  match v with
  | VNone => Raise TypeError
  | VStr s => Ok (sorted (chars s))
  | VList l => Ok (sorted l)
  end.

(** [str(n)] and [int(s)] for the non-negative integers used as row ids.
    [int] is modelled on plain decimal digit strings, which is all that
    [str] produces; anything else raises [ValueError]. *)
Definition str (n : nat) : string := NilEmpty.string_of_uint (Nat.to_uint n).

Definition int (s : string) : result nat :=
  match s with
  | EmptyString => Raise ValueError
  | _ => match NilEmpty.uint_of_string s with
         | Some d => Ok (Nat.of_uint d)
         | None => Raise ValueError
         end
  end.

End Py.
Import Py.

(** ** The quiz tree

    The nested dictionaries built by [generate_question_data] and
    [generate_subquiz_data], edited in [create_quiz_mode] and rebuilt by
    [get_quiz_by_code]. *)

Record Choice : Type := mkChoice {
  c_id : string;
  c_text : string;
  is_correct : bool
}.

Record Question : Type := mkQuestion {
  q_id : string;
  q_text : string;
  q_type : string;
  points : Z;
  choices : list Choice
}.

Record SubQuiz : Type := mkSubQuiz {
  sq_id : string;
  title : string;
  questions : list Question
}.

Definition SINGLE_CHOICE : string := "SINGLE_CHOICE".
Definition MULTI_SELECT : string := "MULTI_SELECT".
Definition OPEN_TEXT : string := "OPEN_TEXT".

(** ** Scoring engine *)

(** [next((c['id'] for c in question['choices'] if c['is_correct']), None)] *)
Fixpoint first_correct (cs : list Choice) : value :=
  match cs with
  | [] => VNone
  | c :: t => if is_correct c then VStr (c_id c) else first_correct t
  end.

(** [[c['id'] for c in question['choices'] if c['is_correct']]] *)
Definition correct_choice_ids (question : Question) : list string :=
  map c_id (filter is_correct (choices question)).

Definition score_answer (question : Question) (submitted_answer : value)
  : result (Z * bool) :=
  if String.eqb (q_type question) SINGLE_CHOICE then
    let correct_choice_id := first_correct (choices question) in
    if value_eqb submitted_answer correct_choice_id
    then Ok (points question, true)
    else Ok (0%Z, false)
  else if String.eqb (q_type question) MULTI_SELECT then
    let correct_ids := sorted (correct_choice_ids question) in
    match sorted_value submitted_answer with
    | Raise e => Raise e
    | Ok submitted_ids =>
        if list_eqb correct_ids submitted_ids
        then Ok (points question, true)
        else Ok (0%Z, false)
    end
  else if String.eqb (q_type question) OPEN_TEXT then Ok (0%Z, false)
  else Ok (0%Z, false).

(** ** Taking session: the view of the active step ([taker_mode]) *)

(** What the [QUIZ_ACTIVE] branch does for a cursor: hand over to
    [submit_results], move on to the next sub-quiz, or show the current
    question together with the two numbers given to [st.progress]. *)
Inductive active_view : Type :=
| AllDone
| NextSubQuiz
| ShowQuestion (current_question : Question)
               (questions_completed total_questions : nat).

(** [sum(...)] over natural numbers. *)
Definition sum (l : list nat) : nat := fold_left Nat.add l 0.

(** [len(sub_quizzes[i]['questions'])]; indexing past the end raises. *)
Definition questions_len_at (sub_quizzes : list SubQuiz) (i : nat) : result nat :=
  match nth_error sub_quizzes i with
  | Some sq => Ok (List.length (questions sq))
  | None => Raise IndexError
  end.

(** A generator expression whose items may raise, collected in order. *)
Fixpoint collect (A B : Type) (f : A -> result B) (l : list A) : result (list B) :=
  match l with
  | [] => Ok []
  | x :: t =>
      match f x with
      | Raise e => Raise e
      | Ok y => match collect f t with
                | Raise e => Raise e
                | Ok ys => Ok (y :: ys)
                end
      end
  end.

Definition taker_active (sub_quizzes : list SubQuiz) (sq_idx q_idx : nat)
  : result active_view :=
  match nth_error sub_quizzes sq_idx with
  | None => Ok AllDone
  | Some current_subquiz =>
      match nth_error (questions current_subquiz) q_idx with
      | None => Ok NextSubQuiz
      | Some current_question =>
          let total_questions :=
            sum (map (fun sq => List.length (questions sq)) sub_quizzes) in
          match collect (questions_len_at sub_quizzes) (seq 0 sq_idx) with
          | Raise e => Raise e
          | Ok lens =>
              Ok (ShowQuestion current_question (sum lens + q_idx) total_questions)
          end
      end
  end.

(** ** Access codes *)

Definition ascii_uppercase : string := "ABCDEFGHIJKLMNOPQRSTUVWXYZ".
Definition digits : string := "0123456789".
Definition characters : string := ascii_uppercase ++ digits.

(** [random.choice(seq)]: the generator's raw draw [r] selects a position of
    the non-empty [seq]. *)
Definition random_choice (seq : string) (r : nat) : ascii :=
  nth (r mod String.length seq) (list_ascii_of_string seq) "A"%char.

(** [generate_access_code(length)], reading the upcoming draws of the random
    generator from [draw]: the [i]-th character uses the [i]-th draw. *)
Definition generate_access_code (length : nat) (draw : nat -> nat) : string :=
  string_of_list_ascii
    (map (fun i => random_choice characters (draw i)) (seq 0 length)).

(** ** The relational store *)

Record QuizRow : Type := mkQuizRow {
  QuizID : nat;
  CreatorUserID : string;
  Title : string;
  Access_Code : string
}.

Record SubQuizRow : Type := mkSubQuizRow {
  SubQuizID : nat;
  sq_QuizID : nat;
  sq_Title : string;
  sq_Order_Index : nat
}.

Record QuestionRow : Type := mkQuestionRow {
  QuestionID : nat;
  q_SubQuizID : nat;
  Question_Text : string;
  Question_Type : string;
  Points : Z;
  q_Order_Index : nat
}.

Record ChoiceRow : Type := mkChoiceRow {
  ChoiceID : nat;
  c_QuestionID : nat;
  Choice_Text : string;
  Is_Correct : nat
}.

Record QuizTakerRow : Type := mkQuizTakerRow {
  TakerID : nat;
  t_QuizID : nat;
  Taker_Name : string;
  Completed_At : nat;
  Total_Score : Z
}.

Record AnswerRow : Type := mkAnswerRow {
  a_TakerID : nat;
  a_QuestionID : nat;
  Submitted_Answer : string;
  a_Is_Correct : nat;
  Score_Achieved : Z
}.

(** The rows of the six tables, each in insertion order. *)
Record tables : Type := mkTables {
  Quizzes : list QuizRow;
  SubQuizzes : list SubQuizRow;
  Questions : list QuestionRow;
  Choices : list ChoiceRow;
  QuizTakers : list QuizTakerRow;
  Answers : list AnswerRow
}.

(** A connection to the server.  [visible] holds the committed rows, the
    ones any other connection reads; [working] is the view inside the open
    transaction.  The AUTO_INCREMENT counters are not transactional: a
    rollback does not give ids back.  [executed] counts the statements sent,
    [clock] is what [NOW()] returns. *)
Record session : Type := mkSession {
  visible : tables;
  working : tables;
  next_QuizID : nat;
  next_SubQuizID : nat;
  next_QuestionID : nat;
  next_ChoiceID : nat;
  next_TakerID : nat;
  executed : nat;
  clock : nat
}.

Definition set_working (T : tables) (s : session) : session :=
  mkSession (visible s) T (next_QuizID s) (next_SubQuizID s)
            (next_QuestionID s) (next_ChoiceID s) (next_TakerID s)
            (executed s) (clock s).

Definition set_visible (T : tables) (s : session) : session :=
  mkSession T (working s) (next_QuizID s) (next_SubQuizID s)
            (next_QuestionID s) (next_ChoiceID s) (next_TakerID s)
            (executed s) (clock s).

Definition tick (s : session) : session :=
  mkSession (visible s) (working s) (next_QuizID s) (next_SubQuizID s)
            (next_QuestionID s) (next_ChoiceID s) (next_TakerID s)
            (S (executed s)) (clock s).

(** State-and-exception monad of the code that talks to the store. *)
Definition DB (A : Type) : Type := session -> result A * session.

Definition ret (A : Type) (a : A) : DB A := fun s => (Ok a, s).

Definition bind (A B : Type) (m : DB A) (k : A -> DB B) : DB B :=
  fun s =>
    match m s with
    | (Ok a, s') => k a s'
    | (Raise e, s') => (Raise e, s')
    end.

Notation "x <- m ;; k" := (bind m (fun x => k))
  (at level 61, m at next level, right associativity).
Notation "m ;;; k" := (bind m (fun _ => k))
  (at level 61, right associativity).

Definition add_Quiz (r : QuizRow) (T : tables) : tables :=
  mkTables (Quizzes T ++ [r]) (SubQuizzes T) (Questions T) (Choices T)
           (QuizTakers T) (Answers T).

Definition add_SubQuiz (r : SubQuizRow) (T : tables) : tables :=
  mkTables (Quizzes T) (SubQuizzes T ++ [r]) (Questions T) (Choices T)
           (QuizTakers T) (Answers T).

Definition add_Question (r : QuestionRow) (T : tables) : tables :=
  mkTables (Quizzes T) (SubQuizzes T) (Questions T ++ [r]) (Choices T)
           (QuizTakers T) (Answers T).

Definition add_Choice (r : ChoiceRow) (T : tables) : tables :=
  mkTables (Quizzes T) (SubQuizzes T) (Questions T) (Choices T ++ [r])
           (QuizTakers T) (Answers T).

Definition add_QuizTaker (r : QuizTakerRow) (T : tables) : tables :=
  mkTables (Quizzes T) (SubQuizzes T) (Questions T) (Choices T)
           (QuizTakers T ++ [r]) (Answers T).

Definition add_Answer (r : AnswerRow) (T : tables) : tables :=
  mkTables (Quizzes T) (SubQuizzes T) (Questions T) (Choices T)
           (QuizTakers T) (Answers T ++ [r]).

(** [conn.start_transaction()], [conn.rollback()] and [conn.close()]: the
    last two both drop whatever the transaction has not committed. *)
Definition start_transaction : DB unit :=
  fun s => (Ok tt, set_working (visible s) s).

Definition rollback (s : session) : session := set_working (visible s) s.

Definition close (s : session) : session := set_working (visible s) s.

(** [user_id], the creator id shared by every quiz. *)
Definition user_id : string := "streamlite_creator_session".

Section Persistence.

(** Fault injection: [fails n] tells whether the [n]-th statement sent over
    the connection raises [mysql.connector.Error]. *)
Variable fails : nat -> bool.

(** Sending one statement: it is counted, and it raises when told to. *)
Definition statement : DB unit :=
  fun s => if fails (executed s) then (Raise DbError, tick s) else (Ok tt, tick s).

(** [cursor.execute("INSERT INTO Quizzes ...")] followed by
    [cursor.lastrowid]. *)
Definition insert_Quiz (creator quiz_title access_code : string) : DB nat :=
  statement ;;;
  fun s =>
    let i := next_QuizID s in
    (Ok i,
     mkSession (visible s)
               (add_Quiz (mkQuizRow i creator quiz_title access_code) (working s))
               (S i) (next_SubQuizID s) (next_QuestionID s) (next_ChoiceID s)
               (next_TakerID s) (executed s) (clock s)).

Definition insert_SubQuiz (quiz_id : nat) (sq_title : string) (order : nat) : DB nat :=
  statement ;;;
  fun s =>
    let i := next_SubQuizID s in
    (Ok i,
     mkSession (visible s)
               (add_SubQuiz (mkSubQuizRow i quiz_id sq_title order) (working s))
               (next_QuizID s) (S i) (next_QuestionID s) (next_ChoiceID s)
               (next_TakerID s) (executed s) (clock s)).

Definition insert_Question (subquiz_id : nat) (text type : string) (pts : Z)
    (order : nat) : DB nat :=
  statement ;;;
  fun s =>
    let i := next_QuestionID s in
    (Ok i,
     mkSession (visible s)
               (add_Question (mkQuestionRow i subquiz_id text type pts order)
                             (working s))
               (next_QuizID s) (next_SubQuizID s) (S i) (next_ChoiceID s)
               (next_TakerID s) (executed s) (clock s)).

Definition insert_Choice (question_id : nat) (text : string) (correct : nat) : DB nat :=
  statement ;;;
  fun s =>
    let i := next_ChoiceID s in
    (Ok i,
     mkSession (visible s)
               (add_Choice (mkChoiceRow i question_id text correct) (working s))
               (next_QuizID s) (next_SubQuizID s) (next_QuestionID s) (S i)
               (next_TakerID s) (executed s) (clock s)).

Definition insert_QuizTaker (quiz_id : nat) (name : string) (total : Z) : DB nat :=
  statement ;;;
  fun s =>
    let i := next_TakerID s in
    (Ok i,
     mkSession (visible s)
               (add_QuizTaker (mkQuizTakerRow i quiz_id name (clock s) total)
                              (working s))
               (next_QuizID s) (next_SubQuizID s) (next_QuestionID s)
               (next_ChoiceID s) (S i) (executed s) (clock s)).

Definition insert_Answer (taker_id question_id : nat) (submitted : string)
    (correct : nat) (score : Z) : DB unit :=
  statement ;;;
  fun s =>
    (Ok tt,
     set_working (add_Answer (mkAnswerRow taker_id question_id submitted correct score)
                             (working s)) s).

(** [conn.commit()]: a statement as well; when it goes through, the working
    rows become the visible ones. *)
Definition commit : DB unit :=
  statement ;;; fun s => (Ok tt, set_visible (working s) s).

(** *** [save_quiz] *)

(** The loop over [question['choices']]. *)
Fixpoint insert_choices (question_id : nat) (cs : list Choice) : DB unit :=
  match cs with
  | [] => ret tt
  | choice :: rest =>
      let is_correct_int := if is_correct choice then 1 else 0 in
      insert_Choice question_id (c_text choice) is_correct_int ;;;
      insert_choices question_id rest
  end.

(** The loop over [enumerate(sub_quiz['questions'])], from index [q_idx]. *)
Fixpoint insert_questions (subquiz_id q_idx : nat) (qs : list Question) : DB unit :=
  match qs with
  | [] => ret tt
  | question :: rest =>
      question_id <- insert_Question subquiz_id (q_text question) (q_type question)
                                     (points question) q_idx ;;
      (if negb (String.eqb (q_type question) OPEN_TEXT)
       then insert_choices question_id (choices question)
       else ret tt) ;;;
      insert_questions subquiz_id (S q_idx) rest
  end.

(** The loop over [enumerate(sub_quizzes_data)], from index [sq_idx]. *)
Fixpoint insert_sub_quizzes (quiz_id sq_idx : nat) (sqs : list SubQuiz) : DB unit :=
  match sqs with
  | [] => ret tt
  | sub_quiz :: rest =>
      subquiz_id <- insert_SubQuiz quiz_id (title sub_quiz) sq_idx ;;
      insert_questions subquiz_id 0 (questions sub_quiz) ;;;
      insert_sub_quizzes quiz_id (S sq_idx) rest
  end.

(** The body of the [try] block, up to and including the commit. *)
Definition save_quiz_try (draw : nat -> nat) (quiz_title : string)
    (sub_quizzes_data : list SubQuiz) : DB string :=
  start_transaction ;;;
  let access_code := generate_access_code 6 draw in
  quiz_id <- insert_Quiz user_id quiz_title access_code ;;
  insert_sub_quizzes quiz_id 0 sub_quizzes_data ;;;
  commit ;;;
  ret access_code.

(** How a call ends: no connection, the quiz saved (the code is left in
    [last_code]), the error reported after a rollback, or an exception that
    is not a store error and escapes. *)
Inductive save_outcome : Type :=
| SaveNoConnection
| Saved (last_code : string)
| SaveFailed
| SaveEscaped (e : exn).

(** [connected] tells whether [get_db_connection] returned a connection;
    [draw] holds the upcoming draws of the random generator. *)
Definition save_quiz (connected : bool) (draw : nat -> nat) (quiz_title : string)
    (sub_quizzes_data : list SubQuiz) (s : session) : save_outcome * session :=
  if negb connected then (SaveNoConnection, s)
  else
    match save_quiz_try draw quiz_title sub_quizzes_data s with
    | (Ok access_code, s') => (Saved access_code, close s')
    | (Raise DbError, s') => (SaveFailed, close (rollback s'))
    | (Raise e, s') => (SaveEscaped e, close s')
    end.

End Persistence.

(** *** [get_quiz_by_code] *)

(** [ORDER BY Order_Index]: rows in increasing order of their key, rows with
    the same key kept in storage order. *)
Fixpoint insert_by (A : Type) (key : A -> nat) (x : A) (l : list A) : list A :=
  match l with
  | [] => [x]
  | y :: t => if key x <=? key y then x :: l else y :: insert_by key x t
  end.

Fixpoint order_by (A : Type) (key : A -> nat) (l : list A) : list A :=
  match l with
  | [] => []
  | x :: t => insert_by key x (order_by key t)
  end.

(** The three [SELECT ... WHERE parent = %s] queries, each on the rows of
    its table.  The one on [Choices] has no [ORDER BY]: its rows come back in
    storage order. *)
Definition select_sub_quizzes (rows : list SubQuizRow) (quiz_id : nat) : list SubQuizRow :=
  order_by sq_Order_Index (filter (fun r => sq_QuizID r =? quiz_id) rows).

Definition select_questions (rows : list QuestionRow) (sq_id : nat) : list QuestionRow :=
  order_by q_Order_Index (filter (fun r => q_SubQuizID r =? sq_id) rows).

Definition select_choices (rows : list ChoiceRow) (q_id : nat) : list ChoiceRow :=
  filter (fun r => c_QuestionID r =? q_id) rows.

Definition load_choice (c_raw : ChoiceRow) : Choice :=
  mkChoice (str (ChoiceID c_raw)) (Choice_Text c_raw) (negb (Is_Correct c_raw =? 0)).

Definition load_question (C : list ChoiceRow) (q_raw : QuestionRow) : Question :=
  mkQuestion (str (QuestionID q_raw)) (Question_Text q_raw) (Question_Type q_raw)
             (Points q_raw)
             (if negb (String.eqb (Question_Type q_raw) OPEN_TEXT)
              then map load_choice (select_choices C (QuestionID q_raw))
              else []).

Definition load_sub_quiz (Q : list QuestionRow) (C : list ChoiceRow)
    (sq_raw : SubQuizRow) : SubQuiz :=
  mkSubQuiz (str (SubQuizID sq_raw)) (sq_Title sq_raw)
            (map (load_question C) (select_questions Q (SubQuizID sq_raw))).

(** The dictionary returned for a quiz.  [sub_quizzes_json] is kept as the
    structure itself: [json.loads (json.dumps x)] gives [x] back for these
    dictionaries of strings, integers, booleans and lists. *)
Record quiz_data : Type := mkQuizData {
  qd_title : string;
  creator_id : string;
  access_code : string;
  sub_quizzes_json : list SubQuiz
}.

(** [cursor.fetchone()] on the rows a query has produced: the first row, if
    any, and whether rows are left unread on the cursor. *)
Definition fetchone (A : Type) (rows : list A) : option A * bool :=
  match rows with
  | [] => (None, false)
  | [row] => (Some row, false)
  | row :: _ :: _ => (Some row, true)
  end.

(** The lookup reads the committed rows [T].  [None] stands for the pair
    [(None, None)].  The header is read with [fetchone]; when further rows
    carry the code they stay unread on the cursor, the next [cursor.execute]
    raises [mysql.connector.Error] ("Unread result found") and the [except]
    branch returns [(None, None)]. *)
Definition get_quiz_by_code (T : tables) (code : string) : option (quiz_data * string) :=
  match fetchone (filter (fun r => String.eqb (Access_Code r) code) (Quizzes T)) with
  | (None, _) => None
  | (Some quiz_header, unread_result) =>
      let quiz_id := QuizID quiz_header in
      if unread_result then None
      else
        Some (mkQuizData (Title quiz_header) (CreatorUserID quiz_header) code
                         (map (load_sub_quiz (Questions T) (Choices T))
                              (select_sub_quizzes (SubQuizzes T) quiz_id)),
              str quiz_id)
  end.

(** *** [submit_results] *)

(** [st.session_state['quiz_to_take']], as far as [submit_results] reads it.
    [answers] lists the items of the dictionary in insertion order. *)
Record quiz_state : Type := mkQuizState {
  qs_id : string;
  sub_quizzes : list SubQuiz;
  taker_name : string;
  answers : list (string * value)
}.

(** [f"{subquiz['id']}_{question['id']}"] *)
Definition session_key (subquiz : SubQuiz) (question : Question) : string :=
  (sq_id subquiz ++ "_" ++ q_id question)%string.

(** [question_lookup], as the sequence of its assignments; reading a key
    gives the value assigned last. *)
Definition question_lookup (sqs : list SubQuiz) : list (string * Question) :=
  flat_map (fun sq => map (fun q => (session_key sq q, q)) (questions sq)) sqs.

Fixpoint dict_get (d : list (string * Question)) (k : string) : option Question :=
  match d with
  | [] => None
  | (k', v) :: t =>
      match dict_get t k with
      | Some v' => Some v'
      | None => if String.eqb k' k then Some v else None
      end
  end.

(** [str(submitted)]: a string is itself, a list shows its items quoted.
    Choice ids are decimal numerals, so no character needs escaping. *)
Definition str_value (v : value) : string :=
  match v with
  | VNone => "None"
  | VStr s => s
  | VList l =>
      ("[" ++ String.concat ", " (map (fun x => "'" ++ x ++ "'") l) ++ "]")%string
  end.

(** The guard on unanswered questions followed by the call of the scoring
    engine: score, correctness and the text stored for the answer. *)
Definition score_submitted (q_data : Question) (submitted : value)
  : result (Z * bool * string) :=
  match submitted with
  | VNone | VList [] => Ok (0%Z, false, "N/A"%string)
  | _ =>
      match score_answer q_data submitted with
      | Raise e => Raise e
      | Ok (score, correct) => Ok (score, correct, str_value submitted)
      end
  end.

Record pending_answer : Type := mkPendingAnswer {
  pa_question_id : nat;
  pa_submitted : string;
  pa_is_correct : nat;
  pa_score : Z
}.

(** The loop over [quiz_state['answers'].items()]: total score and
    [answers_to_insert]. *)
Fixpoint process_answers (lookup : list (string * Question))
    (items : list (string * value)) (total_score : Z)
  : result (Z * list pending_answer) :=
  match items with
  | [] => Ok (total_score, [])
  | (key, submitted) :: rest =>
      match dict_get lookup key with
      | None => process_answers lookup rest total_score
      | Some q_data =>
          match score_submitted q_data submitted with
          | Raise e => Raise e
          | Ok (score, correct, submitted_str) =>
              match int (q_id q_data) with
              | Raise e => Raise e
              | Ok question_id =>
                  let is_correct_int := if (correct : bool) then 1 else 0 in
                  match process_answers lookup rest (total_score + score) with
                  | Raise e => Raise e
                  | Ok (total, l) =>
                      Ok (total,
                          mkPendingAnswer question_id submitted_str is_correct_int score :: l)
                  end
              end
          end
      end
  end.

Section Attempt.

Variable fails : nat -> bool.

Fixpoint insert_answers (taker_id : nat) (l : list pending_answer) : DB unit :=
  match l with
  | [] => ret tt
  | ans :: rest =>
      insert_Answer fails taker_id (pa_question_id ans) (pa_submitted ans)
                    (pa_is_correct ans) (pa_score ans) ;;;
      insert_answers taker_id rest
  end.

Definition submit_try (quiz_id : nat) (name : string) (total_score : Z)
    (answers_to_insert : list pending_answer) : DB unit :=
  start_transaction ;;;
  taker_id <- insert_QuizTaker fails quiz_id name total_score ;;
  insert_answers taker_id answers_to_insert ;;;
  commit fails.

Inductive submit_outcome : Type :=
| SubmitNoConnection
| Completed (final_score : Z)
| SubmitFailed
| SubmitEscaped (e : exn).

Definition submit_results (connected : bool) (st : quiz_state) (s : session)
  : submit_outcome * session :=
  if negb connected then (SubmitNoConnection, s)
  else
    match int (qs_id st) with
    | Raise e => (SubmitEscaped e, s)
    | Ok quiz_id =>
        match process_answers (question_lookup (sub_quizzes st)) (answers st) 0 with
        | Raise e => (SubmitEscaped e, s)
        | Ok (total_score, answers_to_insert) =>
            match submit_try quiz_id (taker_name st) total_score answers_to_insert s with
            | (Ok _, s') => (Completed total_score, close s')
            | (Raise DbError, s') => (SubmitFailed, close (rollback s'))
            | (Raise e, s') => (SubmitEscaped e, close s')
            end
        end
    end.

End Attempt.

(** ** Auxiliary notions used by the statements *)

(** A tree with every identifier blanked: what is left is titles, order,
    texts, types, points and correctness flags. *)
Definition erase_choice (c : Choice) : Choice :=
  mkChoice "" (c_text c) (is_correct c).

Definition erase_question (q : Question) : Question :=
  mkQuestion "" (q_text q) (q_type q) (points q) (map erase_choice (choices q)).

Definition erase_sub_quiz (sq : SubQuiz) : SubQuiz :=
  mkSubQuiz "" (title sq) (map erase_question (questions sq)).

(** The authored tree without the choices of its [OPEN_TEXT] questions. *)
Definition drop_open_text_choices (q : Question) : Question :=
  mkQuestion (q_id q) (q_text q) (q_type q) (points q)
             (if String.eqb (q_type q) OPEN_TEXT then [] else choices q).

Definition persisted_part (sq : SubQuiz) : SubQuiz :=
  mkSubQuiz (sq_id sq) (title sq) (map drop_open_text_choices (questions sq)).

(** Number of rows each level of a tree sends to the store. *)
Definition choice_rows (q : Question) : nat :=
  if negb (String.eqb (q_type q) OPEN_TEXT) then List.length (choices q) else 0.

Definition question_rows (sq : SubQuiz) : nat := List.length (questions sq).

Definition all_questions (sqs : list SubQuiz) : list Question :=
  flat_map questions sqs.

Definition total_choice_rows (sqs : list SubQuiz) : nat :=
  list_sum (map choice_rows (all_questions sqs)).

(** Statements sent by the loops of [save_quiz], and by the whole [try]
    block: the quiz row, the loops, the commit. *)
Definition questions_statements (qs : list Question) : nat :=
  list_sum (map (fun q => S (choice_rows q)) qs).

Definition sub_quizzes_statements (sqs : list SubQuiz) : nat :=
  list_sum (map (fun sq => S (questions_statements (questions sq))) sqs).

Definition save_statements (sqs : list SubQuiz) : nat :=
  S (sub_quizzes_statements sqs) + 1.

(** Modelled from the spec: the declaration of the table of quizzes,
    [Quizzes(QuizID, CreatorUserID, Title, Access_Code unique)]; the schema
    is not among the sources.  A store with this unique index rejects the
    INSERT of a quiz row under a code that a stored row carries.  A save
    sends that INSERT as its first statement, so for a save started in [s]
    under [code] the index is the following condition on the fault pattern.
    It holds of every store when no stored row carries the code. *)
Definition unique_Access_Code (fails : nat -> bool) (s : session) (code : string) : Prop :=
  In code (map Access_Code (Quizzes (visible s))) -> fails (executed s) = true.

(** Every foreign key of the committed rows names an id that its parent
    table has already handed out. *)
Definition keys_issued (s : session) : Prop :=
  Forall (fun r => sq_QuizID r < next_QuizID s) (SubQuizzes (visible s)) /\
  Forall (fun r => q_SubQuizID r < next_SubQuizID s) (Questions (visible s)) /\
  Forall (fun r => c_QuestionID r < next_QuestionID s) (Choices (visible s)).




(** [accounted fails n m]: the computation [m] sends exactly [n] statements
    when it returns, it returns exactly when none of them is made to fail,
    the only exception it raises is the store error of a failing statement,
    and it never touches the committed rows. *)
Definition accounted (fails : nat -> bool) (A : Type) (n : nat) (m : DB A) : Prop :=
  forall s,
    visible (snd (m s)) = visible s /\
    match fst (m s) with
    | Ok _ =>
        executed (snd (m s)) = executed s + n /\
        forall k, executed s <= k < executed s + n -> fails k = false
    | Raise e =>
        e = DbError /\
        exists k, executed s <= k < executed s + n /\ fails k = true
    end.

(** [transactional fails n m]: as [accounted], except that a successful run
    may publish rows; a failing one leaves the committed rows alone. *)
Definition transactional (fails : nat -> bool) (A : Type) (n : nat) (m : DB A) : Prop :=
  forall s,
    match m s with
    | (Ok _, s') =>
        executed s' = executed s + n /\
        forall k, executed s <= k < executed s + n -> fails k = false
    | (Raise e, s') =>
        e = DbError /\ visible s' = visible s /\
        exists k, executed s <= k < executed s + n /\ fails k = true
    end.

(** [grows s s' srows qrows crows]: inside the transaction, [s'] is [s] with
    the given rows appended to [SubQuizzes], [Questions] and [Choices], and
    the counters of the first two tables advanced accordingly. *)
Definition grows (s s' : session) (srows : list SubQuizRow)
    (qrows : list QuestionRow) (crows : list ChoiceRow) : Prop :=
  Quizzes (working s') = Quizzes (working s) /\
  SubQuizzes (working s') = SubQuizzes (working s) ++ srows /\
  Questions (working s') = Questions (working s) ++ qrows /\
  Choices (working s') = Choices (working s) ++ crows /\
  QuizTakers (working s') = QuizTakers (working s) /\
  Answers (working s') = Answers (working s) /\
  next_QuizID s' = next_QuizID s /\
  next_SubQuizID s' = next_SubQuizID s + List.length srows /\
  next_QuestionID s' = next_QuestionID s + List.length qrows.


(** The [Answers] row sent for one entry of [answers_to_insert]. *)
Definition answer_row (taker_id : nat) (a : pending_answer) : AnswerRow :=
  mkAnswerRow taker_id (pa_question_id a) (pa_submitted a) (pa_is_correct a)
              (pa_score a).

(** [submit_results] sends the taker row, one statement per answer to
    insert, and the commit. *)
Definition submit_statements (n_answers : nat) : nat := S n_answers + 1.

(** The order [sorted] sorts by. *)
Definition le_str (a b : string) : Prop := String.leb a b = true.

(** ** Taking a quiz ([taker_mode]) *)

Definition ascii_lowercase : string := "abcdefghijklmnopqrstuvwxyz".

(** [string.ascii_lowercase[idx]]: indexing past the last letter raises. *)
Definition ui_letter (idx : nat) : result string :=
  match nth_error (list_ascii_of_string ascii_lowercase) idx with
  | Some c => Ok (String c EmptyString)
  | None => Raise IndexError
  end.

(** The loop that gives the choices of a question their [ui_id], from
    position [idx] on.  The label is kept beside the choice instead of inside
    it. *)
Fixpoint assign_ui_ids (idx : nat) (cs : list Choice) : result (list (string * Choice)) :=
  match cs with
  | [] => Ok []
  | choice :: rest =>
      match ui_letter idx with
      | Raise e => Raise e
      | Ok ui_id =>
          match assign_ui_ids (S idx) rest with
          | Raise e => Raise e
          | Ok l => Ok ((ui_id, choice) :: l)
          end
      end
  end.

(** The labelled choices of a question as the session holds them; OPEN_TEXT
    questions are left alone. *)
Definition ui_choices (q : Question) : result (list (string * Choice)) :=
  if negb (String.eqb (q_type q) OPEN_TEXT) then assign_ui_ids 0 (choices q)
  else Ok (map (fun c => (EmptyString, c)) (choices q)).

(** The labels a respondent sees, in order. *)
Definition labels : list string :=
  ["a"; "b"; "c"; "d"; "e"; "f"; "g"; "h"; "i"; "j"; "k"; "l"; "m";
   "n"; "o"; "p"; "q"; "r"; "s"; "t"; "u"; "v"; "w"; "x"; "y"; "z"]%string.

(** "Prepare choices for UI consumption": the labelling of every question of
    every sub-quiz; it raises as soon as one labelling does. *)
Fixpoint prepare_questions (qs : list Question) : result unit :=
  match qs with
  | [] => Ok tt
  | q :: rest =>
      match ui_choices q with
      | Raise e => Raise e
      | Ok _ => prepare_questions rest
      end
  end.

Fixpoint prepare_sub_quizzes (sqs : list SubQuiz) : result unit :=
  match sqs with
  | [] => Ok tt
  | sq :: rest =>
      match prepare_questions (questions sq) with
      | Raise e => Raise e
      | Ok _ => prepare_sub_quizzes rest
      end
  end.

Inductive step_name : Type := NAME_INPUT | QUIZ_ACTIVE.

(** [st.session_state['quiz_to_take']]: the part read by [submit_results],
    the loaded header, the step and the cursor. *)
Record taking : Type := mkTaking {
  quiz : quiz_state;
  data : quiz_data;
  current_step : step_name;
  current_subquiz_index : nat;
  current_question_index : nat
}.

(** What pressing "Find Quiz" leads to: a warning for an empty code, an
    error for an unknown one, or the session of the quiz found. *)
Inductive find_outcome : Type :=
| EnterCode
| NoQuizFound
| QuizFound (t : taking).

Definition find_quiz (T : tables) (access_code : string) : result find_outcome :=
  if String.eqb access_code EmptyString then Ok EnterCode
  else
    match get_quiz_by_code T access_code with
    | None => Ok NoQuizFound
    | Some (quiz_data, quiz_doc_id) =>
        let sub_quizzes_data := sub_quizzes_json quiz_data in
        match prepare_sub_quizzes sub_quizzes_data with
        | Raise e => Raise e
        | Ok _ =>
            Ok (QuizFound
                  (mkTaking (mkQuizState quiz_doc_id sub_quizzes_data EmptyString [])
                            quiz_data NAME_INPUT 0 0))
        end
    end.

Definition set_taker_name (name : string) (st : quiz_state) : quiz_state :=
  mkQuizState (qs_id st) (sub_quizzes st) name (answers st).

Definition set_answers (a : list (string * value)) (st : quiz_state) : quiz_state :=
  mkQuizState (qs_id st) (sub_quizzes st) (taker_name st) a.

(** The NAME_INPUT step: the name typed is stored at every run; the session
    becomes active once a name is there and "Start Quiz" is pressed. *)
Definition name_input (name : string) (start_pressed : bool) (t : taking) : taking :=
  let st := set_taker_name name (quiz t) in
  if negb (String.eqb name EmptyString) && start_pressed
  then mkTaking st (data t) QUIZ_ACTIVE 0 0
  else mkTaking st (data t) (current_step t) (current_subquiz_index t)
                (current_question_index t).

(** What the widgets of the current question return: the key selected by
    the radio ([None] when it has no option), the state of the check box of
    each label, the text typed. *)
Record widgets : Type := mkWidgets {
  radio : option string;
  checkbox : string -> bool;
  text_area : string
}.

(** [next((c for c in choices if c['ui_id'] == key), None)] *)
Fixpoint find_ui (key : string) (l : list (string * Choice)) : option Choice :=
  match l with
  | [] => None
  | (ui_id, c) :: rest => if String.eqb ui_id key then Some c else find_ui key rest
  end.

(** [answer_db_id] for the current question. *)
Definition capture_answer (q : Question) (labelled : list (string * Choice))
    (w : widgets) : value :=
  if String.eqb (q_type q) SINGLE_CHOICE then
    match radio w with
    | Some selected_ui_key =>
        if String.eqb selected_ui_key EmptyString then VNone
        else match find_ui selected_ui_key labelled with
             | Some selected_choice => VStr (c_id selected_choice)
             | None => VNone
             end
    | None => VNone
    end
  else if String.eqb (q_type q) MULTI_SELECT then
    VList (map (fun p => c_id (snd p)) (filter (fun p => checkbox w (fst p)) labelled))
  else if String.eqb (q_type q) OPEN_TEXT then VStr (text_area w)
  else VNone.

(** [answers[question_key] = answer_db_id]: a key already present keeps its
    place, a new one goes last. *)
Fixpoint dict_set (d : list (string * value)) (k : string) (v : value)
  : list (string * value) :=
  match d with
  | [] => [(k, v)]
  | (k', v') :: rest =>
      if String.eqb k' k then (k', v) :: rest else (k', v') :: dict_set rest k v
  end.

(** One run of the QUIZ_ACTIVE step: hand over to [submit_results], move to
    the next sub-quiz, or show a question, store its answer under its key and,
    when "Next Question" is pressed, move to the next question. *)
Inductive active_outcome : Type :=
| SubmitNow
| Advanced (t : taking)
| Shown (question_key : string) (current_question : Question) (t : taking).

Definition active_step (w : widgets) (next_pressed : bool) (t : taking)
  : result active_outcome :=
  let st := quiz t in
  let sq_idx := current_subquiz_index t in
  let q_idx := current_question_index t in
  match nth_error (sub_quizzes st) sq_idx with
  | None => Ok SubmitNow
  | Some current_subquiz =>
      match nth_error (questions current_subquiz) q_idx with
      | None => Ok (Advanced (mkTaking st (data t) (current_step t) (S sq_idx) 0))
      | Some current_question =>
          match ui_choices current_question with
          | Raise e => Raise e
          | Ok labelled =>
              let question_key := session_key current_subquiz current_question in
              let answer_db_id := capture_answer current_question labelled w in
              let st' :=
                set_answers (dict_set (answers st) question_key answer_db_id) st in
              Ok (Shown question_key current_question
                    (mkTaking st' (data t) (current_step t) sq_idx
                              (if next_pressed then S q_idx else q_idx)))
          end
      end
  end.

(** One entry of the history of a session: the question shown, under which
    key, what the widgets held and whether "Next Question" was pressed. *)
Record shown_event : Type := mkShown {
  ev_key : string;
  ev_question : Question;
  ev_widgets : widgets;
  ev_next : bool
}.

(** The script run once per element of [inputs], each run with the state
    left by the previous one, until the step hands over to [submit_results]
    ([true]) or the inputs are used up ([false]). *)
Fixpoint run_active (inputs : list (widgets * bool)) (t : taking)
  : result (list shown_event * taking * bool) :=
  match inputs with
  | [] => Ok ([], t, false)
  | (w, next_pressed) :: rest =>
      match active_step w next_pressed t with
      | Raise e => Raise e
      | Ok SubmitNow => Ok ([], t, true)
      | Ok (Advanced t') => run_active rest t'
      | Ok (Shown key q t') =>
          match run_active rest t' with
          | Raise e => Raise e
          | Ok (trace, t'', finished) => Ok (mkShown key q w next_pressed :: trace, t'', finished)
          end
      end
  end.

(** The questions still to be answered from a cursor on, in storage order. *)
Definition remaining (sqs : list SubQuiz) (sq_idx q_idx : nat) : list Question :=
  match nth_error sqs sq_idx with
  | None => []
  | Some sq => skipn q_idx (questions sq) ++ all_questions (skipn (S sq_idx) sqs)
  end.

(** The keys of the questions still to be answered from a cursor on. *)
Definition remaining_keys (sqs : list SubQuiz) (sq_idx q_idx : nat) : list string :=
  match nth_error sqs sq_idx with
  | None => []
  | Some sq =>
      map (session_key sq) (skipn q_idx (questions sq)) ++
      map fst (question_lookup (skipn (S sq_idx) sqs))
  end.

(** What a run that showed a question stored for it: the answer captured
    from the widgets, under the key of the question. *)
Definition stored_answer (ev : shown_event) : string * value :=
  (ev_key ev,
   match ui_choices (ev_question ev) with
   | Ok labelled => capture_answer (ev_question ev) labelled (ev_widgets ev)
   | Raise _ => VNone
   end).

(** ** Building a quiz ([create_quiz_mode]) *)

(** [generate_question_data(i)] and [generate_subquiz_data(i)] *)
Definition generate_question_data (i : nat) : Question :=
  mkQuestion (str i)
    ("Question " ++ str i ++
     " text (e.g., What is the primary polymer used in injection molding?)")
    SINGLE_CHOICE 1
    [mkChoice "a" "Choice A" true; mkChoice "b" "Choice B" false;
     mkChoice "c" "Choice C" false].

Definition generate_subquiz_data (i : nat) : SubQuiz :=
  mkSubQuiz (str i) ("Sub-Quiz Module " ++ str i) [generate_question_data 1].

(** The options of the type select box, and the one the user has picked. *)
Definition type_options : list string := [SINGLE_CHOICE; MULTI_SELECT; OPEN_TEXT].

Inductive type_option : Type := PickSingle | PickMulti | PickOpen.

Definition type_name (o : type_option) : string :=
  match o with
  | PickSingle => SINGLE_CHOICE
  | PickMulti => MULTI_SELECT
  | PickOpen => OPEN_TEXT
  end.

(** What the widgets of the editor return during one run of the script:
    texts, numbers and options by position, and which buttons are pressed.
    [w_draw] is the draw of the random generator used for the id of a new
    choice.  The values are whatever the user has entered: no relation to the
    values of the run before is assumed, and several buttons may be pressed in
    one run (the first one the script reaches takes effect). *)
Record editor_inputs : Type := mkEditorInputs {
  w_title : string;
  w_add_sub_quiz : bool;
  w_sq_title : nat -> string;
  w_add_q : nat -> bool;
  w_q_text : nat -> nat -> string;
  w_q_points : nat -> nat -> Z;
  w_q_type : nat -> nat -> type_option;
  w_add_c : nat -> nat -> bool;
  w_draw : nat;
  w_c_corr : nat -> nat -> nat -> bool;
  w_c_text : nat -> nat -> nat -> string;
  w_del_c : nat -> nat -> nat -> bool;
  w_save : bool
}.

(** [s.upper()] for a string of ASCII letters. *)
Definition upper_ascii (c : ascii) : ascii :=
  let n := nat_of_ascii c in
  if (97 <=? n) && (n <=? 122) then ascii_of_nat (n - 32) else c.

Fixpoint upper (s : string) : string :=
  match s with
  | EmptyString => EmptyString
  | String c t => String (upper_ascii c) (upper t)
  end.

(** The choice appended by "Add Choice": a random lower-case letter as id. *)
Definition new_choice (r : nat) : Choice :=
  let new_choice_id := String (random_choice ascii_lowercase r) EmptyString in
  mkChoice new_choice_id ("Choice " ++ upper new_choice_id) false.

(** The two choices put in place of a list that has fewer than two. *)
Definition two_default_choices : list Choice :=
  [mkChoice "a" "Choice A" false; mkChoice "b" "Choice B" false].

(** How a part of the script hands over: it runs on, stops the run with
    [st.rerun()], or raises. *)
Inductive flow : Type := Continue | Rerun | Raised (e : exn).

(** The loops of the script.  Each returns the data as the run leaves it
    together with the flow: what was written before a stop stays written. *)
Fixpoint edit_choices (w : editor_inputs) (sq_idx q_idx c_idx : nat)
    (cs : list Choice) : list Choice * bool :=
  match cs with
  | [] => ([], false)
  | choice :: rest =>
      let choice' := mkChoice (c_id choice) (w_c_text w sq_idx q_idx c_idx)
                              (w_c_corr w sq_idx q_idx c_idx) in
      if w_del_c w sq_idx q_idx c_idx then (rest, true)
      else
        let (rest', deleted) := edit_choices w sq_idx q_idx (S c_idx) rest in
        (choice' :: rest', deleted)
  end.

(** One question.  The text and the points are written first; the index of
    the present type among the options is computed before the select box is
    shown, and [tuple.index] raises ValueError for a type that is none of
    them. *)
Definition edit_question (w : editor_inputs) (sq_idx q_idx : nat)
    (question : Question) : Question * flow :=
  let text := w_q_text w sq_idx q_idx in
  let pts := w_q_points w sq_idx q_idx in
  if negb (existsb (String.eqb (q_type question)) type_options) then
    (mkQuestion (q_id question) text (q_type question) pts (choices question),
     Raised ValueError)
  else
    let type := type_name (w_q_type w sq_idx q_idx) in
    let with_choices := mkQuestion (q_id question) text type pts in
    if negb (String.eqb type OPEN_TEXT) then
      if List.length (choices question) <? 2 then
        (with_choices two_default_choices, Rerun)
      else if w_add_c w sq_idx q_idx then
        (with_choices (choices question ++ [new_choice (w_draw w)]), Rerun)
      else
        let (cs, deleted) := edit_choices w sq_idx q_idx 0 (choices question) in
        (with_choices cs, if deleted then Rerun else Continue)
    else (with_choices (choices question), Continue).

Fixpoint edit_questions (w : editor_inputs) (sq_idx q_idx : nat)
    (qs : list Question) : list Question * flow :=
  match qs with
  | [] => ([], Continue)
  | question :: rest =>
      match edit_question w sq_idx q_idx question with
      | (question', Continue) =>
          let (rest', f) := edit_questions w sq_idx (S q_idx) rest in
          (question' :: rest', f)
      | (question', f) => (question' :: rest, f)
      end
  end.

Definition edit_sub_quiz (w : editor_inputs) (sq_idx : nat) (sub_quiz : SubQuiz)
  : SubQuiz * flow :=
  let new_title := w_sq_title w sq_idx in
  if w_add_q w sq_idx then
    let new_q_id := List.length (questions sub_quiz) + 1 in
    (mkSubQuiz (sq_id sub_quiz) new_title
               (questions sub_quiz ++ [generate_question_data new_q_id]), Rerun)
  else
    let (qs, f) := edit_questions w sq_idx 0 (questions sub_quiz) in
    (mkSubQuiz (sq_id sub_quiz) new_title qs, f).

Fixpoint edit_sub_quizzes (w : editor_inputs) (sq_idx : nat) (sqs : list SubQuiz)
  : list SubQuiz * flow :=
  match sqs with
  | [] => ([], Continue)
  | sub_quiz :: rest =>
      match edit_sub_quiz w sq_idx sub_quiz with
      | (sub_quiz', Continue) =>
          let (rest', f) := edit_sub_quizzes w (S sq_idx) rest in
          (sub_quiz' :: rest', f)
      | (sub_quiz', f) => (sub_quiz' :: rest, f)
      end
  end.

(** The part of the session state the editor works on. *)
Record editor_state : Type := mkEditorState {
  new_quiz_title : string;
  ed_sub_quizzes : list SubQuiz
}.

(** How a run of the script ends: with a rerun, with an exception, with the
    page rendered, or with the call of [save_quiz] on the state reached. *)
Inductive editor_outcome : Type :=
| EditorRerun (st : editor_state)
| EditorRaised (e : exn) (st : editor_state)
| EditorRendered (st : editor_state)
| EditorSave (st : editor_state).

Definition create_quiz_mode (w : editor_inputs) (st : editor_state) : editor_outcome :=
  let sqs := ed_sub_quizzes st in
  if w_add_sub_quiz w then
    let new_id := List.length sqs + 1 in
    EditorRerun (mkEditorState (w_title w) (sqs ++ [generate_subquiz_data new_id]))
  else
    match edit_sub_quizzes w 0 sqs with
    | (sqs', Rerun) => EditorRerun (mkEditorState (w_title w) sqs')
    | (sqs', Raised e) => EditorRaised e (mkEditorState (w_title w) sqs')
    | (sqs', Continue) =>
        if w_save w then EditorSave (mkEditorState (w_title w) sqs')
        else EditorRendered (mkEditorState (w_title w) sqs')
    end.

(** The state after "Create New Quiz" in [creator_mode]. *)
Definition new_quiz : editor_state :=
  mkEditorState "New Injection Molding Quiz" [generate_subquiz_data 1].

Definition outcome_state (o : editor_outcome) : editor_state :=
  match o with
  | EditorRerun st | EditorRaised _ st | EditorRendered st | EditorSave st => st
  end.

(** The session state after a sequence of runs of the editor, one per entry
    of [ws]: every run starts from the state the run before has left
    ([save_quiz] does not write to it). *)
Definition editor_after (ws : list editor_inputs) (st : editor_state) : editor_state :=
  fold_left (fun st w => outcome_state (create_quiz_mode w st)) ws st.

(** The ids of the editor are positions: the [i]-th sub-quiz has id [i] and
    its [j]-th question id [j], counting from 1; no sub-quiz is empty. *)
Definition question_ids_positional (qs : list Question) : Prop :=
  map q_id qs = map str (seq 1 (List.length qs)).

Definition sub_quiz_ok (sq : SubQuiz) : Prop :=
  questions sq <> [] /\ question_ids_positional (questions sq).

Definition editor_tree_ok (sqs : list SubQuiz) : Prop :=
  map sq_id sqs = map str (seq 1 (List.length sqs)) /\ Forall sub_quiz_ok sqs.

Definition typed (q : Question) : Prop := In (q_type q) type_options.

Definition editor_ok (st : editor_state) : Prop :=
  editor_tree_ok (ed_sub_quizzes st) /\
  Forall typed (all_questions (ed_sub_quizzes st)).

(** What every question has when the editor calls [save_quiz]: one of the
    three types and, unless it is OPEN_TEXT, at least two choices. *)
Definition ready_to_save (q : Question) : Prop :=
  typed q /\ (q_type q <> OPEN_TEXT -> 2 <= List.length (choices q)).

(** ** Further operations on the store *)

(** [get_quiz_list(user_id)]: id and title of the quizzes of a creator, in
    storage order; the empty list when there is no connection. *)
Definition get_quiz_list (connected : bool) (T : tables) (creator : string)
  : list (nat * string) :=
  if negb connected then []
  else map (fun q => (QuizID q, Title q))
           (filter (fun r => String.eqb (CreatorUserID r) creator) (Quizzes T)).

(** Every primary key of the committed quiz, sub-quiz and question rows is
    an id its table has already handed out. *)
Definition ids_issued (s : session) : Prop :=
  Forall (fun r => QuizID r < next_QuizID s) (Quizzes (visible s)) /\
  Forall (fun r => SubQuizID r < next_SubQuizID s) (SubQuizzes (visible s)) /\
  Forall (fun r => QuestionID r < next_QuestionID s) (Questions (visible s)).

(** The AUTO_INCREMENT counters of [s'] are at least those of [s]. *)
Definition counters_le (s s' : session) : Prop :=
  next_QuizID s <= next_QuizID s' /\
  next_SubQuizID s <= next_SubQuizID s' /\
  next_QuestionID s <= next_QuestionID s'.

(** A computation that never lowers a counter, whatever its outcome. *)
Definition monotone (A : Type) (m : DB A) : Prop :=
  forall s, counters_le s (snd (m s)).

(** A store whose keys are consistent with its counters. *)
Definition well_formed (s : session) : Prop := keys_issued s /\ ids_issued s.

(** The same for the remaining keys, on the rows [T] of a session: the ids
    of choices and takers, and the taker an answer belongs to.  The two
    references that [submit_results] copies from the session state, the quiz
    of a taker and the question of an answer, are not among them. *)
Definition rest_issued_in (T : tables) (s : session) : Prop :=
  Forall (fun r => ChoiceID r < next_ChoiceID s) (Choices T) /\
  Forall (fun r => TakerID r < next_TakerID s) (QuizTakers T) /\
  Forall (fun r => a_TakerID r < next_TakerID s) (Answers T).

Definition store_consistent (s : session) : Prop :=
  well_formed s /\ rest_issued_in (visible s) s.

(** Inside a transaction the condition is followed on the committed rows and
    on the working rows; [taker_known] adds that the taker id in use has
    been handed out. *)
Definition rest_issued (s : session) : Prop :=
  rest_issued_in (visible s) s /\ rest_issued_in (working s) s.

Definition taker_known (taker_id : nat) (s : session) : Prop :=
  rest_issued s /\ taker_id < next_TakerID s.

(** A computation that keeps a condition on the session, whatever its
    outcome. *)
Definition keeps (I : session -> Prop) (A : Type) (m : DB A) : Prop :=
  forall s, I s -> I (snd (m s)).

(** No two committed sub-quiz rows share their id, and no two question
    rows do. *)
Definition keys_unique (s : session) : Prop :=
  NoDup (map SubQuizID (SubQuizzes (visible s))) /\
  NoDup (map QuestionID (Questions (visible s))).

(** The entry of [answers_to_insert] that [submit_results] makes from what a
    run stored for the question it showed. *)
Definition pending_of (ev : shown_event) : pending_answer :=
  match score_submitted (ev_question ev) (snd (stored_answer ev)),
        int (q_id (ev_question ev)) with
  | Ok (score, correct, submitted_str), Ok question_id =>
      mkPendingAnswer question_id submitted_str (if (correct : bool) then 1 else 0) score
  | _, _ => mkPendingAnswer 0 EmptyString 0 0
  end.

(** ** Sample data *)

Definition q_multi : Question :=
  mkQuestion "7" "Pick two" MULTI_SELECT 2
             [mkChoice "x" "X" true; mkChoice "w" "W" false; mkChoice "y" "Y" true].

Definition q_single : Question :=
  mkQuestion "3" "Pick one" SINGLE_CHOICE 1
             [mkChoice "a" "A" false; mkChoice "b" "B" true; mkChoice "c" "C" true].

(** The default question of the editor with its first choice unchecked: no
    choice is marked correct. *)
Definition q_unmarked : Question :=
  mkQuestion "1" "Question 1 text" SINGLE_CHOICE 1
             [mkChoice "a" "Choice A" false; mkChoice "b" "Choice B" false;
              mkChoice "c" "Choice C" false].

Definition q_open : Question :=
  mkQuestion "9" "Explain" OPEN_TEXT 5 [mkChoice "a" "Choice A" true].

(** A fresh store and a connection on which no statement fails. *)
Definition empty_tables : tables := mkTables [] [] [] [] [] [].

Definition empty_session : session :=
  mkSession empty_tables empty_tables 1 1 1 1 1 0 0.

Definition no_faults : nat -> bool := fun _ => false.

(** A module with one question of each type, and the module the editor
    offers by default once its first choice has been unchecked. *)
Definition sample_tree : list SubQuiz :=
  [mkSubQuiz "1" "Basics" [q_single; q_open];
   mkSubQuiz "2" "Advanced" [q_multi]].

Definition unmarked_tree : list SubQuiz :=
  [mkSubQuiz "1" "Sub-Quiz Module 1" [q_unmarked]].

(** A session on a quiz of one module with a single-choice question worth
    1 point (correct choice 12) and a multi-select question worth 2 points
    (correct choices 21 and 22), answered with 12 and with 22, 21. *)
Definition sample_state : quiz_state :=
  mkQuizState "4"
    [mkSubQuiz "7" "Module"
       [mkQuestion "31" "One" SINGLE_CHOICE 1
          [mkChoice "11" "a" false; mkChoice "12" "b" true];
        mkQuestion "32" "Two" MULTI_SELECT 2
          [mkChoice "21" "x" true; mkChoice "22" "y" true; mkChoice "23" "z" false]]]
    "Ada"
    [("7_31"%string, VStr "12"); ("7_32"%string, VList ["22"; "21"]%string)].

(** The store after the sample tree has been saved on a fresh one, under
    the code ABCDEF. *)
Definition sample_saved : session :=
  snd (save_quiz no_faults true (fun i => i) "Quiz" sample_tree empty_session).

(** A session on the quiz of [sample_state] at its first question with no
    answer yet, and a respondent who looks at each question once before
    pressing "Next Question": the second choice in the radio, the first two
    boxes ticked. *)
Definition sample_taking : taking :=
  mkTaking (set_answers [] sample_state)
           (mkQuizData "Quiz" user_id "ABCDEF" (sub_quizzes sample_state))
           QUIZ_ACTIVE 0 0.

Definition sample_widgets : widgets :=
  mkWidgets (Some "b"%string)
            (fun u => String.eqb u "a" || String.eqb u "b") "".

Definition sample_inputs : list (widgets * bool) :=
  [(sample_widgets, false); (sample_widgets, true);
   (sample_widgets, false); (sample_widgets, true);
   (sample_widgets, false); (sample_widgets, false)].

(** A respondent who finds the saved sample quiz, gives a name, and walks
    through it: second radio option, some text, first and third boxes. *)
Definition sample_found : taking :=
  match find_quiz (visible sample_saved) "ABCDEF" with
  | Ok (QuizFound t) => t
  | _ => sample_taking
  end.

Definition walk_widgets : widgets :=
  mkWidgets (Some "b"%string)
            (fun u => String.eqb u "a" || String.eqb u "c") "because".

Definition walk_inputs : list (widgets * bool) :=
  [(walk_widgets, false); (walk_widgets, true); (walk_widgets, true);
   (walk_widgets, false); (walk_widgets, false); (walk_widgets, true);
   (walk_widgets, false); (walk_widgets, false)].

Definition sample_walk : list shown_event * taking * bool :=
  match run_active walk_inputs (name_input "Ada" true sample_found) with
  | Ok r => r
  | Raise _ => ([], sample_found, false)
  end.

(** Inputs of the editor: nothing pressed but the save button; the delete
    button of the first choice pressed. *)
Definition press_save : editor_inputs :=
  mkEditorInputs "Moulding basics" false (fun _ => "Module"%string) (fun _ => false)
    (fun _ _ => "Which polymer?"%string) (fun _ _ => 1%Z) (fun _ _ => PickSingle)
    (fun _ _ => false) 0 (fun _ _ _ => false) (fun _ _ _ => "PP"%string)
    (fun _ _ _ => false) true.

Definition delete_first : editor_inputs :=
  mkEditorInputs "Moulding basics" false (fun _ => "Module"%string) (fun _ => false)
    (fun _ _ => "Which polymer?"%string) (fun _ _ => 1%Z) (fun _ _ => PickSingle)
    (fun _ _ => false) 0 (fun _ _ _ => true) (fun _ _ _ => "PP"%string)
    (fun _ _ c_idx => c_idx =? 0) false.

Definition q_two_choices : Question :=
  mkQuestion "1" "Which polymer?" SINGLE_CHOICE 1
    [mkChoice "a" "PP" true; mkChoice "b" "PVC" false].

(** * Properties *)

Unset Implicit Arguments.

(** ** Python primitives *)

Lemma list_eqb_eq (a b : list string) : list_eqb a b = true <-> a = b.
Proof.
  revert b; induction a as [|x a IH]; intros [|y b]; simpl; split;
    try congruence; try reflexivity.
  - intros H. apply andb_true_iff in H as [Hx Hab].
    apply String.eqb_eq in Hx. apply IH in Hab. congruence.
  - intros H. injection H as -> ->. rewrite String.eqb_refl. now apply IH.
Qed.

Lemma leb_iff (a b : string) :
  String.leb a b = true <-> a = b \/ String_as_OT.lt a b.
Proof.
  unfold String.leb.
  destruct (String.compare a b) eqn:E; split; intros H; try reflexivity.
  - left. now apply String_as_OT.cmp_eq.
  - right. now apply String_as_OT.cmp_lt.
  - discriminate.
  - exfalso. destruct H as [H | H].
    + apply String_as_OT.cmp_eq in H. unfold String_as_OT.cmp in H. congruence.
    + apply String_as_OT.cmp_lt in H. unfold String_as_OT.cmp in H. congruence.
Qed.

Lemma leb_trans (a b c : string) :
  String.leb a b = true -> String.leb b c = true -> String.leb a c = true.
Proof.
  rewrite !leb_iff. intros [-> | Hab] [-> | Hbc]; auto.
  right. eapply String_as_OT.lt_trans; eauto.
Qed.

Lemma leb_false_flip (a b : string) :
  String.leb a b = false -> String.leb b a = true.
Proof.
  intros H. destruct (String.leb_total a b) as [H' | H']; congruence.
Qed.

Lemma insert_perm (x : string) (l : list string) : Permutation (insert x l) (x :: l).
Proof.
  induction l as [|y l IH]; simpl; [reflexivity|].
  destruct (String.leb x y); [reflexivity|].
  rewrite IH. apply perm_swap.
Qed.

Lemma sorted_perm (l : list string) : Permutation (sorted l) l.
Proof.
  induction l as [|x l IH]; simpl; [reflexivity|].
  rewrite insert_perm. now constructor.
Qed.

Lemma insert_sorted (x : string) (l : list string) :
  StronglySorted le_str l -> StronglySorted le_str (insert x l).
Proof.
  induction l as [|y l IH]; simpl; intros Hs.
  - repeat constructor.
  - inversion Hs as [|? ? Hl Hy]; subst.
    destruct (String.leb x y) eqn:E.
    + constructor; [assumption|]. constructor; [exact E|].
      eapply Forall_impl; [|exact Hy]. intros z Hz. eapply leb_trans; eauto.
    + constructor; [now apply IH|].
      eapply Permutation_Forall; [symmetry; apply insert_perm|].
      constructor; [now apply leb_false_flip | assumption].
Qed.

Lemma sorted_sorted (l : list string) : StronglySorted le_str (sorted l).
Proof.
  induction l as [|x l IH]; simpl; [constructor | now apply insert_sorted].
Qed.

(** Two ordered lists with the same items are the same list. *)
Lemma sorted_unique (l m : list string) :
  StronglySorted le_str l -> StronglySorted le_str m -> Permutation l m -> l = m.
Proof.
  revert m; induction l as [|x l IH]; intros m Hl Hm Hp.
  - apply Permutation_nil in Hp. now subst.
  - destruct m as [|y m]; [symmetry in Hp; now apply Permutation_nil in Hp|].
    inversion Hl as [|? ? Hl' Hx]; inversion Hm as [|? ? Hm' Hy]; subst.
    assert (x = y) as ->.
    { assert (Hin1 : In x (y :: m)) by (eapply Permutation_in; [exact Hp | now left]).
      assert (Hin2 : In y (x :: l))
        by (eapply Permutation_in; [symmetry; exact Hp | now left]).
      destruct Hin1 as [-> | Hin1]; [reflexivity|].
      destruct Hin2 as [-> | Hin2]; [reflexivity|].
      rewrite Forall_forall in Hx, Hy.
      apply String.leb_antisym; [now apply Hx | now apply Hy]. }
    f_equal. apply IH; auto. eapply Permutation_cons_inv; eauto.
Qed.

Lemma sorted_eq_iff (l m : list string) : sorted l = sorted m <-> Permutation l m.
Proof.
  split; intros H.
  - rewrite <- (sorted_perm l), <- (sorted_perm m), H. reflexivity.
  - apply sorted_unique; try apply sorted_sorted.
    rewrite !sorted_perm. exact H.
Qed.


(** ** Scoring engine *)

Lemma score_single_choice (q : Question) (v : value) :
  q_type q = SINGLE_CHOICE ->
  score_answer q v =
    if value_eqb v (first_correct (choices q))
    then Ok (points q, true) else Ok (0%Z, false).
Proof. intros Hty. unfold score_answer. rewrite Hty. reflexivity. Qed.

Lemma score_multi_select (q : Question) (l : list string) :
  q_type q = MULTI_SELECT ->
  score_answer q (VList l) =
    if list_eqb (sorted (correct_choice_ids q)) (sorted l)
    then Ok (points q, true) else Ok (0%Z, false).
Proof. intros Hty. unfold score_answer. rewrite Hty. reflexivity. Qed.

Lemma score_open_text (q : Question) (v : value) :
  q_type q = OPEN_TEXT -> score_answer q v = Ok (0%Z, false).
Proof. intros Hty. unfold score_answer. rewrite Hty. reflexivity. Qed.

Lemma first_correct_filter (cs : list Choice) :
  first_correct cs =
    match filter is_correct cs with
    | [] => VNone
    | c :: _ => VStr (c_id c)
    end.
Proof.
  induction cs as [|c cs IH]; simpl; [reflexivity|].
  destruct (is_correct c); [reflexivity | exact IH].
Qed.


Lemma multi_select_full_iff (q : Question) (l : list string) :
  q_type q = MULTI_SELECT ->
  score_answer q (VList l) = Ok (points q, true) <->
  Permutation l (correct_choice_ids q).
Proof.
  intros Hty. rewrite (score_multi_select _ _ Hty).
  destruct (list_eqb _ _) eqn:E.
  - apply list_eqb_eq, sorted_eq_iff in E. split; [now symmetry | reflexivity].
  - split; [discriminate|]. intros Hp. symmetry in Hp.
    apply sorted_eq_iff, list_eqb_eq in Hp. congruence.
Qed.

(** C1. For a MULTI_SELECT question the score of a submitted list of choice
    ids does not depend on the order of the list; it is the full points with
    [correct = true] exactly when the submitted ids are, up to order, the ids
    of the choices marked correct, and [(0, false)] for every other list, so
    a missing, extra or wrong id earns nothing.  For duplicate-free lists
    "up to order" is having the same members. *)
Theorem multi_select_scoring (q : Question) (Hty : q_type q = MULTI_SELECT) :
  (forall l l', Permutation l l' ->
     score_answer q (VList l) = score_answer q (VList l')) /\
  (forall l, score_answer q (VList l) = Ok (points q, true) <->
             Permutation l (correct_choice_ids q)) /\
  (forall l, ~ Permutation l (correct_choice_ids q) ->
             score_answer q (VList l) = Ok (0%Z, false)) /\
  (forall l, NoDup l -> NoDup (correct_choice_ids q) ->
     (score_answer q (VList l) = Ok (points q, true) <->
      forall x, In x l <-> In x (correct_choice_ids q))).
Proof.
  split; [|split; [|split]].
  - intros l l' Hp. rewrite !(score_multi_select _ _ Hty).
    apply sorted_eq_iff in Hp. now rewrite Hp.
  - intros l. now apply multi_select_full_iff.
  - intros l Hn. rewrite (score_multi_select _ _ Hty).
    destruct (list_eqb _ _) eqn:E; [|reflexivity].
    exfalso. apply Hn. apply list_eqb_eq, sorted_eq_iff in E. now symmetry.
  - intros l Hl Hc. rewrite (multi_select_full_iff _ _ Hty). split.
    + intros Hp x. split; apply Permutation_in; [assumption | now symmetry].
    + intros Hset. now apply NoDup_Permutation.
Qed.

Lemma multi_select_scoring_witness :
  score_answer q_multi (VList ["y"; "x"]%string) = Ok (2%Z, true) /\
  score_answer q_multi (VList ["x"]%string) = Ok (0%Z, false) /\
  score_answer q_multi (VList ["x"; "y"; "w"]%string) = Ok (0%Z, false).
Proof.
  destruct (multi_select_scoring q_multi eq_refl) as (_ & Hfull & Hzero & _).
  split; [|split].
  - apply Hfull. apply perm_swap.
  - apply Hzero. intros Hp. apply Permutation_length in Hp. discriminate.
  - apply Hzero. intros Hp. apply Permutation_length in Hp. discriminate.
Defined.




(** C10. When no choice of a question is marked correct, the scoring
    function gives the full points, with [correct = true], to the empty
    submission: [None] for a SINGLE_CHOICE question, the empty list for a
    MULTI_SELECT question. *)
Theorem unmarked_question_empty_submission (q : Question)
    (Hnone : Forall (fun c => is_correct c = false) (choices q)) :
  (q_type q = SINGLE_CHOICE -> score_answer q VNone = Ok (points q, true)) /\
  (q_type q = MULTI_SELECT -> score_answer q (VList []) = Ok (points q, true)).
Proof.
  assert (Hf : filter is_correct (choices q) = []).
  { induction Hnone as [|c cs Hc _ IH]; simpl; [reflexivity|]. now rewrite Hc. }
  split; intros Hty.
  - rewrite (score_single_choice _ _ Hty), first_correct_filter, Hf. reflexivity.
  - rewrite (score_multi_select _ _ Hty). unfold correct_choice_ids.
    rewrite Hf. reflexivity.
Qed.

Lemma unmarked_question_empty_submission_witness :
  score_answer q_unmarked VNone = Ok (1%Z, true).
Proof.
  apply (unmarked_question_empty_submission q_unmarked).
  - repeat constructor.
  - reflexivity.
Defined.

(** C9. An OPEN_TEXT question scores [(0, false)] whatever is submitted, any
    text included.  And for a question of any type, the scoring step of
    [submit_results] turns an absent answer ([None]) or an empty selection
    (the empty list) into score 0 and [correct = false] without raising. *)
Theorem open_text_and_empty_submissions :
  (forall q v, q_type q = OPEN_TEXT -> score_answer q v = Ok (0%Z, false)) /\
  (forall q, score_submitted q VNone = Ok (0%Z, false, "N/A"%string) /\
             score_submitted q (VList []) = Ok (0%Z, false, "N/A"%string)).
Proof.
  split.
  - intros q v Hty. now apply score_open_text.
  - intros q. split; reflexivity.
Qed.

Lemma open_text_and_empty_submissions_witness :
  score_answer q_open (VStr "because") = Ok (0%Z, false) /\
  score_submitted q_unmarked VNone = Ok (0%Z, false, "N/A"%string).
Proof.
  destruct open_text_and_empty_submissions as [Hopen Hempty].
  split.
  - apply Hopen. reflexivity.
  - apply Hempty.
Defined.

(** ** Progress of the taking session *)

Lemma sum_list_sum (l : list nat) : sum l = list_sum l.
Proof.
  unfold sum. enough (H : forall a, fold_left Nat.add l a = a + list_sum l) by apply H.
  induction l as [|x l IH]; intros a; simpl; [lia|]. rewrite IH. lia.
Qed.

Lemma collect_questions_len (pre l : list SubQuiz) (n : nat) :
  n <= List.length l ->
  collect (questions_len_at (pre ++ l)) (seq (List.length pre) n) =
  Ok (map question_rows (firstn n l)).
Proof.
  revert pre l. induction n as [|n IH]; intros pre l Hn; [reflexivity|].
  destruct l as [|x l]; simpl in Hn; [lia|].
  cbn [seq collect]. unfold questions_len_at at 1.
  rewrite nth_error_app2, Nat.sub_diag by lia. cbn [nth_error].
  replace (pre ++ x :: l) with ((pre ++ [x]) ++ l) by now rewrite <- app_assoc.
  replace (S (List.length pre)) with (List.length (pre ++ [x]))
    by (rewrite length_app; simpl; lia).
  rewrite IH by lia. reflexivity.
Qed.

Lemma list_sum_firstn_lt (sqs : list SubQuiz) (i j : nat) (sq : SubQuiz) :
  nth_error sqs i = Some sq -> j < question_rows sq ->
  list_sum (map question_rows (firstn i sqs)) + j < list_sum (map question_rows sqs).
Proof.
  revert i. induction sqs as [|x sqs IH]; intros [|i] H; simpl in *; try discriminate.
  - injection H as ->. lia.
  - intros Hj. specialize (IH _ H Hj). lia.
Qed.

(** C8. Whenever the cursor designates a question, the active step reports
    [questions_completed] and [total_questions], where the total is the sum
    of the question counts of all sub-quizzes and the completed count is the
    sum of the question counts of the sub-quizzes before the current one plus
    the question index; the completed count stays below the total.  With two
    modules of 3 and 2 questions and the cursor on the second module at
    question index 1 the report is 4 of 5. *)
Theorem progress_report :
  (forall sub_quizzes sq_idx q_idx current_subquiz current_question,
     nth_error sub_quizzes sq_idx = Some current_subquiz ->
     nth_error (questions current_subquiz) q_idx = Some current_question ->
     let completed :=
       list_sum (map question_rows (firstn sq_idx sub_quizzes)) + q_idx in
     let total := list_sum (map question_rows sub_quizzes) in
     taker_active sub_quizzes sq_idx q_idx =
       Ok (ShowQuestion current_question completed total) /\
     completed < total) /\
  (forall m1 m2,
     question_rows m1 = 3 -> question_rows m2 = 2 ->
     exists current_question,
       taker_active [m1; m2] 1 1 = Ok (ShowQuestion current_question 4 5)).
Proof.
  assert (Hgen : forall sub_quizzes sq_idx q_idx current_subquiz current_question,
     nth_error sub_quizzes sq_idx = Some current_subquiz ->
     nth_error (questions current_subquiz) q_idx = Some current_question ->
     taker_active sub_quizzes sq_idx q_idx =
       Ok (ShowQuestion current_question
             (list_sum (map question_rows (firstn sq_idx sub_quizzes)) + q_idx)
             (list_sum (map question_rows sub_quizzes))) /\
     list_sum (map question_rows (firstn sq_idx sub_quizzes)) + q_idx
       < list_sum (map question_rows sub_quizzes)).
  { intros sqs i j sq q Hsq Hq. split.
    - unfold taker_active. rewrite Hsq, Hq.
      assert (Hi : i <= List.length sqs).
      { apply Nat.lt_le_incl. apply nth_error_Some. congruence. }
      pose proof (collect_questions_len [] sqs i Hi) as Hc. simpl in Hc.
      rewrite Hc, !sum_list_sum. reflexivity.
    - apply (list_sum_firstn_lt sqs i j sq Hsq).
      apply nth_error_Some. unfold question_rows. congruence. }
  split; [exact Hgen|].
  intros m1 m2 H1 H2.
  destruct (nth_error (questions m2) 1) as [q|] eqn:Hq.
  - exists q. destruct (Hgen [m1; m2] 1 1 m2 q eq_refl Hq) as [Hrun _].
    rewrite Hrun. simpl. rewrite H1, H2. reflexivity.
  - apply nth_error_None in Hq. unfold question_rows in H2. lia.
Qed.

Lemma progress_report_witness :
  taker_active [mkSubQuiz "1" "M1" [q_single; q_multi; q_open];
                mkSubQuiz "2" "M2" [q_unmarked; q_multi]] 1 1
  = Ok (ShowQuestion q_multi 4 5).
Proof.
  exact (proj1 (proj1 progress_report
                  [mkSubQuiz "1" "M1" [q_single; q_multi; q_open];
                   mkSubQuiz "2" "M2" [q_unmarked; q_multi]] 1 1
                  (mkSubQuiz "2" "M2" [q_unmarked; q_multi]) q_multi
                  eq_refl eq_refl)).
Defined.

(** ** The store monad *)

Section StoreFacts.

Variable fails : nat -> bool.

Lemma bind_ok (A B : Type) (m : DB A) (k : A -> DB B) (s s' : session) (b : B) :
  bind m k s = (Ok b, s') ->
  exists a s1, m s = (Ok a, s1) /\ k a s1 = (Ok b, s').
Proof.
  unfold bind. destruct (m s) as [[a|e] s1]; [eauto | discriminate].
Qed.

Lemma accounted_ret (A : Type) (a : A) : accounted fails 0 (ret a).
Proof.
  intros s. simpl. split; [reflexivity|]. split; [lia|]. intros k Hk. lia.
Qed.

Lemma accounted_bind (A B : Type) (n p : nat) (m : DB A) (k : A -> DB B) :
  accounted fails n m -> (forall a, accounted fails p (k a)) ->
  accounted fails (n + p) (bind m k).
Proof.
  intros Hm Hk s. unfold bind. specialize (Hm s).
  destruct (m s) as [[a|e] s1]; simpl in Hm; destruct Hm as [Hv Hm].
  - destruct Hm as [He Hno]. specialize (Hk a s1).
    destruct (k a s1) as [[b|e] s2]; simpl in *; destruct Hk as [Hv2 Hk].
    + destruct Hk as [He2 Hno2]. split; [congruence|]. split; [lia|].
      intros j Hj. destruct (Nat.lt_ge_cases j (executed s1)).
      * apply Hno. lia.
      * apply Hno2. lia.
    + destruct Hk as [-> (j & Hj & Hf)]. split; [congruence|]. split; [reflexivity|].
      exists j. split; [lia | exact Hf].
  - simpl. destruct Hm as [-> (j & Hj & Hf)]. split; [exact Hv|].
    split; [reflexivity|]. exists j. split; [lia | exact Hf].
Qed.

Lemma accounted_eq (A : Type) (n p : nat) (m : DB A) :
  n = p -> accounted fails n m -> accounted fails p m.
Proof. now intros ->. Qed.

Ltac one_statement :=
  let s := fresh "s" in
  intros s; unfold bind, statement; destruct (fails (executed s)) eqn:Hf; simpl;
  (split; [reflexivity|]); split;
  [ reflexivity
  | exists (executed s); split; [lia | exact Hf]
  | lia
  | let k := fresh "k" in let Hk := fresh "Hk" in
    intros k Hk; replace k with (executed s) by lia; exact Hf ].

Lemma accounted_insert_Quiz (c t a : string) :
  accounted fails 1 (insert_Quiz fails c t a).
Proof. unfold insert_Quiz. one_statement. Qed.

Lemma accounted_insert_SubQuiz (q : nat) (t : string) (o : nat) :
  accounted fails 1 (insert_SubQuiz fails q t o).
Proof. unfold insert_SubQuiz. one_statement. Qed.

Lemma accounted_insert_Question (i : nat) (t ty : string) (p : Z) (o : nat) :
  accounted fails 1 (insert_Question fails i t ty p o).
Proof. unfold insert_Question. one_statement. Qed.

Lemma accounted_insert_Choice (i : nat) (t : string) (c : nat) :
  accounted fails 1 (insert_Choice fails i t c).
Proof. unfold insert_Choice. one_statement. Qed.

Lemma accounted_insert_QuizTaker (i : nat) (n : string) (t : Z) :
  accounted fails 1 (insert_QuizTaker fails i n t).
Proof. unfold insert_QuizTaker. one_statement. Qed.

Lemma accounted_insert_Answer (i j : nat) (t : string) (c : nat) (z : Z) :
  accounted fails 1 (insert_Answer fails i j t c z).
Proof. unfold insert_Answer. one_statement. Qed.

Lemma accounted_insert_choices (question_id : nat) (cs : list Choice) :
  accounted fails (List.length cs) (insert_choices fails question_id cs).
Proof.
  induction cs as [|c cs IH]; simpl; [apply accounted_ret|].
  apply accounted_bind with (n := 1); [apply accounted_insert_Choice | intros _; exact IH].
Qed.

Lemma accounted_insert_questions (subquiz_id q_idx : nat) (qs : list Question) :
  accounted fails (questions_statements qs)
            (insert_questions fails subquiz_id q_idx qs).
Proof.
  revert q_idx. induction qs as [|q qs IH]; intros q_idx; [apply accounted_ret|].
  cbn [insert_questions]. unfold questions_statements. cbn [map list_sum].
  apply accounted_eq with (n := 1 + (choice_rows q + questions_statements qs));
    [unfold questions_statements; simpl; lia|].
  apply accounted_bind; [apply accounted_insert_Question|]. intros question_id.
  apply accounted_bind; [|intros _; apply IH].
  unfold choice_rows. destruct (negb _).
  - apply accounted_insert_choices.
  - apply accounted_ret.
Qed.

Lemma accounted_insert_sub_quizzes (quiz_id sq_idx : nat) (sqs : list SubQuiz) :
  accounted fails (sub_quizzes_statements sqs)
            (insert_sub_quizzes fails quiz_id sq_idx sqs).
Proof.
  revert sq_idx. induction sqs as [|sq sqs IH]; intros sq_idx; [apply accounted_ret|].
  cbn [insert_sub_quizzes]. unfold sub_quizzes_statements. cbn [map list_sum].
  apply accounted_eq
    with (n := 1 + (questions_statements (questions sq) + sub_quizzes_statements sqs));
    [unfold sub_quizzes_statements; simpl; lia|].
  apply accounted_bind; [apply accounted_insert_SubQuiz|]. intros subquiz_id.
  apply accounted_bind; [apply accounted_insert_questions | intros _; apply IH].
Qed.

Lemma accounted_insert_answers (taker_id : nat) (l : list pending_answer) :
  accounted fails (List.length l) (insert_answers fails taker_id l).
Proof.
  induction l as [|a l IH]; simpl; [apply accounted_ret|].
  apply accounted_bind with (n := 1); [apply accounted_insert_Answer | intros _; exact IH].
Qed.

End StoreFacts.

(** ** Selecting rows *)

Lemma filter_all (A : Type) (p : A -> bool) (l : list A) :
  (forall x, In x l -> p x = true) -> filter p l = l.
Proof.
  induction l as [|x l IH]; intros H; simpl; [reflexivity|].
  rewrite (H x) by now left. f_equal. apply IH. intros y Hy. apply H. now right.
Qed.

Lemma filter_none (A : Type) (p : A -> bool) (l : list A) :
  (forall x, In x l -> p x = false) -> filter p l = [].
Proof.
  induction l as [|x l IH]; intros H; simpl; [reflexivity|].
  rewrite (H x) by now left. apply IH. intros y Hy. apply H. now right.
Qed.

Lemma insert_by_perm (A : Type) (key : A -> nat) (x : A) (l : list A) :
  Permutation (insert_by key x l) (x :: l).
Proof.
  induction l as [|y l IH]; simpl; [reflexivity|].
  destruct (key x <=? key y); [reflexivity|]. rewrite IH. apply perm_swap.
Qed.

Lemma order_by_perm (A : Type) (key : A -> nat) (l : list A) :
  Permutation (order_by key l) l.
Proof.
  induction l as [|x l IH]; simpl; [reflexivity|].
  rewrite insert_by_perm. now constructor.
Qed.

(** Rows already stored in increasing key order come back as they are. *)
Lemma order_by_seq (A : Type) (key : A -> nat) (l : list A) (a : nat) :
  map key l = seq a (List.length l) -> order_by key l = l.
Proof.
  revert a. induction l as [|x l IH]; intros a H; [reflexivity|].
  simpl in H. injection H as Hx Hl. simpl. rewrite (IH _ Hl).
  destruct l as [|y l]; [reflexivity|].
  simpl in Hl. injection Hl as Hy _. simpl.
  replace (key x <=? key y) with true; [reflexivity|].
  symmetry. apply Nat.leb_le. lia.
Qed.

Lemma select_choices_app (C C' : list ChoiceRow) (i : nat) :
  select_choices (C ++ C') i = select_choices C i ++ select_choices C' i.
Proof. apply filter_app. Qed.

Lemma select_choices_all (C : list ChoiceRow) (i : nat) :
  Forall (fun r => c_QuestionID r = i) C -> select_choices C i = C.
Proof.
  intros H. apply filter_all. intros r Hr. rewrite Forall_forall in H.
  apply Nat.eqb_eq. now apply H.
Qed.

Lemma select_choices_none (C : list ChoiceRow) (i : nat) :
  Forall (fun r => c_QuestionID r <> i) C -> select_choices C i = [].
Proof.
  intros H. apply filter_none. intros r Hr. rewrite Forall_forall in H.
  apply Nat.eqb_neq. now apply H.
Qed.

Lemma load_question_ext (C C' : list ChoiceRow) (r : QuestionRow) :
  select_choices C (QuestionID r) = select_choices C' (QuestionID r) ->
  load_question C r = load_question C' r.
Proof. intros H. unfold load_question. now rewrite H. Qed.

Lemma select_questions_app_l (Q Q' : list QuestionRow) (i : nat) :
  Forall (fun r => q_SubQuizID r <> i) Q ->
  select_questions (Q ++ Q') i = select_questions Q' i.
Proof.
  intros H. unfold select_questions. rewrite filter_app.
  rewrite (filter_none _ _ Q); [reflexivity|].
  intros r Hr. rewrite Forall_forall in H. apply Nat.eqb_neq. now apply H.
Qed.

Lemma select_questions_app_r (Q Q' : list QuestionRow) (i : nat) :
  Forall (fun r => q_SubQuizID r <> i) Q' ->
  select_questions (Q ++ Q') i = select_questions Q i.
Proof.
  intros H. unfold select_questions. rewrite filter_app.
  rewrite (filter_none _ _ Q'); [now rewrite app_nil_r|].
  intros r Hr. rewrite Forall_forall in H. apply Nat.eqb_neq. now apply H.
Qed.

Lemma select_questions_own (Q : list QuestionRow) (i a : nat) :
  Forall (fun r => q_SubQuizID r = i) Q ->
  map q_Order_Index Q = seq a (List.length Q) ->
  select_questions Q i = Q.
Proof.
  intros H Ho. unfold select_questions. rewrite filter_all.
  - now apply order_by_seq with (a := a).
  - intros r Hr. rewrite Forall_forall in H. apply Nat.eqb_eq. now apply H.
Qed.

Lemma select_questions_In (Q : list QuestionRow) (i : nat) (r : QuestionRow) :
  In r (select_questions Q i) -> In r Q.
Proof.
  unfold select_questions. intros H.
  apply (Permutation_in _ (order_by_perm _ _ _)) in H.
  now apply filter_In in H.
Qed.

Lemma load_sub_quiz_ext (Q Q' : list QuestionRow) (C C' : list ChoiceRow)
    (sr : SubQuizRow) :
  select_questions Q (SubQuizID sr) = select_questions Q' (SubQuizID sr) ->
  (forall r, In r (select_questions Q' (SubQuizID sr)) ->
             select_choices C (QuestionID r) = select_choices C' (QuestionID r)) ->
  load_sub_quiz Q C sr = load_sub_quiz Q' C' sr.
Proof.
  intros HQ HC. unfold load_sub_quiz. rewrite HQ. f_equal.
  apply map_ext_in. intros r Hr. apply load_question_ext. now apply HC.
Qed.

(** ** What a successful save writes *)

Lemma grows_refl (s : session) : grows s s [] [] [].
Proof. unfold grows. rewrite !app_nil_r. simpl. repeat split; lia. Qed.

Lemma grows_trans (s s1 s2 : session) (a a' : list SubQuizRow)
    (b b' : list QuestionRow) (c c' : list ChoiceRow) :
  grows s s1 a b c -> grows s1 s2 a' b' c' -> grows s s2 (a ++ a') (b ++ b') (c ++ c').
Proof.
  unfold grows. intros (H1 & H2 & H3 & H4 & H5 & H6 & H7 & H8 & H9)
                       (G1 & G2 & G3 & G4 & G5 & G6 & G7 & G8 & G9).
  rewrite !length_app, !app_assoc. repeat split; try congruence; lia.
Qed.

Section SaveWrites.

Variable fails : nat -> bool.

Lemma insert_Choice_ok (question_id : nat) (t : string) (c : nat)
    (s s' : session) (i : nat) :
  insert_Choice fails question_id t c s = (Ok i, s') ->
  grows s s' [] [] [mkChoiceRow (next_ChoiceID s) question_id t c].
Proof.
  unfold insert_Choice, bind, statement.
  destruct (fails (executed s)); [discriminate|].
  intros [= _ <-]. unfold grows. simpl. rewrite !app_nil_r.
  repeat split; try reflexivity; lia.
Qed.

Lemma insert_Question_ok (subquiz_id : nat) (t ty : string) (p : Z) (o : nat)
    (s s' : session) (i : nat) :
  insert_Question fails subquiz_id t ty p o s = (Ok i, s') ->
  i = next_QuestionID s /\
  grows s s' [] [mkQuestionRow (next_QuestionID s) subquiz_id t ty p o] [].
Proof.
  unfold insert_Question, bind, statement.
  destruct (fails (executed s)); [discriminate|].
  intros [= <- <-]. unfold grows. simpl. rewrite !app_nil_r.
  repeat split; try reflexivity; lia.
Qed.

Lemma insert_SubQuiz_ok (quiz_id : nat) (t : string) (o : nat)
    (s s' : session) (i : nat) :
  insert_SubQuiz fails quiz_id t o s = (Ok i, s') ->
  i = next_SubQuizID s /\
  grows s s' [mkSubQuizRow (next_SubQuizID s) quiz_id t o] [] [].
Proof.
  unfold insert_SubQuiz, bind, statement.
  destruct (fails (executed s)); [discriminate|].
  intros [= <- <-]. unfold grows. simpl. rewrite !app_nil_r.
  repeat split; try reflexivity; lia.
Qed.

Lemma insert_choices_ok (question_id : nat) (cs : list Choice) :
  forall (s s' : session) (u : unit),
    insert_choices fails question_id cs s = (Ok u, s') ->
    exists crows,
      grows s s' [] [] crows /\
      Forall (fun r => c_QuestionID r = question_id) crows /\
      List.length crows = List.length cs /\
      map erase_choice (map load_choice crows) = map erase_choice cs.
Proof.
  induction cs as [|c cs IH]; intros s s' u H.
  - cbn in H. injection H as _ <-. exists []. split; [apply grows_refl|].
    repeat split; constructor.
  - cbn [insert_choices] in H. apply bind_ok in H as (i & s1 & H1 & H2).
    apply insert_Choice_ok in H1. apply IH in H2 as (crows & G & F & L & E).
    eexists (_ :: crows). split; [exact (grows_trans _ _ _ _ _ _ _ _ _ H1 G)|].
    split; [constructor; [reflexivity | exact F]|].
    split; [simpl; lia|]. cbn [map]. f_equal; [|exact E].
    unfold erase_choice, load_choice. simpl. now destruct (is_correct c).
Qed.

Lemma choices_step (n : nat) (q : Question) (s1 s2 : session) (u : unit) :
  (if negb (String.eqb (q_type q) OPEN_TEXT)
   then insert_choices fails n (choices q) else ret tt) s1 = (Ok u, s2) ->
  exists crows,
    grows s1 s2 [] [] crows /\
    Forall (fun r => c_QuestionID r = n) crows /\
    List.length crows = choice_rows q /\
    map erase_choice (map load_choice crows) =
      map erase_choice (if String.eqb (q_type q) OPEN_TEXT then [] else choices q).
Proof.
  unfold choice_rows. destruct (String.eqb (q_type q) OPEN_TEXT); simpl; intros H.
  - injection H as _ <-. exists []. split; [apply grows_refl|].
    repeat split; constructor.
  - eapply insert_choices_ok; eauto.
Qed.

Lemma erase_load_question (C cq : list ChoiceRow) (n sqid idx : nat) (q : Question) :
  select_choices C n = cq ->
  map erase_choice (map load_choice cq) =
    map erase_choice (if String.eqb (q_type q) OPEN_TEXT then [] else choices q) ->
  erase_question
    (load_question C (mkQuestionRow n sqid (q_text q) (q_type q) (points q) idx)) =
  erase_question (drop_open_text_choices q).
Proof.
  intros HC E. unfold erase_question, load_question, drop_open_text_choices.
  cbn [QuestionID Question_Text Question_Type Points q_text q_type points choices].
  f_equal. rewrite HC. destruct (String.eqb (q_type q) OPEN_TEXT); [reflexivity|].
  exact E.
Qed.

Lemma insert_questions_ok (sqid : nat) (qs : list Question) :
  forall (idx : nat) (s s' : session) (u : unit),
    insert_questions fails sqid idx qs s = (Ok u, s') ->
    exists qrows crows,
      grows s s' [] qrows crows /\
      List.length qrows = List.length qs /\
      List.length crows = list_sum (map choice_rows qs) /\
      Forall (fun r => q_SubQuizID r = sqid /\
                       next_QuestionID s <= QuestionID r < next_QuestionID s') qrows /\
      map q_Order_Index qrows = seq idx (List.length qs) /\
      Forall (fun r => next_QuestionID s <= c_QuestionID r < next_QuestionID s') crows /\
      map erase_question (map (load_question crows) qrows) =
        map erase_question (map drop_open_text_choices qs).
Proof.
  induction qs as [|q qs IH]; intros idx s s' u H.
  - cbn in H. injection H as _ <-. exists [], []. split; [apply grows_refl|].
    repeat split; constructor.
  - cbn [insert_questions] in H. apply bind_ok in H as (n & s1 & H1 & H).
    apply bind_ok in H as (u1 & s2 & H2 & H3).
    apply insert_Question_ok in H1 as [-> G1].
    apply choices_step in H2 as (cq & G2 & F2 & L2 & E2).
    apply IH in H3 as (qrows & crows & G3 & Lq & Lc & Fq & Oq & Fc & E3).
    assert (N1 : next_QuestionID s1 = S (next_QuestionID s))
      by (destruct G1 as (_ & _ & _ & _ & _ & _ & _ & _ & G); simpl in G; lia).
    assert (N2 : next_QuestionID s2 = next_QuestionID s1)
      by (destruct G2 as (_ & _ & _ & _ & _ & _ & _ & _ & G); simpl in G; lia).
    assert (N3 : next_QuestionID s' = next_QuestionID s2 + List.length qrows)
      by (destruct G3 as (_ & _ & _ & _ & _ & _ & _ & _ & G); exact G).
    eexists (_ :: qrows), (cq ++ crows).
    split; [exact (grows_trans _ _ _ _ _ _ _ _ _ G1
                     (grows_trans _ _ _ _ _ _ _ _ _ G2 G3))|].
    split; [simpl; lia|].
    split; [rewrite length_app; simpl; lia|].
    split.
    { constructor; [simpl; split; [reflexivity | lia]|].
      eapply Forall_impl; [|exact Fq]. intros r (Hs & Hl). split; [exact Hs | lia]. }
    split; [simpl; f_equal; exact Oq|].
    split.
    { apply Forall_app. split.
      - eapply Forall_impl; [|exact F2]. intros r ->. lia.
      - eapply Forall_impl; [|exact Fc]. intros r Hr. simpl in Hr. lia. }
    cbn [map]. f_equal.
    + apply erase_load_question with (cq := cq); [|exact E2].
      rewrite select_choices_app, (select_choices_all _ _ F2).
      rewrite (select_choices_none crows); [apply app_nil_r|].
      eapply Forall_impl; [|exact Fc]. intros r Hr. simpl in Hr. lia.
    + rewrite <- E3. f_equal. apply map_ext_in. intros r Hr.
      apply load_question_ext. rewrite select_choices_app.
      rewrite (select_choices_none cq); [reflexivity|].
      rewrite Forall_forall in Fq. destruct (Fq r Hr) as (_ & Hl).
      eapply Forall_impl; [|exact F2]. intros c ->. lia.
Qed.

Lemma erase_load_sub_quiz (q1 : list QuestionRow) (c1 : list ChoiceRow)
    (m quiz_id idx : nat) (sq : SubQuiz) :
  List.length q1 = List.length (questions sq) ->
  Forall (fun r => q_SubQuizID r = m) q1 ->
  map q_Order_Index q1 = seq 0 (List.length (questions sq)) ->
  map erase_question (map (load_question c1) q1) =
    map erase_question (map drop_open_text_choices (questions sq)) ->
  erase_sub_quiz (load_sub_quiz q1 c1 (mkSubQuizRow m quiz_id (title sq) idx)) =
  erase_sub_quiz (persisted_part sq).
Proof.
  intros L F O E. unfold erase_sub_quiz, load_sub_quiz, persisted_part.
  cbn [SubQuizID sq_Title title questions]. f_equal.
  rewrite (select_questions_own q1 m 0 F); [exact E|]. now rewrite L.
Qed.

Lemma insert_sub_quizzes_ok (quiz_id : nat) (sqs : list SubQuiz) :
  forall (idx : nat) (s s' : session) (u : unit),
    insert_sub_quizzes fails quiz_id idx sqs s = (Ok u, s') ->
    exists srows qrows crows,
      grows s s' srows qrows crows /\
      List.length srows = List.length sqs /\
      List.length qrows = List.length (all_questions sqs) /\
      List.length crows = total_choice_rows sqs /\
      Forall (fun r => sq_QuizID r = quiz_id /\
                       next_SubQuizID s <= SubQuizID r < next_SubQuizID s') srows /\
      map sq_Order_Index srows = seq idx (List.length sqs) /\
      Forall (fun r => (next_SubQuizID s <= q_SubQuizID r < next_SubQuizID s') /\
                       (next_QuestionID s <= QuestionID r < next_QuestionID s')) qrows /\
      Forall (fun r => next_QuestionID s <= c_QuestionID r < next_QuestionID s') crows /\
      map erase_sub_quiz (map (load_sub_quiz qrows crows) srows) =
        map erase_sub_quiz (map persisted_part sqs).
Proof.
  induction sqs as [|sq sqs IH]; intros idx s s' u H.
  - cbn in H. injection H as _ <-. exists [], [], []. split; [apply grows_refl|].
    repeat split; constructor.
  - cbn [insert_sub_quizzes] in H. apply bind_ok in H as (m & s1 & H1 & H).
    apply bind_ok in H as (u1 & s2 & H2 & H3).
    apply insert_SubQuiz_ok in H1 as [-> G1].
    apply insert_questions_ok in H2 as (q1 & c1 & G2 & Lq1 & Lc1 & Fq1 & Oq1 & Fc1 & E1).
    apply IH in H3 as (srows & qrows & crows & G3 & Ls & Lq & Lc & Fs & Os & Fq & Fc & E3).
    pose proof G1 as (_ & _ & _ & _ & _ & _ & _ & A1 & B1).
    pose proof G2 as (_ & _ & _ & _ & _ & _ & _ & A2 & B2).
    pose proof G3 as (_ & _ & _ & _ & _ & _ & _ & A3 & B3).
    simpl in A1, B1, A2, B2.
    eexists (_ :: srows), (q1 ++ qrows), (c1 ++ crows).
    split; [exact (grows_trans _ _ _ _ _ _ _ _ _ G1
                     (grows_trans _ _ _ _ _ _ _ _ _ G2 G3))|].
    split; [simpl; lia|].
    split; [unfold all_questions in *; simpl; rewrite !length_app; lia|].
    split.
    { unfold total_choice_rows, all_questions in *. simpl.
      rewrite map_app, list_sum_app, length_app. lia. }
    split.
    { constructor; [simpl; split; [reflexivity | lia]|].
      eapply Forall_impl; [|exact Fs]. intros r (Hq & Hl). split; [exact Hq | lia]. }
    split; [simpl; f_equal; exact Os|].
    split.
    { apply Forall_app. split.
      - eapply Forall_impl; [|exact Fq1]. intros r (Hq & Hl). rewrite Hq. lia.
      - eapply Forall_impl; [|exact Fq]. intros r (Hq & Hl). lia. }
    split.
    { apply Forall_app. split.
      - eapply Forall_impl; [|exact Fc1]. intros r Hr. simpl in Hr. lia.
      - eapply Forall_impl; [|exact Fc]. intros r Hr. simpl in Hr. lia. }
    cbn [map]. f_equal.
    + rewrite <- (erase_load_sub_quiz q1 c1 (next_SubQuizID s) quiz_id idx sq Lq1).
      * f_equal. apply load_sub_quiz_ext.
        -- cbn [SubQuizID]. apply select_questions_app_r.
           eapply Forall_impl; [|exact Fq]. intros r (Hq & _). lia.
        -- cbn [SubQuizID]. intros r Hr. apply select_questions_In in Hr.
           rewrite Forall_forall in Fq1. destruct (Fq1 r Hr) as (_ & Hl).
           rewrite select_choices_app, (select_choices_none crows);
             [apply app_nil_r|].
           eapply Forall_impl; [|exact Fc]. intros c Hc. simpl in Hc. lia.
      * eapply Forall_impl; [|exact Fq1]. now intros r (Hq & _).
      * exact Oq1.
      * exact E1.
    + rewrite <- E3. f_equal. apply map_ext_in. intros sr Hsr.
      rewrite Forall_forall in Fs. destruct (Fs sr Hsr) as (_ & Hl).
      apply load_sub_quiz_ext.
      * apply select_questions_app_l.
        eapply Forall_impl; [|exact Fq1]. intros r (Hq & _). lia.
      * intros r Hr. apply select_questions_In in Hr.
        rewrite Forall_forall in Fq. destruct (Fq r Hr) as (_ & Hr').
        rewrite select_choices_app, (select_choices_none c1); [reflexivity|].
        eapply Forall_impl; [|exact Fc1]. intros c Hc. simpl in Hc. lia.
Qed.

End SaveWrites.

(** ** [save_quiz] as a transaction *)

Section SaveQuiz.

Variable fails : nat -> bool.

Lemma accounted_start_transaction : accounted fails 0 start_transaction.
Proof.
  intros s. simpl. split; [reflexivity|]. split; [lia|]. intros k Hk. lia.
Qed.

Lemma transactional_bind (A B : Type) (n p : nat) (m : DB A) (k : A -> DB B) :
  accounted fails n m -> (forall a, transactional fails p (k a)) ->
  transactional fails (n + p) (bind m k).
Proof.
  intros Hm Hk s. unfold bind. specialize (Hm s).
  destruct (m s) as [[a|e] s1]; simpl in Hm; destruct Hm as [Hv Hm].
  - destruct Hm as [He Hno]. specialize (Hk a s1).
    destruct (k a s1) as [[b|e] s2].
    + destruct Hk as [He2 Hno2]. split; [lia|].
      intros j Hj. destruct (Nat.lt_ge_cases j (executed s1)).
      * apply Hno. lia.
      * apply Hno2. lia.
    + destruct Hk as (-> & Hv2 & j & Hj & Hf). split; [reflexivity|].
      split; [congruence|]. exists j. split; [lia | exact Hf].
  - destruct Hm as [-> (j & Hj & Hf)]. split; [reflexivity|].
    split; [exact Hv|]. exists j. split; [lia | exact Hf].
Qed.

Lemma transactional_commit : transactional fails 1 (commit fails).
Proof.
  intros s. unfold commit, bind, statement.
  destruct (fails (executed s)) eqn:Hf; simpl.
  - split; [reflexivity|]. split; [reflexivity|].
    exists (executed s). split; [lia | exact Hf].
  - split; [lia|]. intros k Hk. replace k with (executed s) by lia. exact Hf.
Qed.

Lemma transactional_commit_ret (A : Type) (a : A) :
  transactional fails 1 (commit fails ;;; ret a).
Proof.
  intros s. unfold commit, bind, statement, ret.
  destruct (fails (executed s)) eqn:Hf; simpl.
  - split; [reflexivity|]. split; [reflexivity|].
    exists (executed s). split; [lia | exact Hf].
  - split; [lia|]. intros k Hk. replace k with (executed s) by lia. exact Hf.
Qed.

Lemma transactional_eq (A : Type) (n p : nat) (m : DB A) :
  n = p -> transactional fails n m -> transactional fails p m.
Proof. now intros ->. Qed.

Lemma transactional_save_quiz_try (draw : nat -> nat) (quiz_title : string)
    (sqs : list SubQuiz) :
  transactional fails (save_statements sqs) (save_quiz_try fails draw quiz_title sqs).
Proof.
  unfold save_quiz_try, save_statements.
  apply transactional_eq with (n := 0 + (1 + (sub_quizzes_statements sqs + 1)));
    [lia|].
  apply transactional_bind; [apply accounted_start_transaction|]. intros _.
  apply transactional_bind; [apply accounted_insert_Quiz|]. intros quiz_id.
  apply transactional_bind; [apply accounted_insert_sub_quizzes|]. intros _.
  apply transactional_commit_ret.
Qed.

(** A save that meets no failing statement returns the code it drew. *)
Lemma save_quiz_try_runs (draw : nat -> nat) (quiz_title : string)
    (sqs : list SubQuiz) (s : session) :
  (forall k, k < save_statements sqs -> fails (executed s + k) = false) ->
  exists code s', save_quiz_try fails draw quiz_title sqs s = (Ok code, s').
Proof.
  intros Hno. pose proof (transactional_save_quiz_try draw quiz_title sqs s) as H.
  destruct (save_quiz_try fails draw quiz_title sqs s) as [[code|e] s'];
    [eauto|].
  destruct H as (_ & _ & k & Hk & Hf).
  assert (Hk' : fails k = false).
  { replace k with (executed s + (k - executed s)) by lia. apply Hno. lia. }
  congruence.
Qed.

(** The rows a committed save has published. *)
Lemma save_quiz_try_ok (draw : nat -> nat) (quiz_title : string)
    (sqs : list SubQuiz) (s s' : session) (code : string) :
  save_quiz_try fails draw quiz_title sqs s = (Ok code, s') ->
  code = generate_access_code 6 draw /\
  exists srows qrows crows,
    Quizzes (visible s') =
      Quizzes (visible s) ++ [mkQuizRow (next_QuizID s) user_id quiz_title code] /\
    SubQuizzes (visible s') = SubQuizzes (visible s) ++ srows /\
    Questions (visible s') = Questions (visible s) ++ qrows /\
    Choices (visible s') = Choices (visible s) ++ crows /\
    QuizTakers (visible s') = QuizTakers (visible s) /\
    Answers (visible s') = Answers (visible s) /\
    List.length srows = List.length sqs /\
    List.length qrows = List.length (all_questions sqs) /\
    List.length crows = total_choice_rows sqs /\
    Forall (fun r => sq_QuizID r = next_QuizID s /\
                     next_SubQuizID s <= SubQuizID r) srows /\
    map sq_Order_Index srows = seq 0 (List.length sqs) /\
    Forall (fun r => next_SubQuizID s <= q_SubQuizID r /\
                     next_QuestionID s <= QuestionID r) qrows /\
    Forall (fun r => next_QuestionID s <= c_QuestionID r) crows /\
    map erase_sub_quiz (map (load_sub_quiz qrows crows) srows) =
      map erase_sub_quiz (map persisted_part sqs).
Proof.
  unfold save_quiz_try. intros H.
  apply bind_ok in H as (u0 & s0 & H0 & H).
  apply bind_ok in H as (quiz_id & s1 & H1 & H).
  apply bind_ok in H as (u2 & s2 & H2 & H).
  apply bind_ok in H as (u3 & s3 & H3 & H).
  unfold ret in H. injection H as <- <-.
  unfold start_transaction in H0. injection H0 as _ <-.
  unfold insert_Quiz, bind, statement in H1. cbn [executed set_working] in H1.
  destruct (fails (executed s)); [discriminate|]. injection H1 as <- <-.
  unfold commit, bind, statement in H3.
  destruct (fails (executed s2)); [discriminate|]. injection H3 as _ <-.
  apply insert_sub_quizzes_ok in H2
    as (srows & qrows & crows & G & Ls & Lq & Lc & Fs & Os & Fq & Fc & E).
  destruct G as (G1 & G2 & G3 & G4 & G5 & G6 & G7 & G8 & G9).
  cbn in G1, G2, G3, G4, G5, G6, G7, G8, G9, Fs, Fq, Fc.
  split; [reflexivity|]. exists srows, qrows, crows. cbn.
  repeat (split; [assumption|]).
  split. { eapply Forall_impl; [|exact Fs]. intros r (Hq & Hl). split; [exact Hq | lia]. }
  split; [exact Os|].
  split. { eapply Forall_impl; [|exact Fq]. intros r (Hq & Hl). lia. }
  split; [|exact E].
  eapply Forall_impl; [|exact Fc]. intros r Hr. simpl in Hr. lia.
Qed.

End SaveQuiz.

(** A failing statement makes the save report the error with the
    transaction rolled back. *)
Lemma save_quiz_rolls_back (fails : nat -> bool) (draw : nat -> nat)
    (quiz_title : string) (sqs : list SubQuiz) (s : session) (k : nat) :
  k < save_statements sqs ->
  fails (executed s + k) = true ->
  fst (save_quiz fails true draw quiz_title sqs s) = SaveFailed /\
  visible (snd (save_quiz fails true draw quiz_title sqs s)) = visible s /\
  working (snd (save_quiz fails true draw quiz_title sqs s)) = visible s.
Proof.
  intros Hk Hfail. unfold save_quiz. cbn [negb].
  pose proof (transactional_save_quiz_try fails draw quiz_title sqs s) as H.
  destruct (save_quiz_try fails draw quiz_title sqs s) as [[code|e] s1].
  - destruct H as [_ Hno]. rewrite Hno in Hfail by lia. discriminate.
  - destruct H as (-> & Hv & _). cbn. rewrite Hv. repeat split; reflexivity.
Qed.

(** Without a failing statement the save returns the code it drew and
    publishes its rows. *)
Lemma save_quiz_commits (fails : nat -> bool) (draw : nat -> nat)
    (quiz_title : string) (sqs : list SubQuiz) (s : session) :
  (forall k, k < save_statements sqs -> fails (executed s + k) = false) ->
  let code := generate_access_code 6 draw in
  let after := visible (snd (save_quiz fails true draw quiz_title sqs s)) in
  fst (save_quiz fails true draw quiz_title sqs s) = Saved code /\
  Quizzes after =
    Quizzes (visible s) ++ [mkQuizRow (next_QuizID s) user_id quiz_title code] /\
  exists srows qrows crows,
    SubQuizzes after = SubQuizzes (visible s) ++ srows /\
    Questions after = Questions (visible s) ++ qrows /\
    Choices after = Choices (visible s) ++ crows /\
    List.length srows = List.length sqs /\
    List.length qrows = List.length (all_questions sqs) /\
    List.length crows = total_choice_rows sqs /\
    map sq_Order_Index srows = seq 0 (List.length sqs).
Proof.
  intros Hno code after. subst code after. unfold save_quiz. cbn [negb].
  destruct (save_quiz_try_runs fails draw quiz_title sqs s Hno) as (code & s' & Hrun).
  rewrite Hrun. cbn.
  apply save_quiz_try_ok in Hrun
    as (-> & srows & qrows & crows & HQ & HS & HQs & HC & _ & _ & Ls & Lq & Lc & _ & Os & _).
  split; [reflexivity|]. split; [exact HQ|].
  exists srows, qrows, crows. repeat split; assumption.
Qed.

(** C4. [save_quiz] is atomic.  Whichever statement of the save is made to
    fail - the insert of the quiz row, of a sub-quiz row, of a question row,
    of a choice row, or the commit - the error is caught, the transaction is
    rolled back, and the committed rows of every table are exactly those from
    before the call, so a later lookup sees nothing of the attempted quiz. *)
Theorem save_quiz_atomic (fails : nat -> bool) (draw : nat -> nat)
    (quiz_title : string) (sqs : list SubQuiz) (s : session) (k : nat)
    (Hk : k < save_statements sqs)
    (Hfail : fails (executed s + k) = true) :
  fst (save_quiz fails true draw quiz_title sqs s) = SaveFailed /\
  visible (snd (save_quiz fails true draw quiz_title sqs s)) = visible s /\
  working (snd (save_quiz fails true draw quiz_title sqs s)) = visible s /\
  forall code,
    get_quiz_by_code (visible (snd (save_quiz fails true draw quiz_title sqs s))) code =
    get_quiz_by_code (visible s) code.
Proof.
  destruct (save_quiz_rolls_back fails draw quiz_title sqs s k Hk Hfail)
    as (Ho & Hv & Hw).
  repeat split; try assumption. intros code. now rewrite Hv.
Qed.

Lemma save_quiz_atomic_witness :
  fst (save_quiz (fun n => n =? 3) true (fun i => i) "Quiz" sample_tree empty_session)
    = SaveFailed /\
  visible (snd (save_quiz (fun n => n =? 3) true (fun i => i) "Quiz" sample_tree
                          empty_session)) = empty_tables.
Proof.
  destruct (save_quiz_atomic (fun n => n =? 3) (fun i => i) "Quiz" sample_tree
                             empty_session 3) as (Ho & Hv & _).
  - unfold save_statements, sub_quizzes_statements. simpl. lia.
  - reflexivity.
  - split; [exact Ho | exact Hv].
Defined.




Lemma get_quiz_by_code_single (T : tables) (code : string) (quiz_header : QuizRow) :
  filter (fun r => String.eqb (Access_Code r) code) (Quizzes T) = [quiz_header] ->
  get_quiz_by_code T code =
    Some (mkQuizData (Title quiz_header) (CreatorUserID quiz_header) code
                     (map (load_sub_quiz (Questions T) (Choices T))
                          (select_sub_quizzes (SubQuizzes T) (QuizID quiz_header))),
          str (QuizID quiz_header)).
Proof. intros H. unfold get_quiz_by_code. now rewrite H. Qed.

(** A save that returns a code on a store with the unique index has drawn a
    code that no stored quiz carries. *)
Lemma saved_code_is_fresh (fails : nat -> bool) (draw : nat -> nat)
    (quiz_title : string) (sqs : list SubQuiz) (s s' : session) (code : string) :
  unique_Access_Code fails s (generate_access_code 6 draw) ->
  save_quiz_try fails draw quiz_title sqs s = (Ok code, s') ->
  Forall (fun r => Access_Code r <> code) (Quizzes (visible s)).
Proof.
  intros Hu Hrun. apply Forall_forall. intros r Hr E.
  pose proof (save_quiz_try_ok fails draw quiz_title sqs s s' code Hrun) as [-> _].
  assert (Hf : fails (executed s + 0) = true).
  { rewrite Nat.add_0_r. apply Hu. rewrite <- E. now apply in_map. }
  destruct (save_quiz_rolls_back fails draw quiz_title sqs s 0) as (Ho & _);
    [unfold save_statements; lia | exact Hf |].
  unfold save_quiz in Ho. cbn [negb] in Ho. rewrite Hrun in Ho. discriminate.
Qed.

(** C3. Saving a tree and loading it back with the code the save returned
    gives the same tree up to the identifiers: the same quiz title and, in
    the same order, the same sub-quiz titles, question texts, types and
    points, and choice texts and correctness flags, the choices of OPEN_TEXT
    questions being left out.  The store is one whose foreign keys name ids
    already handed out and whose table of quizzes has the unique index on the
    access code that the schema declares. *)
Theorem save_then_load (fails : nat -> bool) (connected : bool) (draw : nat -> nat)
    (quiz_title : string) (sqs : list SubQuiz) (s s' : session) (code : string)
    (Hkeys : keys_issued s)
    (Hunique : unique_Access_Code fails s (generate_access_code 6 draw))
    (Hsave : save_quiz fails connected draw quiz_title sqs s = (Saved code, s')) :
  exists loaded,
    get_quiz_by_code (visible s') code =
      Some (mkQuizData quiz_title user_id code loaded, str (next_QuizID s)) /\
    map erase_sub_quiz loaded = map erase_sub_quiz (map persisted_part sqs).
Proof.
  unfold save_quiz in Hsave. destruct connected; cbn [negb] in Hsave; [|discriminate].
  destruct (save_quiz_try fails draw quiz_title sqs s) as [[c|e] s1] eqn:Hrun;
    [|destruct e; discriminate].
  injection Hsave as -> <-. cbn [close set_working visible].
  pose proof (saved_code_is_fresh fails draw quiz_title sqs s s1 code Hunique Hrun)
    as Hfresh.
  apply save_quiz_try_ok in Hrun
    as (_ & srows & qrows & crows & HQ & HS & HQs & HC & _ & _ & Ls & _ & _
        & Fs & Os & Fq & Fc & E).
  destruct Hkeys as (KS & KQ & KC).
  exists (map (load_sub_quiz qrows crows) srows). split; [|exact E].
  rewrite (get_quiz_by_code_single _ _ (mkQuizRow (next_QuizID s) user_id quiz_title code)).
  2:{ rewrite HQ, filter_app, (filter_none _ _ (Quizzes (visible s))).
      - cbn [filter app Access_Code]. now rewrite String.eqb_refl.
      - intros r Hr. rewrite Forall_forall in Hfresh. apply String.eqb_neq.
        now apply Hfresh. }
  cbn [QuizID Title CreatorUserID]. rewrite HS, HQs, HC. do 3 f_equal.
  unfold select_sub_quizzes. rewrite filter_app.
  rewrite (filter_none _ _ (SubQuizzes (visible s))).
  2:{ intros r Hr. rewrite Forall_forall in KS. apply Nat.eqb_neq.
      specialize (KS r Hr). lia. }
  rewrite (filter_all _ _ srows).
  2:{ intros r Hr. rewrite Forall_forall in Fs. apply Nat.eqb_eq.
      now destruct (Fs r Hr). }
  cbn [app]. rewrite (order_by_seq _ _ _ 0) by now rewrite Ls.
  apply map_ext_in. intros sr Hsr.
  rewrite Forall_forall in Fs. destruct (Fs sr Hsr) as (_ & Hl).
  apply load_sub_quiz_ext.
  - apply select_questions_app_l. eapply Forall_impl; [|exact KQ].
    intros r Hr. simpl in Hr. lia.
  - intros r Hr. apply select_questions_In in Hr.
    rewrite Forall_forall in Fq. destruct (Fq r Hr) as (_ & Hr').
    rewrite select_choices_app, (select_choices_none (Choices (visible s)));
      [reflexivity|].
    eapply Forall_impl; [|exact KC]. intros c0 Hc. simpl in Hc. lia.
Qed.

Lemma save_then_load_witness :
  let s := snd (save_quiz no_faults true (fun i => i) "Old" unmarked_tree empty_session) in
  let s' := snd (save_quiz no_faults true (fun i => i + 6) "Quiz" sample_tree s) in
  exists loaded,
    get_quiz_by_code (visible s') "GHIJKL" =
      Some (mkQuizData "Quiz" user_id "GHIJKL" loaded, "2"%string) /\
    map erase_sub_quiz loaded = map erase_sub_quiz (map persisted_part sample_tree).
Proof.
  intros s s'.
  apply (save_then_load no_faults true (fun i => i + 6) "Quiz" sample_tree s s' "GHIJKL").
  - vm_compute. repeat split; repeat constructor.
  - vm_compute. intros [H|[]]. discriminate.
  - vm_compute. reflexivity.
Defined.

(** ** [submit_results] as a transaction *)

Section SubmitResults.

Variable fails : nat -> bool.

Lemma transactional_submit_try (quiz_id : nat) (name : string) (total : Z)
    (l : list pending_answer) :
  transactional fails (submit_statements (List.length l))
                (submit_try fails quiz_id name total l).
Proof.
  unfold submit_try, submit_statements.
  apply transactional_eq with (n := 0 + (1 + (List.length l + 1))); [lia|].
  apply transactional_bind; [apply accounted_start_transaction|]. intros _.
  apply transactional_bind; [apply accounted_insert_QuizTaker|]. intros taker_id.
  apply transactional_bind; [apply accounted_insert_answers|]. intros _.
  apply transactional_commit.
Qed.

Lemma insert_answers_ok (taker_id : nat) (l : list pending_answer) :
  forall (s s' : session) (u : unit),
    insert_answers fails taker_id l s = (Ok u, s') ->
    Quizzes (working s') = Quizzes (working s) /\
    SubQuizzes (working s') = SubQuizzes (working s) /\
    Questions (working s') = Questions (working s) /\
    Choices (working s') = Choices (working s) /\
    QuizTakers (working s') = QuizTakers (working s) /\
    Answers (working s') = Answers (working s) ++ map (answer_row taker_id) l.
Proof.
  induction l as [|a l IH]; intros s s' u H.
  - cbn in H. injection H as _ <-. rewrite app_nil_r. repeat split.
  - cbn [insert_answers] in H. apply bind_ok in H as (u1 & s1 & H1 & H2).
    unfold insert_Answer, bind, statement in H1.
    destruct (fails (executed s)); [discriminate|]. injection H1 as _ <-.
    apply IH in H2 as (G1 & G2 & G3 & G4 & G5 & G6). cbn in G1, G2, G3, G4, G5, G6.
    rewrite G6, <- app_assoc. repeat split; assumption.
Qed.

(** The rows a committed attempt has published. *)
Lemma submit_try_ok (quiz_id : nat) (name : string) (total : Z)
    (l : list pending_answer) (s s' : session) (u : unit) :
  submit_try fails quiz_id name total l s = (Ok u, s') ->
  Quizzes (visible s') = Quizzes (visible s) /\
  SubQuizzes (visible s') = SubQuizzes (visible s) /\
  Questions (visible s') = Questions (visible s) /\
  Choices (visible s') = Choices (visible s) /\
  QuizTakers (visible s') =
    QuizTakers (visible s) ++
      [mkQuizTakerRow (next_TakerID s) quiz_id name (clock s) total] /\
  Answers (visible s') =
    Answers (visible s) ++ map (answer_row (next_TakerID s)) l.
Proof.
  unfold submit_try. intros H.
  apply bind_ok in H as (u0 & s0 & H0 & H).
  apply bind_ok in H as (taker_id & s1 & H1 & H).
  apply bind_ok in H as (u2 & s2 & H2 & H3).
  unfold start_transaction in H0. injection H0 as _ <-.
  unfold insert_QuizTaker, bind, statement in H1. cbn [executed set_working] in H1.
  destruct (fails (executed s)); [discriminate|]. injection H1 as <- <-.
  unfold commit, bind, statement in H3.
  destruct (fails (executed s2)); [discriminate|]. injection H3 as _ <-.
  apply insert_answers_ok in H2 as (G1 & G2 & G3 & G4 & G5 & G6).
  cbn in G1, G2, G3, G4, G5, G6. cbn. repeat split; assumption.
Qed.


End SubmitResults.



(** ** Access codes *)

Lemma string_of_list_ascii_length (l : list ascii) :
  String.length (string_of_list_ascii l) = List.length l.
Proof. induction l as [|c l IH]; simpl; [reflexivity | now rewrite IH]. Qed.

(** Every generated code has the requested length, 6 by default, and each
    of its characters is an upper-case letter or a digit. *)
Lemma generate_access_code_format (n : nat) (draw : nat -> nat) :
  String.length (generate_access_code n draw) = n /\
  Forall (fun c => In c (list_ascii_of_string characters))
         (list_ascii_of_string (generate_access_code n draw)).
Proof.
  unfold generate_access_code. split.
  - now rewrite string_of_list_ascii_length, length_map, length_seq.
  - rewrite list_ascii_of_string_of_list_ascii. apply Forall_forall.
    intros c Hc. apply in_map_iff in Hc as (i & <- & _).
    unfold random_choice. apply nth_In.
    change (List.length (list_ascii_of_string characters)) with 36.
    change (String.length characters) with 36.
    apply Nat.mod_upper_bound. discriminate.
Qed.

(** C6, as amended.  Every generated access code is exactly 6 characters
    long, each an upper-case letter or a digit.  The code is drawn once per
    save, from the random generator alone, and attached without being
    compared with the codes already stored; there is no retry.  A save on
    which no statement fails stores its quiz under the code drawn, whatever
    the stored codes are; a save whose insert of the quiz row is rejected
    fails and is rolled back. *)
Theorem access_code_drawn_once (draw : nat -> nat) :
  let code := generate_access_code 6 draw in
  String.length code = 6 /\
  Forall (fun c => In c (list_ascii_of_string characters))
         (list_ascii_of_string code) /\
  (forall fails quiz_title sqs s,
     (forall k, k < save_statements sqs -> fails (executed s + k) = false) ->
     fst (save_quiz fails true draw quiz_title sqs s) = Saved code /\
     Quizzes (visible (snd (save_quiz fails true draw quiz_title sqs s))) =
       Quizzes (visible s) ++ [mkQuizRow (next_QuizID s) user_id quiz_title code]) /\
  (forall fails quiz_title sqs s,
     fails (executed s) = true ->
     fst (save_quiz fails true draw quiz_title sqs s) = SaveFailed /\
     visible (snd (save_quiz fails true draw quiz_title sqs s)) = visible s).
Proof.
  intros code. subst code.
  destruct (generate_access_code_format 6 draw) as [Hlen Hchars].
  split; [exact Hlen|]. split; [exact Hchars|]. split.
  - intros fails quiz_title sqs s Hno.
    destruct (save_quiz_commits fails draw quiz_title sqs s Hno) as (Ho & HQ & _).
    split; [exact Ho | exact HQ].
  - intros fails quiz_title sqs s Hf.
    destruct (save_quiz_rolls_back fails draw quiz_title sqs s 0) as (Ho & Hv & _).
    + unfold save_statements. lia.
    + now rewrite Nat.add_0_r.
    + split; [exact Ho | exact Hv].
Qed.

Lemma access_code_drawn_once_witness :
  fst (save_quiz no_faults true (fun i => 35 - i) "Quiz" sample_tree empty_session)
    = Saved "987654" /\
  fst (save_quiz (fun n => n =? 0) true (fun i => 35 - i) "Quiz" sample_tree
                 empty_session) = SaveFailed.
Proof.
  destruct (access_code_drawn_once (fun i => 35 - i)) as (_ & _ & Hok & Hko).
  split.
  - apply (Hok no_faults "Quiz"%string sample_tree empty_session).
    intros k _. reflexivity.
  - apply (Hko (fun n => n =? 0) "Quiz"%string sample_tree empty_session).
    reflexivity.
Defined.

(** However the store answers, a save ends in one of two ways: the quiz is
    committed under the code drawn, or the save has failed and the committed
    rows are those from before. *)
Lemma save_quiz_outcomes (fails : nat -> bool) (draw : nat -> nat)
    (quiz_title : string) (sqs : list SubQuiz) (s : session) :
  let code := generate_access_code 6 draw in
  let r := save_quiz fails true draw quiz_title sqs s in
  (fst r = Saved code /\
   Quizzes (visible (snd r)) =
     Quizzes (visible s) ++ [mkQuizRow (next_QuizID s) user_id quiz_title code]) \/
  (fst r = SaveFailed /\ visible (snd r) = visible s).
Proof.
  intros code r. subst code r. unfold save_quiz. cbn [negb].
  pose proof (transactional_save_quiz_try fails draw quiz_title sqs s) as T.
  destruct (save_quiz_try fails draw quiz_title sqs s) as [[code|e] s1] eqn:Hrun.
  - left. apply save_quiz_try_ok in Hrun as (-> & srows & qrows & crows & HQ & _).
    split; [reflexivity | exact HQ].
  - right. destruct T as (-> & Hv & _). cbn. split; [reflexivity | exact Hv].
Qed.

(** C6 as stated fails.  A stored quiz carries the code AAAAAA and the
    generator draws the same six characters again: it takes no account of the
    stored codes.  Whatever the store then does with the statements of the
    save, the call ends in one of two ways, and in neither is a new code
    drawn: either the quiz is committed under AAAAAA as well, two rows carry
    the code and the lookup by it finds nothing any more, or the save fails
    and nothing is stored. *)
Lemma access_code_collision_counterexample :
  let s1 := snd (save_quiz no_faults true (fun _ => 0) "First" unmarked_tree
                           empty_session) in
  map Access_Code (Quizzes (visible s1)) = ["AAAAAA"%string] /\
  generate_access_code 6 (fun _ => 0) = "AAAAAA"%string /\
  forall fails : nat -> bool,
    let r2 := save_quiz fails true (fun _ => 0) "Second" sample_tree s1 in
    (fst r2 = Saved "AAAAAA" /\
     map Access_Code (Quizzes (visible (snd r2))) = ["AAAAAA"; "AAAAAA"]%string /\
     get_quiz_by_code (visible (snd r2)) "AAAAAA" = None) \/
    (fst r2 = SaveFailed /\ visible (snd r2) = visible s1).
Proof.
  intros s1. split; [vm_compute; reflexivity|]. split; [vm_compute; reflexivity|].
  intros fails r2. subst r2.
  destruct (save_quiz_outcomes fails (fun _ => 0) "Second" sample_tree s1)
    as [[Ho HQ]|[Ho Hv]]; [left | right; split; assumption].
  change (generate_access_code 6 (fun _ => 0)) with "AAAAAA"%string in Ho, HQ.
  split; [exact Ho|]. split.
  - rewrite HQ. vm_compute. reflexivity.
  - unfold get_quiz_by_code. rewrite HQ. vm_compute. reflexivity.
Qed.

(** * Further properties of the code *)

(** ** Scoring *)

Lemma score_answer_cases (q : Question) (v : value) :
  ~ (q_type q = MULTI_SELECT /\ v = VNone) ->
  score_answer q v = Ok (points q, true) \/ score_answer q v = Ok (0%Z, false).
Proof.
  unfold score_answer. intros Hn.
  destruct (String.eqb (q_type q) SINGLE_CHOICE).
  { destruct (value_eqb _ _); auto. }
  destruct (String.eqb_spec (q_type q) MULTI_SELECT) as [Hm|Hm].
  - destruct v as [|t|l]; [exfalso; now apply Hn| |]; cbn [sorted_value];
      destruct (list_eqb _ _); auto.
  - destruct (String.eqb (q_type q) OPEN_TEXT); auto.
Qed.

(** The scoring function raises in one case only, a MULTI_SELECT question
    given [None]; otherwise it returns either the full points with
    [correct = true] or [(0, false)], and questions of any type other than
    SINGLE_CHOICE and MULTI_SELECT always get [(0, false)]. *)
Theorem score_answer_outcomes (q : Question) (v : value) :
  (q_type q = MULTI_SELECT -> v = VNone -> score_answer q v = Raise TypeError) /\
  (~ (q_type q = MULTI_SELECT /\ v = VNone) ->
   score_answer q v = Ok (points q, true) \/ score_answer q v = Ok (0%Z, false)) /\
  (q_type q <> SINGLE_CHOICE -> q_type q <> MULTI_SELECT ->
   score_answer q v = Ok (0%Z, false)).
Proof.
  split; [|split].
  - unfold score_answer. intros -> ->. reflexivity.
  - apply score_answer_cases.
  - unfold score_answer. intros H1 H2.
    apply String.eqb_neq in H1. apply String.eqb_neq in H2. rewrite H1, H2.
    now destruct (String.eqb (q_type q) OPEN_TEXT).
Qed.

Lemma score_answer_outcomes_witness :
  score_answer q_multi VNone = Raise TypeError /\
  (score_answer q_single (VList ["b"%string]) = Ok (points q_single, true) \/
   score_answer q_single (VList ["b"%string]) = Ok (0%Z, false)) /\
  score_answer (mkQuestion "1" "t" "ESSAY" 4 []) (VStr "x") = Ok (0%Z, false).
Proof.
  split; [|split].
  - apply (proj1 (score_answer_outcomes q_multi VNone)); reflexivity.
  - apply (proj1 (proj2 (score_answer_outcomes q_single (VList ["b"%string])))).
    intros [H _]. discriminate H.
  - apply (proj2 (proj2 (score_answer_outcomes
                           (mkQuestion "1" "t" "ESSAY" 4 []) (VStr "x"))));
      discriminate.
Defined.

(** The scoring step of [submit_results] never raises: the guard on [None]
    keeps the one raising case away from the scoring function.  Its result is
    the full points with [correct = true] or [(0, false)]. *)
Theorem score_submitted_total (q : Question) (v : value) :
  exists text,
    score_submitted q v = Ok (points q, true, text) \/
    score_submitted q v = Ok (0%Z, false, text).
Proof.
  unfold score_submitted.
  destruct v as [|t|[|x l]]; try (exists "N/A"%string; now right).
  - destruct (score_answer_cases q (VStr t)) as [H|H];
      [intros [_ H]; discriminate H | | ]; rewrite H; eexists; eauto.
  - destruct (score_answer_cases q (VList (x :: l))) as [H|H];
      [intros [_ H]; discriminate H | | ]; rewrite H; eexists; eauto.
Qed.

(** ** Identifiers as text *)

Lemma str_not_empty (n : nat) : str n <> EmptyString.
Proof.
  unfold str. intros H.
  assert (Hn : Nat.to_uint n <> Decimal.Nil).
  { rewrite <- (DecimalNat.Unsigned.of_to n) at 1.
    rewrite DecimalNat.Unsigned.to_of. apply DecimalFacts.unorm_nonnil. }
  destruct (Nat.to_uint n); try discriminate H. now apply Hn.
Qed.

(** A row id written with [str] is read back by [int]. *)
Lemma int_str (n : nat) : int (str n) = Ok n.
Proof.
  unfold int. pose proof (str_not_empty n) as Hne.
  destruct (str n) as [|c t] eqn:E; [now contradiction Hne|].
  rewrite <- E. unfold str. rewrite NilEmpty.usu.
  now rewrite DecimalNat.Unsigned.of_to.
Qed.

Lemma str_inj (n m : nat) : str n = str m -> n = m.
Proof.
  intros H. pose proof (int_str n) as Hn. rewrite H, int_str in Hn. congruence.
Qed.

Lemma digits_no_underscore (d : Decimal.uint) :
  ~ In "_"%char (list_ascii_of_string (NilEmpty.string_of_uint d)).
Proof.
  induction d; simpl; intros H; try contradiction;
    (destruct H as [H | H]; [discriminate H | now apply IHd]).
Qed.

Lemma str_no_underscore (n : nat) : ~ In "_"%char (list_ascii_of_string (str n)).
Proof. apply digits_no_underscore. Qed.

(** Two keys built around an underscore from underscore-free prefixes are
    equal only if both parts are. *)
Lemma key_inj (a b x y : string) :
  ~ In "_"%char (list_ascii_of_string a) ->
  ~ In "_"%char (list_ascii_of_string b) ->
  (a ++ "_" ++ x)%string = (b ++ "_" ++ y)%string -> a = b /\ x = y.
Proof.
  revert b. induction a as [|c a IH]; intros [|d b] Ha Hb H; simpl in *.
  - injection H as ->. now split.
  - injection H as <- _. exfalso. apply Hb. now left.
  - injection H as -> _. exfalso. apply Ha. now left.
  - injection H as -> H.
    destruct (IH b) as [-> ->]; auto.
Qed.

(** ** Reading a quiz back *)

Lemma select_sub_quizzes_In (S0 : list SubQuizRow) (i : nat) (r : SubQuizRow) :
  In r (select_sub_quizzes S0 i) -> In r S0 /\ sq_QuizID r = i.
Proof.
  unfold select_sub_quizzes. intros H.
  apply (Permutation_in _ (order_by_perm _ _ _)) in H.
  apply filter_In in H as [H1 H2]. split; [exact H1 | now apply Nat.eqb_eq].
Qed.

Lemma select_questions_parent (Q : list QuestionRow) (i : nat) (r : QuestionRow) :
  In r (select_questions Q i) -> q_SubQuizID r = i.
Proof.
  unfold select_questions. intros H.
  apply (Permutation_in _ (order_by_perm _ _ _)) in H.
  apply filter_In in H as [_ H2]. now apply Nat.eqb_eq.
Qed.


(** Every node of a loaded quiz comes from a stored row of the right
    parent, and its textual id reads back, with [int], as the id of that
    row: the quiz from a row carrying the code, each sub-quiz from a row of
    that quiz, each question from a row of that sub-quiz, each choice from a
    row of that question.  An OPEN_TEXT question is loaded without choices,
    whatever the Choices table holds. *)
Theorem loaded_quiz_provenance (T : tables) (code : string) (qd : quiz_data)
    (doc_id : string)
    (Hload : get_quiz_by_code T code = Some (qd, doc_id)) :
  exists header,
    In header (Quizzes T) /\ Access_Code header = code /\
    qd_title qd = Title header /\ creator_id qd = CreatorUserID header /\
    access_code qd = code /\ int doc_id = Ok (QuizID header) /\
    forall sq, In sq (sub_quizzes_json qd) ->
      exists sr,
        In sr (SubQuizzes T) /\ sq_QuizID sr = QuizID header /\
        int (sq_id sq) = Ok (SubQuizID sr) /\ title sq = sq_Title sr /\
        forall q, In q (questions sq) ->
          exists qr,
            In qr (Questions T) /\ q_SubQuizID qr = SubQuizID sr /\
            int (q_id q) = Ok (QuestionID qr) /\
            (q_type q = OPEN_TEXT -> choices q = []) /\
            forall c, In c (choices q) ->
              exists cr,
                In cr (Choices T) /\ c_QuestionID cr = QuestionID qr /\
                int (c_id c) = Ok (ChoiceID cr).
Proof.
  unfold get_quiz_by_code in Hload.
  destruct (filter _ (Quizzes T)) as [|h [|h' t]] eqn:E; cbn [fetchone] in Hload;
    [discriminate| |discriminate].
  injection Hload as <- <-.
  assert (Hin : In h (filter (fun r => String.eqb (Access_Code r) code) (Quizzes T)))
    by (rewrite E; now left).
  apply filter_In in Hin as [Hin Hc]. apply String.eqb_eq in Hc.
  exists h. cbn [qd_title creator_id access_code sub_quizzes_json].
  repeat (split; [first [assumption | reflexivity | apply int_str]|]).
  intros sq Hsq. apply in_map_iff in Hsq as (sr & <- & Hsr).
  apply select_sub_quizzes_In in Hsr as [Hsr Hfk].
  exists sr. unfold load_sub_quiz at 1 2 3. cbn [sq_id title questions].
  repeat (split; [first [assumption | reflexivity | apply int_str]|]).
  intros q Hq. apply in_map_iff in Hq as (qr & <- & Hqr).
  pose proof (select_questions_parent _ _ _ Hqr) as Hp.
  apply select_questions_In in Hqr.
  exists qr. unfold load_question. cbn [q_id q_type choices].
  repeat (split; [first [assumption | reflexivity | apply int_str]|]).
  split.
  - intros Hty. rewrite Hty. reflexivity.
  - intros c Hc'. destruct (negb _); [|contradiction].
    apply in_map_iff in Hc' as (cr & <- & Hcr).
    apply filter_In in Hcr as [Hcr Hfk']. apply Nat.eqb_eq in Hfk'.
    exists cr. repeat split; [assumption | assumption | apply int_str].
Qed.

Lemma loaded_quiz_provenance_witness :
  exists header,
    In header (Quizzes (visible sample_saved)) /\
    Access_Code header = "ABCDEF"%string /\ QuizID header = 1.
Proof.
  edestruct (loaded_quiz_provenance (visible sample_saved) "ABCDEF")
    as (h & H1 & H2 & _ & _ & _ & H3 & _).
  { vm_compute. reflexivity. }
  exists h. split; [exact H1|]. split; [exact H2|].
  vm_compute in H3. injection H3 as H3. symmetry. exact H3.
Defined.

(** ** Counters never go back *)

Section Counters.

Variable fails : nat -> bool.

Lemma counters_le_refl (s : session) : counters_le s s.
Proof. unfold counters_le. lia. Qed.

Lemma counters_le_trans (s1 s2 s3 : session) :
  counters_le s1 s2 -> counters_le s2 s3 -> counters_le s1 s3.
Proof. unfold counters_le. lia. Qed.

Lemma monotone_ret (A : Type) (a : A) : monotone (ret a).
Proof. intros s. apply counters_le_refl. Qed.

Lemma monotone_bind (A B : Type) (m : DB A) (k : A -> DB B) :
  monotone m -> (forall a, monotone (k a)) -> monotone (bind m k).
Proof.
  intros Hm Hk s. unfold bind. specialize (Hm s).
  destruct (m s) as [[a|e] s1]; cbn [snd] in *; [|exact Hm].
  eapply counters_le_trans; [exact Hm | apply Hk].
Qed.

Ltac one_insert :=
  let s := fresh "s" in
  intros s; unfold bind, statement; destruct (fails (executed s));
  cbn; unfold counters_le; simpl; lia.

Lemma monotone_insert_Quiz (c t a : string) : monotone (insert_Quiz fails c t a).
Proof. unfold insert_Quiz. one_insert. Qed.

Lemma monotone_insert_SubQuiz (q : nat) (t : string) (o : nat) :
  monotone (insert_SubQuiz fails q t o).
Proof. unfold insert_SubQuiz. one_insert. Qed.

Lemma monotone_insert_Question (i : nat) (t ty : string) (p : Z) (o : nat) :
  monotone (insert_Question fails i t ty p o).
Proof. unfold insert_Question. one_insert. Qed.

Lemma monotone_insert_Choice (i : nat) (t : string) (c : nat) :
  monotone (insert_Choice fails i t c).
Proof. unfold insert_Choice. one_insert. Qed.

Lemma monotone_insert_QuizTaker (i : nat) (n : string) (t : Z) :
  monotone (insert_QuizTaker fails i n t).
Proof. unfold insert_QuizTaker. one_insert. Qed.

Lemma monotone_insert_Answer (i j : nat) (t : string) (c : nat) (z : Z) :
  monotone (insert_Answer fails i j t c z).
Proof. unfold insert_Answer. one_insert. Qed.

Lemma monotone_commit : monotone (commit fails).
Proof. unfold commit. one_insert. Qed.

Lemma monotone_start_transaction : monotone start_transaction.
Proof. intros s. unfold counters_le. simpl. lia. Qed.

Lemma monotone_insert_choices (question_id : nat) (cs : list Choice) :
  monotone (insert_choices fails question_id cs).
Proof.
  induction cs as [|c cs IH]; cbn [insert_choices]; [apply monotone_ret|].
  apply monotone_bind; [apply monotone_insert_Choice | intros _; exact IH].
Qed.

Lemma monotone_insert_questions (subquiz_id q_idx : nat) (qs : list Question) :
  monotone (insert_questions fails subquiz_id q_idx qs).
Proof.
  revert q_idx. induction qs as [|q qs IH]; intros q_idx;
    cbn [insert_questions]; [apply monotone_ret|].
  apply monotone_bind; [apply monotone_insert_Question|]. intros question_id.
  apply monotone_bind; [|intros _; apply IH].
  destruct (negb _); [apply monotone_insert_choices | apply monotone_ret].
Qed.

Lemma monotone_insert_sub_quizzes (quiz_id sq_idx : nat) (sqs : list SubQuiz) :
  monotone (insert_sub_quizzes fails quiz_id sq_idx sqs).
Proof.
  revert sq_idx. induction sqs as [|sq sqs IH]; intros sq_idx;
    cbn [insert_sub_quizzes]; [apply monotone_ret|].
  apply monotone_bind; [apply monotone_insert_SubQuiz|]. intros subquiz_id.
  apply monotone_bind; [apply monotone_insert_questions | intros _; apply IH].
Qed.

Lemma monotone_insert_answers (taker_id : nat) (l : list pending_answer) :
  monotone (insert_answers fails taker_id l).
Proof.
  induction l as [|a l IH]; cbn [insert_answers]; [apply monotone_ret|].
  apply monotone_bind; [apply monotone_insert_Answer | intros _; exact IH].
Qed.

Lemma monotone_save_quiz_try (draw : nat -> nat) (quiz_title : string)
    (sqs : list SubQuiz) :
  monotone (save_quiz_try fails draw quiz_title sqs).
Proof.
  unfold save_quiz_try.
  apply monotone_bind; [apply monotone_start_transaction|]. intros _.
  apply monotone_bind; [apply monotone_insert_Quiz|]. intros quiz_id.
  apply monotone_bind; [apply monotone_insert_sub_quizzes|]. intros _.
  apply monotone_bind; [apply monotone_commit | intros _; apply monotone_ret].
Qed.

Lemma monotone_submit_try (quiz_id : nat) (name : string) (total : Z)
    (l : list pending_answer) :
  monotone (submit_try fails quiz_id name total l).
Proof.
  unfold submit_try.
  apply monotone_bind; [apply monotone_start_transaction|]. intros _.
  apply monotone_bind; [apply monotone_insert_QuizTaker|]. intros taker_id.
  apply monotone_bind; [apply monotone_insert_answers|]. intros _.
  apply monotone_commit.
Qed.

(** The rows of a committed save, with the ranges of their keys. *)
Lemma save_quiz_try_ok_full (draw : nat -> nat) (quiz_title : string)
    (sqs : list SubQuiz) (s s' : session) (code : string) :
  save_quiz_try fails draw quiz_title sqs s = (Ok code, s') ->
  next_QuizID s' = S (next_QuizID s) /\
  exists srows qrows crows,
    Quizzes (visible s') =
      Quizzes (visible s) ++ [mkQuizRow (next_QuizID s) user_id quiz_title code] /\
    SubQuizzes (visible s') = SubQuizzes (visible s) ++ srows /\
    Questions (visible s') = Questions (visible s) ++ qrows /\
    Choices (visible s') = Choices (visible s) ++ crows /\
    QuizTakers (visible s') = QuizTakers (visible s) /\
    Answers (visible s') = Answers (visible s) /\
    Forall (fun r => sq_QuizID r = next_QuizID s /\
                     next_SubQuizID s <= SubQuizID r < next_SubQuizID s') srows /\
    Forall (fun r => (next_SubQuizID s <= q_SubQuizID r < next_SubQuizID s') /\
                     (next_QuestionID s <= QuestionID r < next_QuestionID s')) qrows /\
    Forall (fun r => next_QuestionID s <= c_QuestionID r < next_QuestionID s') crows.
Proof.
  unfold save_quiz_try. intros H.
  apply bind_ok in H as (u0 & s0 & H0 & H).
  apply bind_ok in H as (quiz_id & s1 & H1 & H).
  apply bind_ok in H as (u2 & s2 & H2 & H).
  apply bind_ok in H as (u3 & s3 & H3 & H).
  unfold ret in H. injection H as <- <-.
  unfold start_transaction in H0. injection H0 as _ <-.
  unfold insert_Quiz, bind, statement in H1. cbn [executed set_working] in H1.
  destruct (fails (executed s)); [discriminate|]. injection H1 as <- <-.
  unfold commit, bind, statement in H3.
  destruct (fails (executed s2)); [discriminate|]. injection H3 as _ <-.
  apply (insert_sub_quizzes_ok fails) in H2
    as (srows & qrows & crows & G & _ & _ & _ & Fs & _ & Fq & Fc & _).
  destruct G as (G1 & G2 & G3 & G4 & G5 & G6 & G7 & G8 & G9).
  cbn in G1, G2, G3, G4, G5, G6, G7, G8, G9, Fs, Fq, Fc. cbn.
  split; [lia|]. exists srows, qrows, crows.
  repeat (split; [assumption|]). exact Fc.
Qed.

End Counters.

(** ** The store across transactions *)

Lemma save_quiz_result (fails : nat -> bool) (connected : bool) (draw : nat -> nat)
    (quiz_title : string) (sqs : list SubQuiz) (s : session) :
  (exists code s1,
     save_quiz_try fails draw quiz_title sqs s = (Ok code, s1) /\
     save_quiz fails connected draw quiz_title sqs s = (Saved code, close s1)) \/
  (visible (snd (save_quiz fails connected draw quiz_title sqs s)) = visible s /\
   counters_le s (snd (save_quiz fails connected draw quiz_title sqs s)) /\
   forall code, fst (save_quiz fails connected draw quiz_title sqs s) <> Saved code).
Proof.
  unfold save_quiz. destruct connected; cbn [negb].
  2:{ right. cbn. split; [reflexivity|]. split; [apply counters_le_refl | discriminate]. }
  pose proof (transactional_save_quiz_try fails draw quiz_title sqs s) as T.
  pose proof (monotone_save_quiz_try fails draw quiz_title sqs s) as M.
  destruct (save_quiz_try fails draw quiz_title sqs s) as [[code|e] s1].
  - left. exists code, s1. split; reflexivity.
  - right. destruct T as (-> & Hv & _). cbn in *.
    split; [exact Hv|]. split; [exact M | discriminate].
Qed.

Lemma submit_results_result (fails : nat -> bool) (connected : bool)
    (st : quiz_state) (s : session) :
  let s' := snd (submit_results fails connected st s) in
  Quizzes (visible s') = Quizzes (visible s) /\
  SubQuizzes (visible s') = SubQuizzes (visible s) /\
  Questions (visible s') = Questions (visible s) /\
  Choices (visible s') = Choices (visible s) /\
  counters_le s s'.
Proof.
  unfold submit_results. destruct connected; cbn [negb].
  2:{ cbn. repeat (split; [reflexivity|]). apply counters_le_refl. }
  destruct (int (qs_id st)) as [quiz_id|e].
  2:{ cbn. repeat (split; [reflexivity|]). apply counters_le_refl. }
  destruct (process_answers _ _ _) as [[total l]|e].
  2:{ cbn. repeat (split; [reflexivity|]). apply counters_le_refl. }
  pose proof (transactional_submit_try fails quiz_id (taker_name st) total l s) as T.
  pose proof (monotone_submit_try fails quiz_id (taker_name st) total l s) as M.
  destruct (submit_try fails quiz_id (taker_name st) total l s) as [[u|e] s1] eqn:Hrun.
  - apply submit_try_ok in Hrun as (H1 & H2 & H3 & H4 & _). cbn in *.
    repeat (split; [assumption|]). exact M.
  - destruct T as (-> & Hv & _). cbn in *. rewrite Hv.
    repeat (split; [reflexivity|]). exact M.
Qed.

Lemma well_formed_frame (s s' : session) :
  Quizzes (visible s') = Quizzes (visible s) ->
  SubQuizzes (visible s') = SubQuizzes (visible s) ->
  Questions (visible s') = Questions (visible s) ->
  Choices (visible s') = Choices (visible s) ->
  counters_le s s' -> well_formed s -> well_formed s'.
Proof.
  intros E1 E2 E3 E4 (L1 & L2 & L3) ((K1 & K2 & K3) & (I1 & I2 & I3)).
  unfold well_formed, keys_issued, ids_issued. rewrite E1, E2, E3, E4.
  repeat split;
    [ eapply Forall_impl; [|exact K1] | eapply Forall_impl; [|exact K2]
    | eapply Forall_impl; [|exact K3] | eapply Forall_impl; [|exact I1]
    | eapply Forall_impl; [|exact I2] | eapply Forall_impl; [|exact I3] ];
    cbv beta; intros; lia.
Qed.

Lemma well_formed_kept (fails : nat -> bool) (connected : bool) (s : session) :
  well_formed s ->
  (forall draw quiz_title sqs,
     well_formed (snd (save_quiz fails connected draw quiz_title sqs s))) /\
  (forall st, well_formed (snd (submit_results fails connected st s))).
Proof.
  intros Hs. split.
  - intros draw quiz_title sqs.
    destruct (save_quiz_result fails connected draw quiz_title sqs s)
      as [(code & s1 & Hrun & ->) | (Hv & Hc & _)].
    + pose proof (monotone_save_quiz_try fails draw quiz_title sqs s) as M.
      rewrite Hrun in M. destruct M as (M1 & M2 & M3). cbn [snd] in *.
      apply save_quiz_try_ok_full in Hrun
        as (N & srows & qrows & crows & E1 & E2 & E3 & E4 & _ & _ & Fs & Fq & Fc).
      destruct Hs as ((K1 & K2 & K3) & (I1 & I2 & I3)).
      unfold well_formed, keys_issued, ids_issued. cbn [close set_working visible
        next_QuizID next_SubQuizID next_QuestionID].
      rewrite E1, E2, E3, E4.
      repeat split; apply Forall_app; split;
        [ eapply Forall_impl; [|exact K1] | eapply Forall_impl; [|exact Fs]
        | eapply Forall_impl; [|exact K2] | eapply Forall_impl; [|exact Fq]
        | eapply Forall_impl; [|exact K3] | eapply Forall_impl; [|exact Fc]
        | eapply Forall_impl; [|exact I1] | repeat constructor; cbn; lia
        | eapply Forall_impl; [|exact I2] | eapply Forall_impl; [|exact Fs]
        | eapply Forall_impl; [|exact I3] | eapply Forall_impl; [|exact Fq] ];
        cbv beta; intros; lia.
    + apply (well_formed_frame s); try (now rewrite Hv); assumption.
  - intros st.
    destruct (submit_results_result fails connected st s) as (E1 & E2 & E3 & E4 & Hc).
    now apply (well_formed_frame s).
Qed.

(** *** The remaining keys *)

Section RestIssued.

Variable fails : nat -> bool.

Lemma keeps_ret (I : session -> Prop) (A : Type) (a : A) : keeps I (ret a).
Proof. intros s H. exact H. Qed.

Lemma keeps_bind (I : session -> Prop) (A B : Type) (m : DB A) (k : A -> DB B) :
  keeps I m -> (forall a, keeps I (k a)) -> keeps I (bind m k).
Proof.
  intros Hm Hk s H. unfold bind. specialize (Hm s H).
  destruct (m s) as [[a|e] s1]; cbn [snd] in *; [now apply Hk | exact Hm].
Qed.

Ltac bounded :=
  first [ assumption
        | eapply Forall_impl; [|eassumption]; cbv beta; intros; lia
        | apply Forall_app; split;
          [ eapply Forall_impl; [|eassumption]; cbv beta; intros; lia
          | repeat constructor; cbn; lia ] ].

Ltac rest_kept :=
  let s := fresh "s" in
  intros s [(V1 & V2 & V3) (W1 & W2 & W3)];
  unfold bind, statement; destruct (fails (executed s));
  unfold rest_issued, rest_issued_in; cbn; repeat split; bounded.

Ltac taker_kept :=
  let s := fresh "s" in
  intros s [[(V1 & V2 & V3) (W1 & W2 & W3)] Ht];
  unfold bind, statement; destruct (fails (executed s));
  unfold taker_known, rest_issued, rest_issued_in; cbn;
  (split; [repeat split; bounded | lia]).

Lemma keeps_insert_Quiz (c ti a : string) : keeps rest_issued (insert_Quiz fails c ti a).
Proof. unfold insert_Quiz. rest_kept. Qed.

Lemma keeps_insert_SubQuiz (q : nat) (ti : string) (o : nat) :
  keeps rest_issued (insert_SubQuiz fails q ti o).
Proof. unfold insert_SubQuiz. rest_kept. Qed.

Lemma keeps_insert_Question (i : nat) (tx ty : string) (p : Z) (o : nat) :
  keeps rest_issued (insert_Question fails i tx ty p o).
Proof. unfold insert_Question. rest_kept. Qed.

Lemma keeps_insert_Choice (i : nat) (tx : string) (c : nat) :
  keeps rest_issued (insert_Choice fails i tx c).
Proof. unfold insert_Choice. rest_kept. Qed.

Lemma keeps_commit : keeps rest_issued (commit fails).
Proof. unfold commit. rest_kept. Qed.

Lemma keeps_insert_Answer (t j : nat) (tx : string) (c : nat) (z : Z) :
  keeps (taker_known t) (insert_Answer fails t j tx c z).
Proof. unfold insert_Answer. taker_kept. Qed.

Lemma keeps_commit_taker (t : nat) : keeps (taker_known t) (commit fails).
Proof. unfold commit. taker_kept. Qed.

Lemma keeps_insert_choices (question_id : nat) (cs : list Choice) :
  keeps rest_issued (insert_choices fails question_id cs).
Proof.
  induction cs as [|c cs IH]; cbn [insert_choices]; [apply keeps_ret|].
  apply keeps_bind; [apply keeps_insert_Choice | intros _; exact IH].
Qed.

Lemma keeps_insert_questions (subquiz_id q_idx : nat) (qs : list Question) :
  keeps rest_issued (insert_questions fails subquiz_id q_idx qs).
Proof.
  revert q_idx. induction qs as [|q qs IH]; intros q_idx;
    cbn [insert_questions]; [apply keeps_ret|].
  apply keeps_bind; [apply keeps_insert_Question|]. intros question_id.
  apply keeps_bind; [|intros _; apply IH].
  destruct (negb _); [apply keeps_insert_choices | apply keeps_ret].
Qed.

Lemma keeps_insert_sub_quizzes (quiz_id sq_idx : nat) (sqs : list SubQuiz) :
  keeps rest_issued (insert_sub_quizzes fails quiz_id sq_idx sqs).
Proof.
  revert sq_idx. induction sqs as [|sq sqs IH]; intros sq_idx;
    cbn [insert_sub_quizzes]; [apply keeps_ret|].
  apply keeps_bind; [apply keeps_insert_SubQuiz|]. intros subquiz_id.
  apply keeps_bind; [apply keeps_insert_questions | intros _; apply IH].
Qed.

Lemma keeps_insert_answers (t : nat) (l : list pending_answer) :
  keeps (taker_known t) (insert_answers fails t l).
Proof.
  induction l as [|a l IH]; cbn [insert_answers]; [apply keeps_ret|].
  apply keeps_bind; [apply keeps_insert_Answer | intros _; exact IH].
Qed.

(** The taker row gets the next id, which is known from then on. *)
Lemma insert_QuizTaker_known (quiz_id : nat) (name : string) (total : Z) (s : session) :
  rest_issued s ->
  match insert_QuizTaker fails quiz_id name total s with
  | (Ok taker_id, s') => taker_known taker_id s'
  | (Raise _, s') => rest_issued s'
  end.
Proof.
  intros [(V1 & V2 & V3) (W1 & W2 & W3)].
  unfold insert_QuizTaker, bind, statement. destruct (fails (executed s));
    unfold taker_known, rest_issued, rest_issued_in; cbn.
  - repeat split; bounded.
  - split; [repeat split; bounded | lia].
Qed.

Lemma rest_issued_start (s : session) :
  rest_issued_in (visible s) s -> rest_issued (set_working (visible s) s).
Proof. intros H. split; exact H. Qed.

Lemma save_quiz_try_keeps (draw : nat -> nat) (quiz_title : string)
    (sqs : list SubQuiz) (s : session) :
  rest_issued_in (visible s) s ->
  rest_issued (snd (save_quiz_try fails draw quiz_title sqs s)).
Proof.
  intros H. apply rest_issued_start in H. revert H.
  unfold save_quiz_try. unfold bind at 1. cbn [start_transaction].
  generalize (set_working (visible s) s). intros s0 H. revert s0 H.
  change (keeps rest_issued
            (quiz_id <- insert_Quiz fails user_id quiz_title (generate_access_code 6 draw) ;;
             insert_sub_quizzes fails quiz_id 0 sqs ;;;
             commit fails ;;; ret (generate_access_code 6 draw))).
  apply keeps_bind; [apply keeps_insert_Quiz|]. intros quiz_id.
  apply keeps_bind; [apply keeps_insert_sub_quizzes|]. intros _.
  apply keeps_bind; [apply keeps_commit | intros _; apply keeps_ret].
Qed.

Lemma submit_try_keeps (quiz_id : nat) (name : string) (total : Z)
    (l : list pending_answer) (s : session) :
  rest_issued_in (visible s) s ->
  rest_issued (snd (submit_try fails quiz_id name total l s)).
Proof.
  intros H. apply rest_issued_start in H. revert H.
  unfold submit_try. unfold bind at 1. cbn [start_transaction].
  generalize (set_working (visible s) s). intros s0 H.
  unfold bind at 1.
  pose proof (insert_QuizTaker_known quiz_id name total s0 H) as K.
  destruct (insert_QuizTaker fails quiz_id name total s0) as [[t|e] s1];
    cbn [snd]; [|exact K].
  apply (keeps_bind (taker_known t) _ _ _ _ (keeps_insert_answers t l)
                    (fun _ => keeps_commit_taker t) s1 K).
Qed.

Lemma rest_issued_closed (s : session) :
  rest_issued s ->
  rest_issued_in (visible (close s)) (close s) /\
  rest_issued_in (visible (close (rollback s))) (close (rollback s)).
Proof. intros [H _]. split; exact H. Qed.

Lemma rest_issued_kept (connected : bool) (s : session) :
  rest_issued_in (visible s) s ->
  (forall draw quiz_title sqs,
     let s' := snd (save_quiz fails connected draw quiz_title sqs s) in
     rest_issued_in (visible s') s') /\
  (forall st,
     let s' := snd (submit_results fails connected st s) in
     rest_issued_in (visible s') s').
Proof.
  intros H. split.
  - intros draw quiz_title sqs. cbv zeta. unfold save_quiz.
    destruct connected; cbn [negb]; [|exact H].
    pose proof (save_quiz_try_keeps draw quiz_title sqs s H) as K.
    destruct (save_quiz_try fails draw quiz_title sqs s) as [[c|e] s1]; cbn [snd] in *.
    + apply (rest_issued_closed s1 K).
    + destruct e; cbn [snd]; apply (rest_issued_closed s1 K).
  - intros st. cbv zeta. unfold submit_results.
    destruct connected; cbn [negb]; [|exact H].
    destruct (int (qs_id st)) as [quiz_id|e]; [|exact H].
    destruct (process_answers _ _ _) as [[total l]|e]; [|exact H].
    pose proof (submit_try_keeps quiz_id (taker_name st) total l s H) as K.
    destruct (submit_try fails quiz_id (taker_name st) total l s) as [[u|e] s1];
      cbn [snd] in *.
    + apply (rest_issued_closed s1 K).
    + destruct e; cbn [snd]; apply (rest_issued_closed s1 K).
Qed.

End RestIssued.

(** Both transactions keep the keys of the store consistent with its
    counters.  If every primary key of the committed rows (the ids of
    quizzes, sub-quizzes, questions, choices and takers) is below the counter
    of its table, and every reference that the code fills with an id it has
    just been given (the quiz of a sub-quiz, the sub-quiz of a question, the
    question of a choice, the taker of an answer) names an id already handed
    out, then the same holds after [save_quiz] and after [submit_results],
    whatever their outcome.  The quiz of a taker and the question of an
    answer are copied from the session state and are not covered. *)
Theorem store_stays_well_formed (fails : nat -> bool) (connected : bool)
    (s : session) (Hs : store_consistent s) :
  (forall draw quiz_title sqs,
     store_consistent (snd (save_quiz fails connected draw quiz_title sqs s))) /\
  (forall st, store_consistent (snd (submit_results fails connected st s))).
Proof.
  destruct Hs as [Hw Hr].
  destruct (well_formed_kept fails connected s Hw) as [W1 W2].
  destruct (rest_issued_kept fails connected s Hr) as [R1 R2].
  split.
  - intros draw quiz_title sqs. split; [apply W1 | apply R1].
  - intros st. split; [apply W2 | apply R2].
Qed.

Lemma store_stays_well_formed_witness :
  store_consistent sample_saved /\
  store_consistent
    (snd (save_quiz no_faults true (fun i => i + 6) "Quiz" sample_tree sample_saved)) /\
  store_consistent (snd (submit_results no_faults true sample_state sample_saved)).
Proof.
  assert (H : store_consistent sample_saved).
  { unfold sample_saved.
    apply (proj1 (store_stays_well_formed no_faults true empty_session
                    (conj (conj (conj (Forall_nil _) (conj (Forall_nil _) (Forall_nil _)))
                                (conj (Forall_nil _) (conj (Forall_nil _) (Forall_nil _))))
                          (conj (Forall_nil _) (conj (Forall_nil _) (Forall_nil _)))))). }
  split; [exact H|]. split.
  - apply (proj1 (store_stays_well_formed no_faults true sample_saved H)).
  - apply (proj2 (store_stays_well_formed no_faults true sample_saved H)).
Defined.


Lemma get_quiz_by_code_ext (T T' : tables) (code : string) :
  Quizzes T' = Quizzes T -> SubQuizzes T' = SubQuizzes T ->
  Questions T' = Questions T -> Choices T' = Choices T ->
  get_quiz_by_code T' code = get_quiz_by_code T code.
Proof. intros E1 E2 E3 E4. unfold get_quiz_by_code. now rewrite E1, E2, E3, E4. Qed.




(** The two transactions keep to their own tables.  [submit_results] never
    changes the four tables of quiz definitions, so every lookup answers
    after it as before; [save_quiz] never changes the tables of attempts and
    answers.  This holds for every outcome of either call. *)
Theorem transactions_keep_to_their_tables (fails : nat -> bool) (connected : bool)
    (s : session) :
  (forall st code,
     get_quiz_by_code (visible (snd (submit_results fails connected st s))) code =
     get_quiz_by_code (visible s) code) /\
  (forall draw quiz_title sqs,
     QuizTakers (visible (snd (save_quiz fails connected draw quiz_title sqs s))) =
       QuizTakers (visible s) /\
     Answers (visible (snd (save_quiz fails connected draw quiz_title sqs s))) =
       Answers (visible s)).
Proof.
  split.
  - intros st code.
    destruct (submit_results_result fails connected st s) as (E1 & E2 & E3 & E4 & _).
    now apply get_quiz_by_code_ext.
  - intros draw quiz_title sqs.
    destruct (save_quiz_result fails connected draw quiz_title sqs s)
      as [(c & s1 & Hrun & ->) | (Hv & _)]; [|now rewrite Hv].
    cbn [snd close set_working visible].
    apply save_quiz_try_ok_full in Hrun
      as (_ & srows & qrows & crows & _ & _ & _ & _ & E5 & E6 & _).
    split; assumption.
Qed.

(** ** Listing the quizzes of the creator *)

(** After a save on which no statement fails, the creator's list shows the
    quizzes it showed before followed by the new one, under its new id and
    title; after a failed save the list is unchanged; without a connection
    the list is empty. *)
Theorem get_quiz_list_after_save (fails : nat -> bool) (draw : nat -> nat)
    (quiz_title : string) (sqs : list SubQuiz) (s : session) :
  let s' := snd (save_quiz fails true draw quiz_title sqs s) in
  ((forall k, k < save_statements sqs -> fails (executed s + k) = false) ->
   get_quiz_list true (visible s') user_id =
     get_quiz_list true (visible s) user_id ++ [(next_QuizID s, quiz_title)]) /\
  ((exists k, k < save_statements sqs /\ fails (executed s + k) = true) ->
   get_quiz_list true (visible s') user_id = get_quiz_list true (visible s) user_id) /\
  get_quiz_list false (visible s') user_id = [].
Proof.
  intros s'. subst s'. split; [|split]; [| |reflexivity].
  - intros Hno.
    destruct (save_quiz_commits fails draw quiz_title sqs s Hno) as (_ & HQ & _).
    unfold get_quiz_list. cbn [negb]. rewrite HQ, filter_app, map_app.
    cbn. reflexivity.
  - intros (k & Hk & Hf).
    destruct (save_quiz_rolls_back fails draw quiz_title sqs s k Hk Hf) as (_ & Hv & _).
    now rewrite Hv.
Qed.

Lemma get_quiz_list_after_save_witness :
  get_quiz_list true (visible sample_saved) user_id = [(1, "Quiz"%string)].
Proof.
  unfold sample_saved.
  rewrite (proj1 (get_quiz_list_after_save no_faults (fun i => i) "Quiz" sample_tree
                                           empty_session)).
  - reflexivity.
  - intros k _. reflexivity.
Defined.

(** ** Labels of the choices *)

Lemma ui_letter_spec (i : nat) :
  (i < 26 -> ui_letter i = Ok (String (ascii_of_nat (97 + i)) EmptyString)) /\
  (26 <= i -> ui_letter i = Raise IndexError).
Proof.
  unfold ui_letter. split; intros H.
  - do 26 (destruct i as [|i]; [reflexivity|]). lia.
  - do 26 (destruct i as [|i]; [lia|]). now destruct i.
Qed.

Lemma ui_letter_inj (i j : nat) (u : string) :
  ui_letter i = Ok u -> ui_letter j = Ok u -> i = j.
Proof.
  intros Hi Hj.
  destruct (Nat.lt_ge_cases i 26) as [Li|Li];
    [|rewrite (proj2 (ui_letter_spec i) Li) in Hi; discriminate].
  destruct (Nat.lt_ge_cases j 26) as [Lj|Lj];
    [|rewrite (proj2 (ui_letter_spec j) Lj) in Hj; discriminate].
  rewrite (proj1 (ui_letter_spec i) Li) in Hi.
  rewrite (proj1 (ui_letter_spec j) Lj) in Hj.
  rewrite <- Hi in Hj. injection Hj as Hj.
  apply (f_equal nat_of_ascii) in Hj.
  rewrite !nat_ascii_embedding in Hj by lia. lia.
Qed.

Lemma ui_letter_not_empty (i : nat) (u : string) :
  ui_letter i = Ok u -> u <> EmptyString.
Proof.
  unfold ui_letter. destruct (nth_error _ i); intros [= <-]. discriminate.
Qed.

(** The labelling goes through exactly when the letters suffice, and then
    pairs the choices, in order, with the letters from position [idx]. *)
Lemma assign_ui_ids_spec (cs : list Choice) :
  forall idx,
    (idx + List.length cs <= 26 ->
     exists l, assign_ui_ids idx cs = Ok l /\ map snd l = cs /\
               forall i u c, nth_error l i = Some (u, c) -> ui_letter (idx + i) = Ok u) /\
    (idx <= 26 -> 26 < idx + List.length cs ->
     assign_ui_ids idx cs = Raise IndexError).
Proof.
  induction cs as [|c cs IH]; intros idx; cbn [assign_ui_ids List.length].
  - split; [|lia]. intros _. exists []. repeat split. intros [|i] u c H; discriminate H.
  - destruct (IH (S idx)) as [IHok IHko]. split; [intros H | intros H0 H].
    + rewrite (proj1 (ui_letter_spec idx)) by lia.
      destruct IHok as (l & -> & Hl & Hn); [lia|].
      eexists. split; [reflexivity|]. split; [cbn [map snd]; now rewrite Hl|].
      intros [|i] u c' Hi; cbn [nth_error] in Hi.
      * injection Hi as <- <-. rewrite Nat.add_0_r.
        apply (proj1 (ui_letter_spec idx)). lia.
      * replace (idx + S i) with (S idx + i) by lia. eapply Hn; eauto.
    + destruct (Nat.lt_ge_cases idx 26) as [L|L].
      * rewrite (proj1 (ui_letter_spec idx) L), IHko by lia. reflexivity.
      * now rewrite (proj2 (ui_letter_spec idx) L).
Qed.

Lemma find_ui_nth (l : list (string * Choice)) (idx : nat) :
  (forall i u c, nth_error l i = Some (u, c) -> ui_letter (idx + i) = Ok u) ->
  forall i u c, nth_error l i = Some (u, c) -> find_ui u l = Some c.
Proof.
  revert idx. induction l as [|[u0 c0] l IH]; intros idx Hl [|i] u c Hi;
    cbn in Hi; try discriminate.
  - injection Hi as <- <-. cbn. now rewrite String.eqb_refl.
  - cbn [find_ui]. destruct (String.eqb_spec u0 u) as [->|Hne].
    + exfalso. pose proof (Hl 0 u c0 eq_refl) as H0.
      pose proof (Hl (S i) u c Hi) as H1.
      pose proof (ui_letter_inj _ _ _ H0 H1). lia.
    + apply (IH (S idx)) with (i := i); [|exact Hi].
      intros j u' c' Hj. replace (S idx + j) with (idx + S j) by lia.
      exact (Hl (S j) u' c' Hj).
Qed.

Lemma ui_letter_labels (idx : nat) (u : string) :
  ui_letter idx = Ok u -> skipn idx labels = u :: skipn (S idx) labels.
Proof.
  unfold ui_letter.
  do 26 (destruct idx as [|idx]; [intros [= <-]; reflexivity|]).
  now destruct idx.
Qed.

Lemma assign_ui_ids_labels (cs : list Choice) :
  forall idx l,
    assign_ui_ids idx cs = Ok l ->
    map fst l = firstn (List.length cs) (skipn idx labels).
Proof.
  induction cs as [|c cs IH]; intros idx l H; cbn [assign_ui_ids] in H.
  - injection H as <-. reflexivity.
  - destruct (ui_letter idx) as [u|] eqn:U; [|discriminate H].
    destruct (assign_ui_ids (S idx) cs) as [l'|] eqn:A; [|discriminate H].
    injection H as <-. cbn [map fst List.length].
    rewrite (ui_letter_labels _ _ U). cbn [firstn]. f_equal. now apply IH.
Qed.

(** The letters label the choices without ambiguity.  A question with at
    most 26 choices gets its choices labelled in order, the first with a, the
    second with b, and so on for a question that is not OPEN_TEXT; selecting
    the label of a choice in the radio of a SINGLE_CHOICE question records
    the id of that very choice.  A question that is not OPEN_TEXT and has
    more than 26 choices cannot be labelled: the lookup raises
    [IndexError]. *)
Theorem radio_selects_the_choice (q : Question) :
  (List.length (choices q) <= 26 ->
   exists labelled,
     ui_choices q = Ok labelled /\ map snd labelled = choices q /\
     (q_type q <> OPEN_TEXT ->
      map fst labelled =
        firstn (List.length (choices q))
          ["a"; "b"; "c"; "d"; "e"; "f"; "g"; "h"; "i"; "j"; "k"; "l"; "m";
           "n"; "o"; "p"; "q"; "r"; "s"; "t"; "u"; "v"; "w"; "x"; "y"; "z"]%string) /\
     (q_type q = SINGLE_CHOICE ->
      forall i u c boxes text,
        nth_error labelled i = Some (u, c) ->
        capture_answer q labelled (mkWidgets (Some u) boxes text) = VStr (c_id c))) /\
  (26 < List.length (choices q) -> q_type q <> OPEN_TEXT ->
   ui_choices q = Raise IndexError).
Proof.
  unfold ui_choices. split.
  - intros Hlen. destruct (String.eqb_spec (q_type q) OPEN_TEXT) as [Ho|Ho]; cbn [negb].
    + eexists. split; [reflexivity|]. split; [|split].
      * rewrite map_map. cbn. apply map_id.
      * intros Hn. now elim Hn.
      * intros Hs. rewrite Hs in Ho. discriminate Ho.
    + destruct (proj1 (assign_ui_ids_spec (choices q) 0)) as (l & E & Hl & Hn); [lia|].
      exists l. split; [exact E|]. split; [exact Hl|]. split.
      * intros _. exact (assign_ui_ids_labels (choices q) 0 l E).
      * intros Hs i u c boxes text Hi. unfold capture_answer. rewrite Hs.
        cbn [String.eqb radio].
        change (String.eqb SINGLE_CHOICE SINGLE_CHOICE) with true. cbv iota.
        pose proof (ui_letter_not_empty _ _ (Hn i u c Hi)) as Hne.
        apply String.eqb_neq in Hne. rewrite Hne.
        now rewrite (find_ui_nth l 0 Hn i u c Hi).
  - intros Hlen Ho. apply String.eqb_neq in Ho. rewrite Ho. cbn [negb].
    apply (proj2 (assign_ui_ids_spec (choices q) 0)); lia.
Qed.

Lemma radio_selects_the_choice_witness :
  ui_choices q_single = Ok [("a"%string, mkChoice "a" "A" false);
                            ("b"%string, mkChoice "b" "B" true);
                            ("c"%string, mkChoice "c" "C" true)] /\
  capture_answer q_single [("a"%string, mkChoice "a" "A" false);
                           ("b"%string, mkChoice "b" "B" true);
                           ("c"%string, mkChoice "c" "C" true)]
                 (mkWidgets (Some "b"%string) (fun _ => false) "")
  = VStr "b".
Proof.
  destruct (proj1 (radio_selects_the_choice q_single)) as (l & E & _ & _ & H).
  - cbn. lia.
  - vm_compute in E. injection E as <-. split; [reflexivity|].
    apply (H eq_refl 1 "b"%string (mkChoice "b" "B" true)). reflexivity.
Defined.

(** ** Walking through a quiz *)

Lemma skipn_nth_error (A : Type) (l : list A) (n : nat) :
  skipn n l = match nth_error l n with
              | Some x => x :: skipn (S n) l
              | None => []
              end.
Proof.
  revert n. induction l as [|x l IH]; intros [|n]; try reflexivity.
  cbn [skipn nth_error]. rewrite IH. now destruct (nth_error l n).
Qed.

Lemma remaining_shown (sqs : list SubQuiz) (i j : nat) (sq : SubQuiz) (q : Question) :
  nth_error sqs i = Some sq -> nth_error (questions sq) j = Some q ->
  remaining sqs i j = q :: remaining sqs i (S j) /\
  remaining_keys sqs i j = session_key sq q :: remaining_keys sqs i (S j).
Proof.
  intros Hsq Hq. unfold remaining, remaining_keys. rewrite Hsq.
  rewrite (skipn_nth_error _ (questions sq) j), Hq. split; reflexivity.
Qed.

Lemma lookup_keys_cons (sq : SubQuiz) (l : list SubQuiz) :
  map fst (question_lookup (sq :: l)) =
  map (session_key sq) (questions sq) ++ map fst (question_lookup l).
Proof.
  unfold question_lookup. cbn [flat_map]. rewrite map_app, map_map. cbn.
  reflexivity.
Qed.

Lemma remaining_advanced (sqs : list SubQuiz) (i j : nat) (sq : SubQuiz) :
  nth_error sqs i = Some sq -> nth_error (questions sq) j = None ->
  remaining sqs i j = remaining sqs (S i) 0 /\
  remaining_keys sqs i j = remaining_keys sqs (S i) 0.
Proof.
  intros Hsq Hq. unfold remaining, remaining_keys. rewrite Hsq.
  rewrite (skipn_nth_error _ (questions sq) j), Hq.
  rewrite (skipn_nth_error _ sqs (S i)).
  destruct (nth_error sqs (S i)) as [sq'|]; split; try reflexivity.
  now rewrite lookup_keys_cons.
Qed.

Lemma dict_set_new (d : list (string * value)) (k : string) (v : value) :
  ~ In k (map fst d) -> dict_set d k v = d ++ [(k, v)].
Proof.
  induction d as [|[k' v'] d IH]; intros H; cbn [dict_set app]; [reflexivity|].
  destruct (String.eqb_spec k' k) as [->|Hne].
  - exfalso. apply H. now left.
  - f_equal. apply IH. intros Hin. apply H. now right.
Qed.

Lemma dict_set_last (d : list (string * value)) (k : string) (v0 v : value) :
  ~ In k (map fst d) -> dict_set (d ++ [(k, v0)]) k v = d ++ [(k, v)].
Proof.
  induction d as [|[k' v'] d IH]; intros H; cbn [dict_set app].
  - now rewrite String.eqb_refl.
  - destruct (String.eqb_spec k' k) as [->|Hne].
    + exfalso. apply H. now left.
    + f_equal. apply IH. intros Hin. apply H. now right.
Qed.

(** The invariant of a session between two runs: the answers stored so far
    are those of the questions left behind, [done], followed, if the current
    question has already been shown, by one entry under its key. *)
Lemma run_active_spec (inputs : list (widgets * bool)) :
  forall (t : taking) (done : list (string * value)) (shown_already : bool)
         (trace : list shown_event) (t' : taking),
    NoDup (remaining_keys (sub_quizzes (quiz t)) (current_subquiz_index t)
                          (current_question_index t)) ->
    (forall k, In k (map fst done) ->
               ~ In k (remaining_keys (sub_quizzes (quiz t)) (current_subquiz_index t)
                                      (current_question_index t))) ->
    (if shown_already
     then exists sq q v,
            nth_error (sub_quizzes (quiz t)) (current_subquiz_index t) = Some sq /\
            nth_error (questions sq) (current_question_index t) = Some q /\
            answers (quiz t) = done ++ [(session_key sq q, v)]
     else answers (quiz t) = done) ->
    run_active inputs t = Ok (trace, t', true) ->
    map ev_question (filter ev_next trace) =
      remaining (sub_quizzes (quiz t)) (current_subquiz_index t)
                (current_question_index t) /\
    answers (quiz t') = done ++ map stored_answer (filter ev_next trace) /\
    sub_quizzes (quiz t') = sub_quizzes (quiz t) /\ qs_id (quiz t') = qs_id (quiz t) /\
    taker_name (quiz t') = taker_name (quiz t) /\ data t' = data t.
Proof.
  induction inputs as [|[w pressed] inputs IH];
    intros t done shown_already trace t' Hnd Hdone Hans Hrun;
    [discriminate Hrun|].
  cbn [run_active] in Hrun. unfold active_step in Hrun.
  destruct (nth_error (sub_quizzes (quiz t)) (current_subquiz_index t))
    as [sq|] eqn:Hsq.
  2:{ injection Hrun as <- <-. unfold remaining. rewrite Hsq.
      destruct shown_already.
      - destruct Hans as (sq & q & v & Hk & _). discriminate Hk.
      - cbn. rewrite app_nil_r. repeat split; auto. }
  destruct (nth_error (questions sq) (current_question_index t)) as [q|] eqn:Hq.
  2:{ destruct (remaining_advanced _ _ _ sq Hsq Hq) as [Er Ek].
      destruct shown_already.
      - destruct Hans as (sq' & q' & v & Hk & Hk' & _). congruence.
      - rewrite Er. rewrite Ek in Hnd, Hdone.
        apply (IH _ done false) in Hrun;
          [exact Hrun | exact Hnd | exact Hdone | exact Hans]. }
  destruct (remaining_shown _ _ _ sq q Hsq Hq) as [Er Ek].
  rewrite Ek in Hnd, Hdone. inversion Hnd as [|? ? Hfresh Hnd']; subst.
  destruct (ui_choices q) as [labelled|e] eqn:Hui; [|discriminate Hrun].
  match type of Hrun with
  | context [run_active inputs ?t1] =>
      destruct (run_active inputs t1) as [[[trace1 t1'] fin]|e] eqn:Hrest;
      [|discriminate Hrun]
  end.
  injection Hrun as <- <- ->.
  assert (Hnew : ~ In (session_key sq q) (map fst done)).
  { intros Hin. apply (Hdone _ Hin). now left. }
  assert (Hset : dict_set (answers (quiz t)) (session_key sq q)
                          (capture_answer q labelled w) =
                 done ++ [(session_key sq q, capture_answer q labelled w)]).
  { destruct shown_already.
    - destruct Hans as (sq' & q' & v & Hk & Hk' & ->).
      assert (sq' = sq) by congruence. subst sq'.
      assert (q' = q) by congruence. subst q'.
      now apply dict_set_last.
    - rewrite Hans. now apply dict_set_new. }
  assert (Hstored : stored_answer (mkShown (session_key sq q) q w pressed) =
                    (session_key sq q, capture_answer q labelled w)).
  { unfold stored_answer. cbn. now rewrite Hui. }
  destruct pressed.
  - apply (IH _ (done ++ [(session_key sq q, capture_answer q labelled w)]) false)
      in Hrest; cbn.
    + cbn in Hrest. destruct Hrest as (H1 & H2 & H3 & H4 & H5 & H6).
      rewrite Er, H1, H2, Hstored, <- app_assoc. repeat split; auto.
    + exact Hnd'.
    + intros k Hk. rewrite map_app in Hk. apply in_app_iff in Hk as [Hk|Hk].
      * intros Hin. apply (Hdone _ Hk). now right.
      * cbn in Hk. destruct Hk as [<-|[]]. exact Hfresh.
    + exact Hset.
  - apply (IH _ done true) in Hrest; cbn.
    + cbn in Hrest. destruct Hrest as (H1 & H2 & H3 & H4 & H5 & H6).
      repeat split; auto.
    + rewrite Ek. constructor; assumption.
    + rewrite Ek. exact Hdone.
    + exists sq, q, (capture_answer q labelled w). repeat split; auto.
Qed.

Lemma remaining_start (sqs : list SubQuiz) :
  remaining sqs 0 0 = all_questions sqs /\
  remaining_keys sqs 0 0 = map fst (question_lookup sqs).
Proof.
  unfold remaining, remaining_keys. destruct sqs as [|sq sqs]; cbn [nth_error].
  - split; reflexivity.
  - cbn [skipn]. rewrite lookup_keys_cons. split; reflexivity.
Qed.

(** A session that starts on the first question without answers, in a quiz
    whose questions have distinct keys, and that reaches the hand-over to
    [submit_results], has gone through every question of the quiz, in
    storage order, with "Next Question" pressed exactly once on each; what
    it hands over is one answer per question, in that order, each being what
    the widgets held when "Next Question" was pressed, however many times the
    question had been redisplayed before.  The quiz itself, the quiz id and
    the name are untouched. *)
Theorem session_answers_every_question (inputs : list (widgets * bool))
    (t t' : taking) (trace : list shown_event)
    (Hsq : current_subquiz_index t = 0) (Hq : current_question_index t = 0)
    (Hempty : answers (quiz t) = [])
    (Hkeys : NoDup (map fst (question_lookup (sub_quizzes (quiz t)))))
    (Hrun : run_active inputs t = Ok (trace, t', true)) :
  map ev_question (filter ev_next trace) = all_questions (sub_quizzes (quiz t)) /\
  answers (quiz t') = map stored_answer (filter ev_next trace) /\
  sub_quizzes (quiz t') = sub_quizzes (quiz t) /\
  qs_id (quiz t') = qs_id (quiz t) /\
  taker_name (quiz t') = taker_name (quiz t).
Proof.
  destruct (remaining_start (sub_quizzes (quiz t))) as [Er Ek].
  destruct (run_active_spec inputs t [] false trace t') as (H1 & H2 & H3 & H4 & H5 & _).
  - rewrite Hsq, Hq, Ek. exact Hkeys.
  - intros k [].
  - exact Hempty.
  - exact Hrun.
  - rewrite Hsq, Hq, Er in H1. repeat split; assumption.
Qed.

Lemma session_answers_every_question_witness :
  exists trace t',
    run_active sample_inputs sample_taking = Ok (trace, t', true) /\
    answers (quiz t') =
      [("7_31"%string, VStr "12"); ("7_32"%string, VList ["21"; "22"]%string)].
Proof.
  destruct (run_active sample_inputs sample_taking) as [[[trace t'] fin]|e] eqn:E;
    [|vm_compute in E; discriminate E].
  assert (Hfin : fin = true) by (vm_compute in E; congruence).
  subst fin. exists trace, t'. split; [reflexivity|].
  destruct (session_answers_every_question sample_inputs sample_taking t' trace
              eq_refl eq_refl eq_refl) as (_ & H & _).
  - vm_compute. repeat constructor; cbn; intuition discriminate.
  - exact E.
  - rewrite H. vm_compute in E. injection E as <- _. reflexivity.
Defined.

(** ** Fresh ids *)

Section FreshIds.

Variable fails : nat -> bool.

Lemma insert_questions_ids (sqid : nat) (qs : list Question) :
  forall (idx : nat) (s s' : session) (u : unit),
    insert_questions fails sqid idx qs s = (Ok u, s') ->
    exists qrows,
      Questions (working s') = Questions (working s) ++ qrows /\
      map QuestionID qrows = seq (next_QuestionID s) (List.length qrows) /\
      next_QuestionID s' = next_QuestionID s + List.length qrows /\
      SubQuizzes (working s') = SubQuizzes (working s) /\
      next_SubQuizID s' = next_SubQuizID s.
Proof.
  induction qs as [|q qs IH]; intros idx s s' u H.
  - cbn in H. injection H as _ <-. exists []. rewrite app_nil_r.
    cbn. repeat split; lia.
  - cbn [insert_questions] in H. apply bind_ok in H as (n & s1 & H1 & H).
    apply bind_ok in H as (u1 & s2 & H2 & H3).
    apply insert_Question_ok in H1 as [-> G1].
    apply choices_step in H2 as (cq & G2 & _).
    apply IH in H3 as (qrows & E & Hids & N & ES & NS).
    destruct G1 as (_ & A2 & A3 & _ & _ & _ & _ & A8 & A9).
    destruct G2 as (_ & B2 & B3 & _ & _ & _ & _ & B8 & B9).
    cbn in A2, A3, A8, A9, B2, B3, B8, B9.
    rewrite app_nil_r in A2, B2, B3.
    eexists (_ :: qrows). rewrite E, B3, A3, <- app_assoc. cbn [app].
    split; [reflexivity|]. cbn [map List.length seq QuestionID].
    split; [f_equal; rewrite Hids; f_equal; lia|].
    split; [lia|]. split; [congruence | lia].
Qed.

Lemma insert_sub_quizzes_ids (quiz_id : nat) (sqs : list SubQuiz) :
  forall (idx : nat) (s s' : session) (u : unit),
    insert_sub_quizzes fails quiz_id idx sqs s = (Ok u, s') ->
    exists srows qrows,
      SubQuizzes (working s') = SubQuizzes (working s) ++ srows /\
      Questions (working s') = Questions (working s) ++ qrows /\
      map SubQuizID srows = seq (next_SubQuizID s) (List.length srows) /\
      map QuestionID qrows = seq (next_QuestionID s) (List.length qrows) /\
      next_SubQuizID s' = next_SubQuizID s + List.length srows /\
      next_QuestionID s' = next_QuestionID s + List.length qrows.
Proof.
  induction sqs as [|sq sqs IH]; intros idx s s' u H.
  - cbn in H. injection H as _ <-. exists [], []. rewrite !app_nil_r.
    cbn. repeat split; lia.
  - cbn [insert_sub_quizzes] in H. apply bind_ok in H as (m & s1 & H1 & H).
    apply bind_ok in H as (u1 & s2 & H2 & H3).
    apply insert_SubQuiz_ok in H1 as [-> G1].
    apply insert_questions_ids in H2 as (q1 & E1 & I1 & N1 & ES1 & NS1).
    apply IH in H3 as (srows & qrows & ES & EQ & IS & IQ & NS & NQ).
    destruct G1 as (_ & A2 & A3 & _ & _ & _ & _ & A8 & A9).
    cbn in A2, A3, A8, A9. rewrite app_nil_r in A3.
    eexists (_ :: srows), (q1 ++ qrows).
    rewrite ES, ES1, A2, EQ, E1, A3, <- !app_assoc. cbn [app].
    split; [reflexivity|]. split; [reflexivity|].
    cbn [map List.length seq SubQuizID].
    split; [f_equal; rewrite IS; f_equal; lia|].
    split.
    { rewrite map_app, length_app, seq_app, I1, IQ. f_equal; f_equal; lia. }
    rewrite length_app. split; lia.
Qed.

Lemma save_quiz_try_ids (draw : nat -> nat) (quiz_title : string)
    (sqs : list SubQuiz) (s s' : session) (code : string) :
  save_quiz_try fails draw quiz_title sqs s = (Ok code, s') ->
  exists srows qrows,
    SubQuizzes (visible s') = SubQuizzes (visible s) ++ srows /\
    Questions (visible s') = Questions (visible s) ++ qrows /\
    map SubQuizID srows = seq (next_SubQuizID s) (List.length srows) /\
    map QuestionID qrows = seq (next_QuestionID s) (List.length qrows).
Proof.
  unfold save_quiz_try. intros H.
  apply bind_ok in H as (u0 & s0 & H0 & H).
  apply bind_ok in H as (quiz_id & s1 & H1 & H).
  apply bind_ok in H as (u2 & s2 & H2 & H).
  apply bind_ok in H as (u3 & s3 & H3 & H).
  unfold ret in H. injection H as <- <-.
  unfold start_transaction in H0. injection H0 as _ <-.
  unfold insert_Quiz, bind, statement in H1. cbn [executed set_working] in H1.
  destruct (fails (executed s)); [discriminate|]. injection H1 as <- <-.
  unfold commit, bind, statement in H3.
  destruct (fails (executed s2)); [discriminate|]. injection H3 as _ <-.
  apply insert_sub_quizzes_ids in H2 as (srows & qrows & ES & EQ & IS & IQ & _).
  cbn in ES, EQ, IS, IQ. exists srows, qrows. cbn. auto.
Qed.

End FreshIds.

Lemma NoDup_old_new (old : list nat) (n len : nat) :
  NoDup old -> Forall (fun i => i < n) old -> NoDup (old ++ seq n len).
Proof.
  intros Hnd Hlt. apply NoDup_app; [exact Hnd | apply seq_NoDup|].
  intros a Ha Hs. rewrite Forall_forall in Hlt. specialize (Hlt a Ha).
  apply in_seq in Hs. lia.
Qed.

(** Ids are never handed out twice: in a store whose primary keys are below
    the counters and pairwise distinct, they are still pairwise distinct
    after [save_quiz] and after [submit_results], whatever the outcome. *)
Theorem primary_keys_stay_unique (fails : nat -> bool) (connected : bool)
    (s : session) (Hids : ids_issued s) (Huniq : keys_unique s) :
  (forall draw quiz_title sqs,
     keys_unique (snd (save_quiz fails connected draw quiz_title sqs s))) /\
  (forall st, keys_unique (snd (submit_results fails connected st s))).
Proof.
  destruct Huniq as [US UQ]. destruct Hids as (_ & IS & IQ). split.
  - intros draw quiz_title sqs.
    destruct (save_quiz_result fails connected draw quiz_title sqs s)
      as [(code & s1 & Hrun & ->) | (Hv & _)].
    + cbn [snd]. unfold keys_unique. cbn [close set_working visible].
      apply save_quiz_try_ids in Hrun as (srows & qrows & -> & -> & HS & HQ).
      rewrite !map_app, HS, HQ. split; apply NoDup_old_new; auto;
        apply Forall_map; assumption.
    + unfold keys_unique. rewrite Hv. now split.
  - intros st.
    destruct (submit_results_result fails connected st s) as (_ & E2 & E3 & _).
    unfold keys_unique. rewrite E2, E3. now split.
Qed.

Lemma primary_keys_stay_unique_witness :
  ids_issued sample_saved /\ keys_unique sample_saved /\
  keys_unique
    (snd (save_quiz no_faults true (fun i => i + 6) "Quiz" sample_tree sample_saved)).
Proof.
  assert (I : ids_issued sample_saved) by (vm_compute; repeat constructor).
  assert (U : keys_unique sample_saved).
  { unfold sample_saved.
    apply (proj1 (primary_keys_stay_unique no_faults true empty_session
                    (conj (Forall_nil _) (conj (Forall_nil _) (Forall_nil _)))
                    (conj (NoDup_nil _) (NoDup_nil _)))). }
  split; [exact I|]. split; [exact U|].
  apply (proj1 (primary_keys_stay_unique no_faults true sample_saved I U)).
Defined.

(** ** Keys of a loaded quiz *)

(** Selecting rows keeps their keys distinct. *)
Lemma distinct_keys_filter (Row Key : Type) (key : Row -> Key) (keep : Row -> bool) :
  forall rows : list Row,
    NoDup (map key rows) -> NoDup (map key (filter keep rows)).
Proof.
  intros rows. induction rows as [|r rows IH]; simpl; [trivial|].
  rewrite NoDup_cons_iff. intros [Hr Hrows].
  destruct (keep r); simpl; [|now apply IH].
  rewrite NoDup_cons_iff. split; [|now apply IH].
  rewrite in_map_iff in *. intros [r' [E Hin]].
  apply Hr. exists r'. apply filter_In in Hin. tauto.
Qed.

Lemma select_sub_quizzes_NoDup (S0 : list SubQuizRow) (i : nat) :
  NoDup (map SubQuizID S0) -> NoDup (map SubQuizID (select_sub_quizzes S0 i)).
Proof.
  intros H. unfold select_sub_quizzes.
  eapply Permutation_NoDup;
    [apply Permutation_map; symmetry; apply order_by_perm|].
  now apply distinct_keys_filter.
Qed.

Lemma select_questions_NoDup (Q : list QuestionRow) (i : nat) :
  NoDup (map QuestionID Q) -> NoDup (map QuestionID (select_questions Q i)).
Proof.
  intros H. unfold select_questions.
  eapply Permutation_NoDup;
    [apply Permutation_map; symmetry; apply order_by_perm|].
  now apply distinct_keys_filter.
Qed.

Lemma loaded_key (Q : list QuestionRow) (C : list ChoiceRow) (sr : SubQuizRow)
    (qr : QuestionRow) :
  session_key (load_sub_quiz Q C sr) (load_question C qr) =
  (str (SubQuizID sr) ++ "_" ++ str (QuestionID qr))%string.
Proof. reflexivity. Qed.

Lemma loaded_lookup_In (Q : list QuestionRow) (C : list ChoiceRow)
    (R : list SubQuizRow) (k : string) (q : Question) :
  In (k, q) (question_lookup (map (load_sub_quiz Q C) R)) ->
  exists sr qr,
    In sr R /\ In qr (select_questions Q (SubQuizID sr)) /\
    q = load_question C qr /\
    k = (str (SubQuizID sr) ++ "_" ++ str (QuestionID qr))%string.
Proof.
  unfold question_lookup. intros H. apply in_flat_map in H as (sq & Hsq & H).
  apply in_map_iff in Hsq as (sr & <- & Hsr).
  apply in_map_iff in H as (q' & [= <- <-] & Hq).
  cbn [load_sub_quiz questions] in Hq. apply in_map_iff in Hq as (qr & <- & Hqr).
  exists sr, qr. repeat split; auto.
Qed.

(** In a store with distinct sub-quiz ids and distinct question ids, the
    questions of a loaded quiz have pairwise distinct keys. *)
Lemma loaded_keys_NoDup (Q : list QuestionRow) (C : list ChoiceRow)
    (R : list SubQuizRow) :
  NoDup (map SubQuizID R) -> NoDup (map QuestionID Q) ->
  NoDup (map fst (question_lookup (map (load_sub_quiz Q C) R))).
Proof.
  intros HR HQ. induction R as [|sr R IH]; [constructor|].
  cbn [map]. rewrite lookup_keys_cons.
  inversion HR as [|? ? Hsr HR']; subst. apply NoDup_app.
  - cbn [load_sub_quiz questions]. rewrite map_map.
    erewrite map_ext; [|intros qr; apply loaded_key].
    rewrite <- (map_map QuestionID
                  (fun n => (str (SubQuizID sr) ++ "_" ++ str n)%string)).
    apply Finite.Injective_map_NoDup; [|now apply select_questions_NoDup].
    intros x y H. apply key_inj in H as [_ H];
      [now apply str_inj | apply str_no_underscore | apply str_no_underscore].
  - now apply IH.
  - intros k Hk Hk'.
    apply in_map_iff in Hk as (q & <- & Hq). cbn [load_sub_quiz questions] in Hq.
    apply in_map_iff in Hq as (qr & <- & _). rewrite loaded_key in Hk'.
    apply in_map_iff in Hk' as ([k q'] & Hfst & Hin). cbn in Hfst. subst k.
    apply loaded_lookup_In in Hin as (sr' & qr' & Hsr' & _ & _ & Hkey).
    apply key_inj in Hkey as [Hkey _];
      [|apply str_no_underscore | apply str_no_underscore].
    apply str_inj in Hkey. apply Hsr. rewrite Hkey. now apply in_map.
Qed.

Lemma dict_get_none (d : list (string * Question)) (k : string) :
  ~ In k (map fst d) -> dict_get d k = None.
Proof.
  induction d as [|[k' v] d IH]; intros H; [reflexivity|].
  cbn [dict_get]. rewrite IH by (intros Hin; apply H; now right).
  destruct (String.eqb_spec k' k) as [->|]; [|reflexivity].
  exfalso. apply H. now left.
Qed.

(** With distinct keys, every question is found under its own key. *)
Lemma dict_get_unique (d : list (string * Question)) (k : string) (v : Question) :
  NoDup (map fst d) -> In (k, v) d -> dict_get d k = Some v.
Proof.
  induction d as [|[k' v'] d IH]; intros Hnd Hin; [contradiction|].
  cbn [map fst] in Hnd. inversion Hnd as [|? ? Hk Hnd']; subst.
  cbn [dict_get]. destruct Hin as [[= -> ->]|Hin].
  - rewrite (dict_get_none d k Hk). now rewrite String.eqb_refl.
  - now rewrite (IH Hnd' Hin).
Qed.

Lemma run_active_events (inputs : list (widgets * bool)) :
  forall (t t' : taking) (trace : list shown_event) (fin : bool),
    run_active inputs t = Ok (trace, t', fin) ->
    Forall (fun ev => In (ev_key ev, ev_question ev)
                         (question_lookup (sub_quizzes (quiz t)))) trace.
Proof.
  induction inputs as [|[w pressed] inputs IH]; intros t t' trace fin Hrun.
  - injection Hrun as <- _ _. constructor.
  - cbn [run_active] in Hrun. unfold active_step in Hrun.
    destruct (nth_error (sub_quizzes (quiz t)) (current_subquiz_index t))
      as [sq|] eqn:Hsq; [|injection Hrun as <- _ _; constructor].
    destruct (nth_error (questions sq) (current_question_index t)) as [q|] eqn:Hq;
      [|apply IH in Hrun; exact Hrun].
    destruct (ui_choices q) as [labelled|e]; [|discriminate Hrun].
    match type of Hrun with
    | context [run_active inputs ?t1] =>
        destruct (run_active inputs t1) as [[[trace1 t1'] fin1]|e] eqn:Hrest;
        [|discriminate Hrun]
    end.
    injection Hrun as <- _ _. apply IH in Hrest. cbn in Hrest.
    constructor; [|exact Hrest]. cbn [ev_key ev_question].
    unfold question_lookup. apply in_flat_map. exists sq.
    split; [eapply nth_error_In; eauto|].
    apply in_map_iff. exists q. split; [reflexivity | eapply nth_error_In; eauto].
Qed.

Lemma score_submitted_ok (q : Question) (v : value) :
  exists score correct text, score_submitted q v = Ok (score, correct, text).
Proof.
  unfold score_submitted.
  destruct v as [|t|[|x l]]; try (now repeat eexists).
  - destruct (score_answer_cases q (VStr t)) as [H|H];
      [intros [_ H]; discriminate H | | ]; rewrite H; now repeat eexists.
  - destruct (score_answer_cases q (VList (x :: l))) as [H|H];
      [intros [_ H]; discriminate H | | ]; rewrite H; now repeat eexists.
Qed.

(** What [submit_results] makes of the answers a session hands over, when
    every question is found under its key and has a numeric id. *)
Lemma process_session_answers (lookup : list (string * Question))
    (evs : list shown_event) :
  NoDup (map fst lookup) ->
  Forall (fun ev => In (ev_key ev, ev_question ev) lookup /\
                    exists n, int (q_id (ev_question ev)) = Ok n) evs ->
  forall total,
    process_answers lookup (map stored_answer evs) total =
    Ok ((total + fold_right Z.add 0 (map pa_score (map pending_of evs)))%Z,
        map pending_of evs).
Proof.
  intros Hnd. induction 1 as [|ev evs [Hin (n & Hn)] _ IH]; intros total.
  - cbn. f_equal. f_equal. lia.
  - destruct (score_submitted_ok (ev_question ev) (snd (stored_answer ev)))
      as (score & correct & text & Hs).
    assert (Hp : pending_of ev =
                 mkPendingAnswer n text (if correct then 1 else 0) score).
    { unfold pending_of. now rewrite Hs, Hn. }
    cbn [map process_answers]. rewrite Hp.
    destruct (stored_answer ev) as [k v] eqn:Hst.
    assert (Hk : k = ev_key ev) by (unfold stored_answer in Hst; congruence).
    subst k. cbn [snd] in Hs.
    rewrite (dict_get_unique lookup _ _ Hnd Hin), Hs, Hn, IH.
    cbn [fold_right map pa_score]. f_equal. f_equal. lia.
Qed.

Lemma Forall_filter_keep (A : Type) (P : A -> Prop) (f : A -> bool) (l : list A) :
  Forall P l -> Forall P (filter f l).
Proof.
  rewrite !Forall_forall. intros H x Hx. apply filter_In in Hx as [Hx _]. auto.
Qed.

Lemma pending_of_question_id (ev : shown_event) (n : nat) :
  int (q_id (ev_question ev)) = Ok n -> pa_question_id (pending_of ev) = n.
Proof.
  intros Hn. unfold pending_of.
  destruct (score_submitted_ok (ev_question ev) (snd (stored_answer ev)))
    as (score & correct & text & ->).
  now rewrite Hn.
Qed.

(** ** From the access code to the recorded attempt *)

(** The whole path of a respondent.  In a store whose sub-quiz ids and
    question ids are pairwise distinct, take a code that "Find Quiz"
    resolves, a non-empty name, and any sequence of runs of the active step
    that reaches the hand-over.  Then [submit_results], if no statement
    fails, completes and records the attempt under the id of the quiz that
    carries the code and under the name given, with one Answers row per
    question of the quiz, in storage order, each carrying the id of the
    stored question it was shown for and the score of the answer held when
    "Next Question" was pressed; the total is the sum of these scores. *)
Theorem take_quiz_end_to_end (fails : nat -> bool) (s : session)
    (code name : string) (t0 t2 : taking) (inputs : list (widgets * bool))
    (trace : list shown_event)
    (Huniq : keys_unique s)
    (Hfind : find_quiz (visible s) code = Ok (QuizFound t0))
    (Hname : name <> EmptyString)
    (Hrun : run_active inputs (name_input name true t0) = Ok (trace, t2, true))
    (Hno : forall k, k < submit_statements (List.length (filter ev_next trace)) ->
                     fails (executed s + k) = false) :
  exists header total,
    In header (Quizzes (visible s)) /\ Access_Code header = code /\
    map ev_question (filter ev_next trace) = all_questions (sub_quizzes (quiz t0)) /\
    fst (submit_results fails true (quiz t2) s) = Completed total /\
    total = fold_right Z.add 0%Z (map pa_score (map pending_of (filter ev_next trace))) /\
    QuizTakers (visible (snd (submit_results fails true (quiz t2) s))) =
      QuizTakers (visible s) ++
        [mkQuizTakerRow (next_TakerID s) (QuizID header) name (clock s) total] /\
    Answers (visible (snd (submit_results fails true (quiz t2) s))) =
      Answers (visible s) ++
        map (answer_row (next_TakerID s)) (map pending_of (filter ev_next trace)) /\
    Forall (fun ev =>
              exists qr,
                In qr (Questions (visible s)) /\
                pa_question_id (pending_of ev) = QuestionID qr /\
                ev_question ev = load_question (Choices (visible s)) qr)
           (filter ev_next trace).
Proof.
  destruct Huniq as [US UQ].
  unfold find_quiz in Hfind.
  destruct (String.eqb code EmptyString); [discriminate Hfind|].
  destruct (get_quiz_by_code (visible s) code) as [[qd doc]|] eqn:Hget;
    [|discriminate Hfind].
  destruct (prepare_sub_quizzes (sub_quizzes_json qd)); [|discriminate Hfind].
  injection Hfind as <-.
  unfold get_quiz_by_code in Hget.
  destruct (filter _ (Quizzes (visible s))) as [|h [|h' tl]] eqn:E;
    cbn [fetchone] in Hget; [discriminate Hget| |discriminate Hget].
  injection Hget as <- <-.
  assert (Hh : In h (Quizzes (visible s)) /\ Access_Code h = code).
  { assert (Hin : In h (filter (fun r => String.eqb (Access_Code r) code)
                               (Quizzes (visible s)))) by (rewrite E; now left).
    apply filter_In in Hin as [Hin Hc]. now apply String.eqb_eq in Hc. }
  unfold name_input in Hrun. apply String.eqb_neq in Hname.
  rewrite Hname in Hrun. cbn [negb andb quiz data sub_quizzes_json] in Hrun.
  set (R := select_sub_quizzes (SubQuizzes (visible s)) (QuizID h)) in *.
  set (loaded := map (load_sub_quiz (Questions (visible s)) (Choices (visible s))) R)
    in *.
  assert (Hkeys : NoDup (map fst (question_lookup loaded))).
  { apply loaded_keys_NoDup; [now apply select_sub_quizzes_NoDup | exact UQ]. }
  destruct (remaining_start loaded) as [Er Ek].
  pose proof (run_active_events _ _ _ _ _ Hrun) as Hev.
  apply (run_active_spec inputs _ [] false) in Hrun.
  2:{ cbn. rewrite Ek. exact Hkeys. }
  2:{ intros k []. }
  2:{ reflexivity. }
  cbn in Hrun, Hev. destruct Hrun as (H1 & H2 & H3 & H4 & H5 & _).
  rewrite Er in H1.
  assert (Hrows : Forall (fun ev =>
                    In (ev_key ev, ev_question ev) (question_lookup loaded) /\
                    exists qr, In qr (Questions (visible s)) /\
                               int (q_id (ev_question ev)) = Ok (QuestionID qr) /\
                               ev_question ev = load_question (Choices (visible s)) qr)
                         (filter ev_next trace)).
  { apply Forall_filter_keep. eapply Forall_impl; [|exact Hev].
    cbv beta. intros ev Hin. split; [exact Hin|].
    apply loaded_lookup_In in Hin as (sr & qr & _ & Hqr & Hq & _).
    exists qr. split; [now apply select_questions_In in Hqr|].
    split; [rewrite Hq; apply int_str | exact Hq]. }
  assert (Hproc : process_answers (question_lookup loaded)
                    (map stored_answer (filter ev_next trace)) 0 =
                  Ok ((0 + fold_right Z.add 0 (map pa_score
                                 (map pending_of (filter ev_next trace))))%Z,
                      map pending_of (filter ev_next trace))).
  { apply process_session_answers; [exact Hkeys|].
    eapply Forall_impl; [|exact Hrows]. cbv beta.
    intros ev (Hin & qr & _ & Hint & _). split; [exact Hin | eauto]. }
  exists h. eexists. split; [apply Hh|]. split; [apply Hh|]. split; [exact H1|].
  unfold submit_results. cbn [negb]. rewrite H4, H3, H2, H5. cbn [qs_id].
  rewrite int_str, Hproc. cbn [Z.add].
  pose proof (transactional_submit_try fails (QuizID h) name
                (fold_right Z.add 0%Z (map pa_score (map pending_of (filter ev_next trace))))
                (map pending_of (filter ev_next trace)) s) as T.
  destruct (submit_try fails (QuizID h) name _ _ s) as [[u|e] s1] eqn:Htry.
  - apply submit_try_ok in Htry as (_ & _ & _ & _ & HT & HA).
    cbn [fst snd close set_working visible].
    split; [reflexivity|]. split; [reflexivity|]. split; [exact HT|].
    split; [exact HA|].
    eapply Forall_impl; [|exact Hrows]. cbv beta.
    intros ev (_ & qr & Hqr & Hint & Hq). exists qr.
    split; [exact Hqr|]. split; [now apply pending_of_question_id | exact Hq].
  - exfalso. destruct T as (_ & _ & k & Hk & Hf).
    rewrite !length_map in Hk.
    assert (Hk' : fails k = false).
    { replace k with (executed s + (k - executed s)) by lia. apply Hno. lia. }
    congruence.
Qed.

Lemma take_quiz_end_to_end_witness :
  fst (submit_results no_faults true (quiz (snd (fst sample_walk))) sample_saved)
  = Completed 3.
Proof.
  destruct (take_quiz_end_to_end no_faults sample_saved "ABCDEF" "Ada" sample_found
              (snd (fst sample_walk)) walk_inputs (fst (fst sample_walk)))
    as (h & total & _ & _ & _ & Hc & Ht & _).
  - vm_compute. split; repeat (constructor; [cbn; intuition discriminate|]);
      constructor.
  - vm_compute. reflexivity.
  - discriminate.
  - vm_compute. reflexivity.
  - intros k _. reflexivity.
  - rewrite Hc, Ht. vm_compute. reflexivity.
Defined.

(** ** Ticking boxes *)

Lemma assign_ui_ids_snd (cs : list Choice) :
  forall idx l, assign_ui_ids idx cs = Ok l -> map snd l = cs.
Proof.
  induction cs as [|c cs IH]; intros idx l H; cbn [assign_ui_ids] in H.
  - now injection H as <-.
  - destruct (ui_letter idx) as [u|e]; [|discriminate H].
    destruct (assign_ui_ids (S idx) cs) as [l'|e] eqn:E; [|discriminate H].
    injection H as <-. cbn. f_equal. eapply IH; eauto.
Qed.

Lemma filter_map_snd (A B : Type) (f : B -> bool) (l : list (A * B)) :
  filter f (map snd l) = map snd (filter (fun p => f (snd p)) l).
Proof.
  induction l as [|[a b] l IH]; cbn; [reflexivity|].
  destruct (f b); cbn; now rewrite IH.
Qed.

Lemma NoDup_map_In_inj (A B : Type) (f : A -> B) (l : list A) (x y : A) :
  NoDup (map f l) -> In x l -> In y l -> f x = f y -> x = y.
Proof.
  induction l as [|a l IH]; cbn; intros Hnd Hx Hy Hf; [contradiction|].
  inversion Hnd as [|? ? Ha Hl]; subst.
  destruct Hx as [->|Hx], Hy as [->|Hy]; auto.
  - exfalso. apply Ha. rewrite Hf. now apply in_map.
  - exfalso. apply Ha. rewrite <- Hf. now apply in_map.
Qed.

Lemma In_map_filter_iff (A B : Type) (f : A -> B) (p : A -> bool) (l : list A) (x : A) :
  NoDup (map f l) -> In x l ->
  (In (f x) (map f (filter p l)) <-> p x = true).
Proof.
  intros Hnd Hx. split.
  - intros H. apply in_map_iff in H as (y & Hy & Hin).
    apply filter_In in Hin as [Hin Hp].
    now rewrite <- (NoDup_map_In_inj _ _ f l y x Hnd Hin Hx Hy).
  - intros Hp. apply in_map. apply filter_In. now split.
Qed.

Lemma ticked_perm_iff (labelled : list (string * Choice)) (chk : string -> bool) :
  NoDup (map (fun p => c_id (snd p)) labelled) ->
  Permutation (map (fun p => c_id (snd p)) (filter (fun p => chk (fst p)) labelled))
              (map c_id (filter is_correct (map snd labelled))) <->
  (forall u c, In (u, c) labelled -> chk u = is_correct c).
Proof.
  intros Hnd. rewrite filter_map_snd, map_map. split.
  - intros Hp u c Hin.
    pose proof (In_map_filter_iff _ _ (fun p => c_id (snd p))
                  (fun p => chk (fst p)) labelled (u, c) Hnd Hin) as H1.
    pose proof (In_map_filter_iff _ _ (fun p => c_id (snd p))
                  (fun p => is_correct (snd p)) labelled (u, c) Hnd Hin) as H2.
    cbn [fst snd] in H1, H2.
    assert (H : chk u = true <-> is_correct c = true).
    { rewrite <- H1, <- H2. split; apply Permutation_in; [exact Hp | now symmetry]. }
    destruct (chk u), (is_correct c); intuition congruence.
  - intros H. erewrite (filter_ext_in (fun p => chk (fst p))); [reflexivity|].
    intros [u c] Hin. cbn. now apply H.
Qed.

(** For a MULTI_SELECT question whose choices have distinct ids, the answer
    captured is the list of the ids of the ticked choices, in storage order.
    The scoring function gives it the full points exactly when the boxes
    ticked are exactly those of the choices marked correct.  [submit_results]
    gives the full points under the same condition provided at least one box
    is ticked: an empty selection is stopped by its guard and scores 0. *)
Theorem ticking_the_correct_boxes (q : Question) (labelled : list (string * Choice))
    (w : widgets)
    (Hty : q_type q = MULTI_SELECT)
    (Hlab : ui_choices q = Ok labelled)
    (Hids : NoDup (map c_id (choices q))) :
  let ticked := map (fun p => c_id (snd p))
                    (filter (fun p => checkbox w (fst p)) labelled) in
  let exactly := forall u c, In (u, c) labelled -> checkbox w u = is_correct c in
  capture_answer q labelled w = VList ticked /\
  (score_answer q (VList ticked) = Ok (points q, true) <-> exactly) /\
  (score_submitted q (VList ticked) = Ok (points q, true, str_value (VList ticked)) <->
   exactly /\ ticked <> []) /\
  (ticked = [] -> score_submitted q (VList ticked) = Ok (0%Z, false, "N/A"%string)).
Proof.
  intros ticked exactly.
  assert (Hsnd : map snd labelled = choices q).
  { unfold ui_choices in Hlab. rewrite Hty in Hlab. cbn in Hlab.
    eapply assign_ui_ids_snd; eauto. }
  assert (Hfull : score_answer q (VList ticked) = Ok (points q, true) <-> exactly).
  { rewrite (multi_select_full_iff q ticked Hty). unfold correct_choice_ids.
    rewrite <- Hsnd. apply ticked_perm_iff. rewrite <- map_map, Hsnd. exact Hids. }
  split; [|split; [exact Hfull|split]].
  - unfold capture_answer. rewrite Hty. reflexivity.
  - unfold score_submitted. destruct ticked as [|x l] eqn:Et.
    + split; [discriminate | intros [_ H]; now contradiction H].
    + rewrite <- Et in *. split.
      * destruct (score_answer q (VList ticked)) as [[sc co]|e] eqn:Es;
          [|discriminate]. intros [= -> ->].
        split; [now apply Hfull | rewrite Et; discriminate].
      * intros [Hex _]. apply Hfull in Hex. now rewrite Hex.
  - intros ->. reflexivity.
Qed.

Lemma ticking_the_correct_boxes_witness :
  score_submitted q_multi (VList ["x"; "y"]%string)
  = Ok (2%Z, true, "['x', 'y']"%string).
Proof.
  destruct (ticking_the_correct_boxes q_multi
              [("a"%string, mkChoice "x" "X" true);
               ("b"%string, mkChoice "w" "W" false);
               ("c"%string, mkChoice "y" "Y" true)]
              walk_widgets eq_refl eq_refl) as (_ & _ & H & _).
  - cbn. repeat (constructor; [cbn; intuition discriminate|]). constructor.
  - apply H. split; [|discriminate].
    intros u c [[= <- <-]|[[= <- <-]|[[= <- <-]|[]]]]; reflexivity.
Defined.

(** ** The editor *)

Lemma edit_choices_length (w : editor_inputs) (i j : nat) (cs : list Choice) :
  forall k cs' deleted,
    edit_choices w i j k cs = (cs', deleted) ->
    List.length cs = (if deleted then S (List.length cs') else List.length cs').
Proof.
  induction cs as [|c rest IH]; intros k cs' deleted H; simpl in H.
  - injection H as <- <-. reflexivity.
  - destruct (w_del_c w i j k).
    + injection H as <- <-. reflexivity.
    + destruct (edit_choices w i j (S k) rest) as [rest' d] eqn:E.
      injection H as <- <-. apply IH in E. simpl. destruct d; lia.
Qed.

Lemma type_name_typed (o : type_option) : In (type_name o) type_options.
Proof. destruct o; simpl; auto. Qed.

Lemma typed_existsb (q : Question) :
  typed q <-> existsb (String.eqb (q_type q)) type_options = true.
Proof.
  unfold typed. rewrite existsb_exists. split.
  - intros H. exists (q_type q). split; [exact H | apply String.eqb_refl].
  - intros [x [H E]]. apply String.eqb_eq in E. now subst x.
Qed.

Lemma edit_question_id (w : editor_inputs) (i j : nat) (q : Question) :
  q_id (fst (edit_question w i j q)) = q_id q.
Proof.
  unfold edit_question.
  destruct (negb (existsb _ _)); [reflexivity|].
  destruct (negb (String.eqb _ OPEN_TEXT)); [|reflexivity].
  destruct (_ <? 2); [reflexivity|].
  destruct (w_add_c w i j); [reflexivity|].
  destruct (edit_choices w i j 0 (choices q)); reflexivity.
Qed.

Lemma edit_question_typed (w : editor_inputs) (i j : nat) (q : Question) :
  typed q ->
  typed (fst (edit_question w i j q)) /\
  forall e, snd (edit_question w i j q) <> Raised e.
Proof.
  intros T. unfold edit_question.
  apply typed_existsb in T. rewrite T. cbn [negb].
  pose proof (type_name_typed (w_q_type w i j)) as N.
  destruct (negb (String.eqb _ OPEN_TEXT)); [|split; [exact N | discriminate]].
  destruct (_ <? 2); [split; [exact N | discriminate]|].
  destruct (w_add_c w i j); [split; [exact N | discriminate]|].
  destruct (edit_choices w i j 0 (choices q)) as [cs d].
  split; [exact N | destruct d; discriminate].
Qed.

Lemma edit_question_continue (w : editor_inputs) (i j : nat) (q q' : Question) :
  edit_question w i j q = (q', Continue) -> ready_to_save q'.
Proof.
  unfold edit_question.
  destruct (negb (existsb _ _)); [discriminate|].
  pose proof (type_name_typed (w_q_type w i j)) as N.
  destruct (negb (String.eqb (type_name (w_q_type w i j)) OPEN_TEXT)) eqn:O.
  - destruct (List.length (choices q) <? 2) eqn:L; [discriminate|].
    destruct (w_add_c w i j); [discriminate|].
    destruct (edit_choices w i j 0 (choices q)) as [cs d] eqn:E.
    destruct d; [discriminate|].
    intros H. injection H as <-. split; [exact N|]. intros _. cbn [choices].
    apply edit_choices_length in E. apply Nat.ltb_ge in L. lia.
  - intros H. injection H as <-. split; [exact N|].
    cbn [q_type]. intros D. exfalso. apply D.
    apply negb_false_iff in O. now apply String.eqb_eq in O.
Qed.

Lemma edit_questions_spec (w : editor_inputs) (i : nat) (qs : list Question) :
  forall j,
    map q_id (fst (edit_questions w i j qs)) = map q_id qs /\
    (Forall typed qs ->
     Forall typed (fst (edit_questions w i j qs)) /\
     forall e, snd (edit_questions w i j qs) <> Raised e) /\
    (snd (edit_questions w i j qs) = Continue ->
     Forall ready_to_save (fst (edit_questions w i j qs))).
Proof.
  induction qs as [|q rest IH]; intros j; simpl.
  - repeat split; auto; discriminate.
  - pose proof (edit_question_id w i j q) as Hid.
    pose proof (edit_question_typed w i j q) as Hty.
    pose proof (edit_question_continue w i j q) as Hco.
    destruct (edit_question w i j q) as [q' f]. cbn [fst snd] in *.
    specialize (IH (S j)).
    destruct f.
    + destruct (edit_questions w i (S j) rest) as [rest' f'].
      cbn [fst snd] in *. destruct IH as [I1 [I2 I3]].
      split; [simpl; now rewrite Hid, I1|]. split.
      * intros T. inversion T as [|? ? T1 T2]; subst.
        destruct (I2 T2) as [I2a I2b]. destruct (Hty T1) as [Ha _].
        split; [constructor; assumption | exact I2b].
      * intros C. constructor; [now apply Hco | now apply I3].
    + cbn [fst snd]. split; [simpl; now rewrite Hid|]. split.
      * intros T. inversion T as [|? ? T1 T2]; subst.
        destruct (Hty T1) as [Ha _].
        split; [constructor; assumption | discriminate].
      * discriminate.
    + cbn [fst snd]. split; [simpl; now rewrite Hid|]. split.
      * intros T. inversion T as [|? ? T1 T2]; subst.
        destruct (Hty T1) as [Ha Hb]. now elim (Hb e).
      * discriminate.
Qed.

Lemma generate_question_data_typed (n : nat) : typed (generate_question_data n).
Proof. unfold typed. simpl. auto. Qed.

Lemma positional_snoc (qs : list Question) :
  question_ids_positional qs ->
  question_ids_positional (qs ++ [generate_question_data (List.length qs + 1)]).
Proof.
  unfold question_ids_positional. intros H.
  rewrite map_app, length_app, H. simpl List.length.
  rewrite Nat.add_1_r, seq_S, map_app. reflexivity.
Qed.

Lemma edit_sub_quiz_spec (w : editor_inputs) (i : nat) (sq : SubQuiz) :
  sq_id (fst (edit_sub_quiz w i sq)) = sq_id sq /\
  (questions sq <> [] /\ question_ids_positional (questions sq) ->
   questions (fst (edit_sub_quiz w i sq)) <> [] /\
   question_ids_positional (questions (fst (edit_sub_quiz w i sq)))) /\
  (Forall typed (questions sq) ->
   Forall typed (questions (fst (edit_sub_quiz w i sq))) /\
   forall e, snd (edit_sub_quiz w i sq) <> Raised e) /\
  (snd (edit_sub_quiz w i sq) = Continue ->
   Forall ready_to_save (questions (fst (edit_sub_quiz w i sq)))).
Proof.
  unfold edit_sub_quiz. destruct (w_add_q w i).
  - cbn [fst snd sq_id questions]. split; [reflexivity|]. split; [|split].
    + intros [N P]. split; [|now apply positional_snoc].
      destruct (questions sq); [now elim N | discriminate].
    + intros T. split; [|discriminate].
      apply Forall_app. split; [exact T|].
      constructor; [apply generate_question_data_typed | constructor].
    + discriminate.
  - destruct (edit_questions_spec w i (questions sq) 0) as [I1 [I2 I3]].
    destruct (edit_questions w i 0 (questions sq)) as [qs f].
    cbn [fst snd sq_id questions] in *. split; [reflexivity|]. split; [|split].
    + intros [N P]. unfold question_ids_positional in *.
      assert (L : List.length qs = List.length (questions sq)).
      { rewrite <- (length_map q_id qs), I1. apply length_map. }
      split.
      * destruct qs; [|discriminate]. destruct (questions sq); [now elim N | discriminate].
      * now rewrite I1, L.
    + exact I2.
    + exact I3.
Qed.

Lemma edit_sub_quizzes_spec (w : editor_inputs) (sqs : list SubQuiz) :
  forall i,
    map sq_id (fst (edit_sub_quizzes w i sqs)) = map sq_id sqs /\
    (Forall sub_quiz_ok sqs -> Forall sub_quiz_ok (fst (edit_sub_quizzes w i sqs))) /\
    (Forall typed (all_questions sqs) ->
     Forall typed (all_questions (fst (edit_sub_quizzes w i sqs))) /\
     forall e, snd (edit_sub_quizzes w i sqs) <> Raised e) /\
    (snd (edit_sub_quizzes w i sqs) = Continue ->
     Forall ready_to_save (all_questions (fst (edit_sub_quizzes w i sqs)))).
Proof.
  induction sqs as [|sq rest IH]; intros i; simpl.
  - repeat split; auto; discriminate.
  - destruct (edit_sub_quiz_spec w i sq) as [S1 [S2 [S3 S4]]].
    destruct (edit_sub_quiz w i sq) as [sq' f]. cbn [fst snd] in *.
    specialize (IH (S i)). unfold all_questions in *.
    destruct f.
    + destruct (edit_sub_quizzes w (S i) rest) as [rest' f'].
      cbn [fst snd] in *. destruct IH as [I1 [I2 [I3 I4]]].
      split; [simpl; now rewrite S1, I1|]. split; [|split].
      * intros K. inversion K as [|? ? K1 K2]; subst.
        constructor; [now apply S2 | now apply I2].
      * intros T. simpl in T. apply Forall_app in T. destruct T as [T1 T2].
        destruct (S3 T1) as [Sa _]. destruct (I3 T2) as [Ia Ib].
        split; [simpl; apply Forall_app; now split | exact Ib].
      * intros C. simpl. apply Forall_app. split; [now apply S4 | now apply I4].
    + cbn [fst snd]. split; [simpl; now rewrite S1|]. split; [|split].
      * intros K. inversion K as [|? ? K1 K2]; subst.
        constructor; [now apply S2 | exact K2].
      * intros T. simpl in T. apply Forall_app in T. destruct T as [T1 T2].
        destruct (S3 T1) as [Sa _].
        split; [simpl; apply Forall_app; now split | discriminate].
      * discriminate.
    + cbn [fst snd]. split; [simpl; now rewrite S1|]. split; [|split].
      * intros K. inversion K as [|? ? K1 K2]; subst.
        constructor; [now apply S2 | exact K2].
      * intros T. simpl in T. apply Forall_app in T. destruct T as [T1 T2].
        destruct (S3 T1) as [_ Sb]. now elim (Sb e).
      * discriminate.
Qed.

Lemma new_quiz_ok : editor_ok new_quiz.
Proof.
  split; [split|].
  - reflexivity.
  - constructor; [|constructor]. split; [discriminate | reflexivity].
  - constructor; [apply generate_question_data_typed | constructor].
Qed.

Lemma create_quiz_mode_ok (w : editor_inputs) (st : editor_state) :
  editor_ok st ->
  editor_ok (outcome_state (create_quiz_mode w st)) /\
  forall e st', create_quiz_mode w st <> EditorRaised e st'.
Proof.
  intros [[K1 K2] T]. unfold create_quiz_mode.
  destruct (w_add_sub_quiz w).
  - cbn [outcome_state]. split; [|discriminate].
    split; [split|]; cbn [ed_sub_quizzes].
    + rewrite map_app, length_app, K1. simpl List.length.
      rewrite Nat.add_1_r, seq_S, map_app. reflexivity.
    + apply Forall_app. split; [exact K2|].
      constructor; [|constructor]. split; [discriminate | reflexivity].
    + unfold all_questions in *. rewrite flat_map_app. apply Forall_app.
      split; [exact T|]. simpl.
      constructor; [apply generate_question_data_typed | constructor].
  - destruct (edit_sub_quizzes_spec w (ed_sub_quizzes st) 0) as [I1 [I2 [I3 _]]].
    destruct (I3 T) as [Ta Tb]. clear I3.
    assert (K2' := I2 K2). clear I2.
    destruct (edit_sub_quizzes w 0 (ed_sub_quizzes st)) as [sqs' f].
    cbn [fst snd] in *.
    assert (L : List.length sqs' = List.length (ed_sub_quizzes st)).
    { rewrite <- (length_map sq_id sqs'), I1. apply length_map. }
    assert (Hok : editor_ok (mkEditorState (w_title w) sqs')).
    { split; [split|]; cbn [ed_sub_quizzes]; [now rewrite I1, L | exact K2' | exact Ta]. }
    destruct f as [| |e].
    + destruct (w_save w); (split; [exact Hok | discriminate]).
    + split; [exact Hok | discriminate].
    + now elim (Tb e).
Qed.

Lemma editor_after_ok (ws : list editor_inputs) :
  forall st, editor_ok st -> editor_ok (editor_after ws st).
Proof.
  induction ws as [|w rest IH]; intros st K; [exact K|].
  unfold editor_after. simpl. apply IH. now apply create_quiz_mode_ok.
Qed.

(** Whatever the user does in the editor after "Create New Quiz" (any
    sequence of runs, any widget values and buttons), the session state keeps
    its shape: the sub-quizzes carry the ids 1, 2, ... in order, every
    sub-quiz has at least one question and its questions carry the ids
    1, 2, ... in order, every question has one of the three types, and no run
    raises (the lookup of the present type among the options always
    succeeds). *)
Theorem editor_keeps_its_shape (ws : list editor_inputs) (w : editor_inputs) :
  let st := editor_after ws new_quiz in
  editor_tree_ok (ed_sub_quizzes st) /\
  Forall typed (all_questions (ed_sub_quizzes st)) /\
  (forall e st', create_quiz_mode w st <> EditorRaised e st').
Proof.
  intros st.
  assert (K : editor_ok st) by (apply editor_after_ok, new_quiz_ok).
  destruct (create_quiz_mode_ok w st K) as [_ N].
  destruct K as [K T]. repeat split; try apply K; assumption.
Qed.

(** When a run of the editor reaches the call of [save_quiz], whatever the
    state the run started from, the tree handed over has the title of the
    title field, and each of its questions has one of the three types and,
    unless it is OPEN_TEXT, at least two choices.  Its sub-quizzes are, by
    id, those the run started from; the save button was pressed and "Add New
    Sub-Quiz" was not. *)
Theorem editor_saves_only_complete_questions
    (w : editor_inputs) (st st' : editor_state) :
  create_quiz_mode w st = EditorSave st' ->
  new_quiz_title st' = w_title w /\
  Forall ready_to_save (all_questions (ed_sub_quizzes st')) /\
  map sq_id (ed_sub_quizzes st') = map sq_id (ed_sub_quizzes st) /\
  w_save w = true /\ w_add_sub_quiz w = false.
Proof.
  unfold create_quiz_mode.
  destruct (w_add_sub_quiz w); [discriminate|].
  destruct (edit_sub_quizzes_spec w (ed_sub_quizzes st) 0) as [I1 [_ [_ I4]]].
  destruct (edit_sub_quizzes w 0 (ed_sub_quizzes st)) as [sqs' f].
  cbn [fst snd] in *.
  destruct f; try discriminate.
  destruct (w_save w); [|discriminate].
  intros H. injection H as <-. cbn [new_quiz_title ed_sub_quizzes].
  repeat split; auto.
Qed.

Lemma editor_saves_only_complete_questions_witness :
  create_quiz_mode press_save new_quiz
    = EditorSave (outcome_state (create_quiz_mode press_save new_quiz)) /\
  Forall ready_to_save
    (all_questions (ed_sub_quizzes (outcome_state (create_quiz_mode press_save new_quiz)))).
Proof.
  assert (H : create_quiz_mode press_save new_quiz
              = EditorSave (outcome_state (create_quiz_mode press_save new_quiz)))
    by (vm_compute; reflexivity).
  split; [exact H|].
  exact (proj1 (proj2 (editor_saves_only_complete_questions press_save new_quiz _ H))).
Defined.

(** Deleting one of the two choices of a question leaves a single choice, and
    the next run in which the question is still a choice question puts the
    two default choices, none marked correct, in its place: the run stops
    there, and the text and the mark of the choice that was left are gone. *)
Theorem deleting_below_two_resets_choices
    (w w' : editor_inputs) (i j : nat) (q : Question) (c1 c2 : Choice) :
  typed q ->
  choices q = [c1; c2] ->
  w_q_type w i j <> PickOpen ->
  w_add_c w i j = false ->
  w_del_c w i j 0 = true \/ w_del_c w i j 1 = true ->
  w_q_type w' i j <> PickOpen ->
  let q1 := fst (edit_question w i j q) in
  snd (edit_question w i j q) = Rerun /\
  List.length (choices q1) = 1 /\
  edit_question w' i j q1 =
    (mkQuestion (q_id q) (w_q_text w' i j) (type_name (w_q_type w' i j))
                (w_q_points w' i j) two_default_choices, Rerun).
Proof.
  intros T Hc Ht Ha Hd Ht' q1.
  assert (O : forall o, o <> PickOpen -> negb (String.eqb (type_name o) OPEN_TEXT) = true).
  { intros o Ho. destruct o; try reflexivity. now elim Ho. }
  assert (E : exists cs, List.length cs = 1 /\
                edit_question w i j q =
                  (mkQuestion (q_id q) (w_q_text w i j) (type_name (w_q_type w i j))
                              (w_q_points w i j) cs, Rerun)).
  { unfold edit_question. apply typed_existsb in T. rewrite T. cbn [negb].
    rewrite (O _ Ht), Hc, Ha. simpl.
    destruct (w_del_c w i j 0) eqn:D0.
    - exists [c2]. split; reflexivity.
    - destruct Hd as [Hd|Hd]; [discriminate|]. rewrite Hd.
      eexists. split; [|reflexivity]. reflexivity. }
  destruct E as [cs [L E]]. subst q1. rewrite E. cbn [fst snd choices].
  split; [reflexivity|]. split; [exact L|].
  unfold edit_question. cbn [q_id q_type choices].
  assert (T' : existsb (String.eqb (type_name (w_q_type w i j))) type_options = true).
  { destruct (w_q_type w i j); reflexivity. }
  rewrite T'. cbn [negb]. rewrite (O _ Ht'), L. reflexivity.
Qed.

Lemma deleting_below_two_resets_choices_witness :
  let q1 := fst (edit_question delete_first 0 0 q_two_choices) in
  snd (edit_question delete_first 0 0 q_two_choices) = Rerun /\
  List.length (choices q1) = 1 /\
  edit_question press_save 0 0 q1 =
    (mkQuestion (q_id q_two_choices) (w_q_text press_save 0 0)
                (type_name (w_q_type press_save 0 0))
                (w_q_points press_save 0 0) two_default_choices, Rerun).
Proof.
  apply (deleting_below_two_resets_choices delete_first press_save 0 0
           q_two_choices (mkChoice "a" "PP" true) (mkChoice "b" "PVC" false)).
  - unfold typed. simpl. auto.
  - reflexivity.
  - discriminate.
  - reflexivity.
  - left. reflexivity.
  - discriminate.
Defined.
